(** * Lab_GPU: the host-side benchmarking harness

    A shallow embedding of [src/main_sum.cpp] and
    [src/main_matrix_multiplication.cpp].

    - C++ [double] is the primitive binary64 [float]; its specification
      ([Prim2SF], [SFadd], ...) is the IEEE 754 one, NaN and infinities
      included.
    - C++ [float] (the element type of the matrices) is a [spec_float] of the
      binary32 format; [double a = cs[i]] is the exact conversion [to_double].
    - [unsigned int] is a [Z] with the reduction modulo 2^32 written out.
    - The accelerator layer (libgpu), the timer and the random generator
      (libutils) are not part of the sources: what a kernel launch does to
      the device buffers, what the timer measures and what the generator
      draws are parameters of the two programs. *)

From Stdlib Require Import ZArith List Bool String Lia Floats Permutation.
Import ListNotations.

Local Open Scope string_scope.
Local Open Scope list_scope.
Local Open Scope Z_scope.
Set Warnings "-inexact-float,-notation-for-abbreviation".

(** ** Machine integers *)

Definition UINT_MAX : Z := 4294967295.

Definition u32 (z : Z) : Z := z mod 2 ^ 32.
Definition size_t (z : Z) : Z := z mod 2 ^ 64.

(** [a + b] on [unsigned int]. *)
Definition add32 (a b : Z) : Z := u32 (a + b).

(** ** Single and double precision numbers *)

Definition f32 : Type := spec_float.

Definition f32_prec : Z := 24.
Definition f32_emax : Z := 128.

Definition f32_zero : f32 := S754_zero false.
Definition f32_add : f32 -> f32 -> f32 := SFadd f32_prec f32_emax.
Definition f32_mul : f32 -> f32 -> f32 := SFmul f32_prec f32_emax.

(** An integer constant read as a [float]. *)
Definition f32_of_Z (z : Z) : f32 := binary_normalize f32_prec f32_emax z 0 false.

(** [double a = x] for a [float x]: every binary32 number is a binary64
    number, so the conversion does not round. *)
Definition to_double (x : f32) : float := SF2Prim x.

(** [(double) z] for an unsigned integer below 2^63. *)
Definition double_of_Z (z : Z) : float := PrimFloat.of_uint63 (Uint63.of_Z z).

(** [std::max(x, y)] is [(x < y) ? y : x]. *)
Definition std_max (x y : float) : float := if (x <? y)%float then y else x.

(** [x != y] on [double]. *)
Definition fneq (x y : float) : bool := negb (x =? y)%float.

(** ** The matrix validator (main_matrix_multiplication.cpp, lines 97-113) *)

Module Validator.

(** The guard [a != 0.0 || b != 0.0]. *)
Definition guard (a b : float) : bool := fneq a 0 || fneq b 0.

(** The divisor [std::max(fabs(a), fabs(b))]. *)
Definition divisor (a b : float) : float := std_max (abs a) (abs b).

(** [fabs(a - b) / std::max(fabs(a), fabs(b))]. *)
Definition rel_diff (a b : float) : float := (abs (a - b) / divisor a b)%float.

(** One iteration of the loop at index [i]: [a] is the candidate [cs[i]],
    [b] the reference [cs_cpu_reference[i]], both already read as
    [double]. *)
Definition diff_step (cs ref : list float) (diff_sum : float) (i : nat) : float :=
  let a := nth i cs 0%float in
  let b := nth i ref 0%float in
  if guard a b then (diff_sum + rel_diff a b)%float else diff_sum.

(** [for (int i = 0; i < M * N; ++i)], [M * N] an [unsigned int]. *)
Definition elems (M N : Z) : Z := u32 (M * N).

Definition diff_sum (M N : Z) (cs ref : list float) : float :=
  fold_left (diff_step cs ref) (seq 0 (Z.to_nat (elems M N))) 0%float.

(** [diff_sum / (M * N)]. *)
Definition diff_avg (M N : Z) (cs ref : list float) : float :=
  (diff_sum M N cs ref / double_of_Z (elems M N))%float.

(** The condition of [if (diff_avg > 0.01)], under which the program prints
    [Too big difference!] and returns 1. *)
Definition too_big (d : float) : bool := (0.01 <? d)%float.

(** A variant passes when the program goes on after the check. *)
Definition passes (M N : Z) (cs ref : list float) : bool :=
  negb (too_big (diff_avg M N cs ref)).

(** The validator in the words of the specification: the relative errors of
    the elements where the reference or the candidate is nonzero, summed in
    index order and divided by the element count. *)
Definition relative_errors (cs ref : list float) : list float :=
  map (fun p => rel_diff (fst p) (snd p))
      (filter (fun p => guard (fst p) (snd p)) (combine cs ref)).

Definition average_relative_error (M N : Z) (cs ref : list float) : float :=
  (fold_left PrimFloat.add (relative_errors cs ref) 0 / double_of_Z (elems M N))%float.

End Validator.

(** ** Observable behaviour

    The run of a program is recorded as the sequence of its calls into the
    accelerator layer and the timer, and of what it prints. *)

Inductive buffer : Type := as_gpu | bs_gpu | cs_gpu | result_gpu.

(** [gpu::WorkSize(groupSizeX, workSizeX)] and
    [gpu::WorkSize(groupSizeX, groupSizeY, workSizeX, workSizeY)]. *)
Record WorkSize : Type := mkWorkSize { groupSize : list Z; workSize : list Z }.

Definition WorkSize1 (gx wx : Z) : WorkSize := mkWorkSize [gx] [wx].
Definition WorkSize2 (gx gy wx wy : Z) : WorkSize := mkWorkSize [gx; gy] [wx; wy].

Inductive event : Type :=
| EvResizeN (b : buffer) (n : Z)          (* b.resizeN(n) *)
| EvWriteN (b : buffer)                   (* b.writeN(host, n): upload *)
| EvReadN (b : buffer)                    (* b.readN(host, n): download *)
| EvCompile (name : string)               (* kernel.compile() *)
| EvExec (name : string) (ws : WorkSize)  (* kernel.exec(ws, ...) *)
| EvTimer                                 (* timer t; *)
| EvNextLap                               (* t.nextLap() *)
| EvCout (msg : string)
| EvStats (label : string) (avg std : float)  (* label: avg+-std s *)
| EvRate (label : string) (rate : float)      (* label: rate GFlops, or millions/s *)
| EvAvgDiff (diff_avg : float)            (* Average difference: diff_avg * 100.0 % *)
| EvExpect (a b : Z)                      (* a call of raiseFail(a, b, ...) *)
| EvCerr (msg : string).

(** How a statement ends: it falls through to the next one, [main] returns a
    status, or an exception leaves [main] (neither program catches one). *)
Inductive halt : Type := Exit (status : Z) | Throw (msg : string).

Inductive flow (A : Type) : Type := Next (a : A) | Stop (h : halt).
Arguments Next {A} a.
Arguments Stop {A} h.

Definition halted {A} (r : flow A) : option halt :=
  match r with Next _ => None | Stop h => Some h end.

Section Prog.

(** The variables the program assigns, and the device memory. *)
Context {S : Type}.

Definition prog (A : Type) : Type := S -> list event * flow A * S.

Definition ret {A} (a : A) : prog A := fun s => ([], Next a, s).

Definition bind {A B} (m : prog A) (f : A -> prog B) : prog B :=
  fun s =>
    match m s with
    | (e1, Next a, s1) => let '(e2, r, s2) := f a s1 in (e1 ++ e2, r, s2)
    | (e1, Stop h, s1) => (e1, Stop h, s1)
    end.

Definition emit (e : event) : prog unit := fun s => ([e], Next tt, s).
Definition get : prog S := fun s => ([], Next s, s).
Definition modify (f : S -> S) : prog unit := fun s => ([], Next tt, f s).
Definition stop {A} (h : halt) : prog A := fun s => ([], Stop h, s).

(** [for (int iter = first; iter < first + count; ++iter) body(iter)]. *)
Fixpoint for_from (first count : nat) (body : nat -> prog unit) : prog unit :=
  match count with
  | O => ret tt
  | Datatypes.S c => bind (body first) (fun _ => for_from (Datatypes.S first) c body)
  end.

Definition for_iters (count : nat) (body : nat -> prog unit) : prog unit :=
  for_from 0 count body.

Definition events {A} (m : prog A) (s : S) : list event := fst (fst (m s)).
Definition result {A} (m : prog A) (s : S) : flow A := snd (fst (m s)).
Definition final {A} (m : prog A) (s : S) : S := snd (m s).

End Prog.

Arguments prog S A : clear implicits.

Declare Scope prog_scope.
Delimit Scope prog_scope with prog.
Notation "x <- m ;; k" := (bind m (fun x => k))
  (at level 61, m at next level, right associativity) : prog_scope.
Notation "m ;; k" := (bind m (fun _ => k))
  (at level 61, right associativity) : prog_scope.

Definition benchmarkingIters : nat := 10.

(** [for (int i = 0; i < n; ++i)]: the indices the loop visits. *)
Definition range (n : Z) : list Z := map Z.of_nat (seq 0 (Z.to_nat n)).

(** ** main_matrix_multiplication.cpp *)

Module MatMul.

(** The three device buffers [as_gpu], [bs_gpu] and [cs_gpu]. *)
Record gpu : Type := mkGpu {
  as_mem : list f32;
  bs_mem : list f32;
  cs_mem : list f32
}.

(** The host vector [cs], which the program overwrites, and the device. *)
Record world : Type := mkWorld {
  cs : list f32;
  dev : gpu
}.

Definition set_cs (v : list f32) (w : world) : world := mkWorld v (dev w).
Definition set_dev (f : gpu -> gpu) (w : world) : world := mkWorld (cs w) (f (dev w)).

(** [v[i]]; the program indexes inside the vectors only. *)
Definition load (v : list f32) (i : Z) : f32 := nth (Z.to_nat i) v f32_zero.

(** [v[i] = x]. *)
Definition store (v : list f32) (i : Z) (x : f32) : list f32 :=
  if Nat.ltb (Z.to_nat i) (List.length v)
  then firstn (Z.to_nat i) v ++ x :: skipn (Datatypes.S (Z.to_nat i)) v
  else v.

Section Program.

(** The dimensions; the program fixes all three to 1024. *)
Variables M K N : Z.

(** [FastRandom] (libutils/fast_random.h): the generator and its
    [nextf()]. *)
Variable rng : Type.
Variable FastRandom : Z -> rng.
Variable nextf : rng -> f32 * rng.

(** What [t.lapAvg()] and [t.lapStd()] return for the timer of the block
    that prints under a label. *)
Variables lapAvg lapStd : string -> float.

(** The device: what a fresh allocation holds, and what the launch of a
    named kernel does to the three buffers. *)
Variable uninit : buffer -> Z -> list f32.
Variable kernel_exec : string -> WorkSize -> Z * Z * Z -> gpu -> gpu.

(** Line 26. *)
Definition gflops : Z :=
  size_t (size_t (size_t (M * K) * N) * 2) / (1000 * 1000 * 1000).

(** Lines 56, 93, 143, 193: [gflops / t.lapAvg()], a [size_t] divided by
    a [double]. *)
Definition rate (lap_avg : float) : float := (double_of_Z gflops / lap_avg)%float.

(** Lines 33-38: [count] draws of [nextf]. *)
Fixpoint fill (count : nat) (r : rng) : list f32 * rng :=
  match count with
  | O => ([], r)
  | Datatypes.S c =>
      let (x, r1) := nextf r in
      let (xs, r2) := fill c r1 in
      (x :: xs, r2)
  end.

Definition as_bs : list f32 * list f32 :=
  let (as_, r1) := fill (Z.to_nat (u32 (M * K))) (FastRandom (u32 (M + K + N))) in
  let (bs_, _) := fill (Z.to_nat (u32 (K * N))) r1 in
  (as_, bs_).

Definition as_ : list f32 := fst as_bs.
Definition bs_ : list f32 := snd as_bs.

(** Lines 46-49: the inner product in a [float] accumulator; the indices are
    computed in [unsigned int]. *)
Definition inner (j i : Z) : f32 :=
  fold_left
    (fun sum k =>
       f32_add sum (f32_mul (load as_ (u32 (j * K + k))) (load bs_ (u32 (k * N + i)))))
    (range K) f32_zero.

(** Lines 44-52. *)
Definition cpu_multiply (c : list f32) : list f32 :=
  fold_left
    (fun c j => fold_left (fun c i => store c (u32 (j * N + i)) (inner j i)) (range N) c)
    (range M) c.

(** [as_gpu.writeN(as.data(), M*K)] and [bs_gpu.writeN(bs.data(), K*N)]. *)
Definition upload (b : buffer) (g : gpu) : gpu :=
  match b with
  | as_gpu => mkGpu as_ (bs_mem g) (cs_mem g)
  | bs_gpu => mkGpu (as_mem g) bs_ (cs_mem g)
  | _ => g
  end.

Definition writeN (b : buffer) : prog world unit :=
  (emit (EvWriteN b);; modify (set_dev (upload b)))%prog.

(** [cs_gpu.readN(cs.data(), M*N)]. *)
Definition readN : prog world unit :=
  (emit (EvReadN cs_gpu);; modify (fun w => set_cs (cs_mem (dev w)) w))%prog.

Definition launch (name : string) (ws : WorkSize) : gpu -> gpu :=
  kernel_exec name ws (M, K, N).

Definition exec (name : string) (ws : WorkSize) : prog world unit :=
  (emit (EvExec name ws);; modify (set_dev (launch name ws)))%prog.

(** Lines 41-57. *)
Definition cpu_block : prog world unit :=
  (emit EvTimer;;
   for_iters benchmarkingIters
     (fun _ => modify (fun w => set_cs (cpu_multiply (cs w)) w);; emit EvNextLap);;
   emit (EvStats "CPU" (lapAvg "CPU") (lapStd "CPU"));;
   emit (EvRate "CPU" (rate (lapAvg "CPU"))))%prog.

(** Lines 97-113, the same in the three blocks. *)
Definition check (cs_cpu_reference : list f32) : prog world unit :=
  (w <- get;;
   let diff_avg :=
     Validator.diff_avg M N (map to_double (cs w)) (map to_double cs_cpu_reference) in
   emit (EvAvgDiff diff_avg);;
   if Validator.too_big diff_avg
   then emit (EvCerr "Too big difference!");; stop (Exit 1)
   else ret tt)%prog.

(** One of the three blocks (lines 66-114, 116-164, 166-214): they differ
    in the kernel name, the label and the work size. *)
Definition variant (name label : string) (ws : WorkSize)
    (cs_cpu_reference : list f32) : prog world unit :=
  (writeN as_gpu;;
   writeN bs_gpu;;
   emit (EvCompile name);;
   emit EvTimer;;
   for_iters benchmarkingIters (fun _ => exec name ws;; emit EvNextLap);;
   emit (EvStats label (lapAvg label) (lapStd label));;
   emit (EvRate label (rate (lapAvg label)));;
   readN;;
   check cs_cpu_reference)%prog.

Definition ws_naive : WorkSize := WorkSize2 16 16 N M.
Definition ws_block : WorkSize := WorkSize2 16 16 N M.
Definition ws_many : WorkSize := WorkSize2 16 (16 / 4) N (M / 4).

(** Lines 61-64: the buffers after the three [resizeN]. *)
Definition allocated : gpu :=
  mkGpu (uninit as_gpu (u32 (M * K))) (uninit bs_gpu (u32 (K * N)))
        (uninit cs_gpu (u32 (M * N))).

(** The device is chosen and its context activated before line 22; line 39
    prints the three dimensions. *)
Definition main : prog world unit :=
  (emit (EvCout "Data generated for M, K, N");;
   cpu_block;;
   w <- get;;
   let cs_cpu_reference := cs w in
   emit (EvResizeN as_gpu (u32 (M * K)));;
   emit (EvResizeN bs_gpu (u32 (K * N)));;
   emit (EvResizeN cs_gpu (u32 (M * N)));;
   modify (set_dev (fun _ => allocated));;
   variant "matrix_multiplication_naive" "GPU naïve" ws_naive cs_cpu_reference;;
   variant "matrix_multiplication_block" "GPU block" ws_block cs_cpu_reference;;
   variant "matrix_multiplication_many" "GPU many" ws_many cs_cpu_reference;;
   stop (Exit 0))%prog.

(** [std::vector<float> cs(M*N, 0)], nothing allocated on the device. *)
Definition start : world :=
  mkWorld (repeat f32_zero (Z.to_nat (u32 (M * N)))) (mkGpu [] [] []).

Definition run : list event * flow unit * world := main start.

Definition trace : list event := fst (fst run).

(** How the process ends. *)
Definition status : flow unit := snd (fst run).

End Program.

(** The constants of the program. *)
Definition M_main : Z := 1024.
Definition K_main : Z := 1024.
Definition N_main : Z := 1024.

(** The throughput as the operation count [2*M*K*N] scaled to GFlops and
    divided by the mean latency, in [double] arithmetic. *)
Definition rate_of_count (M K N : Z) (lap_avg : float) : float :=
  (double_of_Z (2 * M * K * N) / 1000000000 / lap_avg)%float.

End MatMul.

(** ** main_sum.cpp *)

Module Sum.

(** The device buffers [as_gpu] and [result_gpu]. *)
Record gpu : Type := mkGpu {
  as_mem : list Z;
  result_mem : list Z
}.

(** The program assigns no host variable after the data is generated. *)
Definition world : Type := gpu.

(** Sequential accumulation in an [unsigned int], lines 38-41. *)
Definition cpu_sum (as_ : list Z) : Z := fold_left add32 as_ 0.

(** [#pragma omp parallel for reduction(+:sum)], lines 52-56, for a given
    split of the iterations into contiguous chunks, one per thread: every
    thread accumulates its chunk in a private copy that starts at 0, and the
    copies are added to the original [sum]. *)
Definition omp_reduce (chunks : list (list Z)) : Z :=
  fold_left add32 (map cpu_sum chunks) 0.

Definition workGroupSize : Z := 128.

(** Lines 89-90, 164-165, 189-190. *)
Definition global_work_size (n : Z) : Z :=
  u32 (u32 (n + workGroupSize - 1) / workGroupSize * workGroupSize).

(** Lines 114-115, 139-140. *)
Definition global_work_size_loop (n : Z) : Z :=
  u32 (u32 (n / 64 + workGroupSize - 1) / workGroupSize * workGroupSize).

Definition message_cpu : string := "CPU result should be consistent!".
Definition message_omp : string := "CPU OpenMP result should be consistent!".
Definition message_gpu : string := "GPU result must be equal to CPU result!".

Section Program.

(** The element count (the program fixes 100*1000*1000) and the seed (the
    program fixes 42). *)
Variable n : Z.
Variable seed : Z.

(** [FastRandom] (libutils/fast_random.h): the generator and its
    [next(min, max)]. *)
Variable rng : Type.
Variable FastRandom : Z -> rng.
Variable next : rng -> Z -> Z -> Z * rng.

Variables lapAvg lapStd : string -> float.

(** The chunks the OpenMP runtime hands to its threads in a trial. *)
Variable omp_chunks : nat -> list Z -> list (list Z).

(** The device: what a fresh allocation holds, and what the launch of a
    named kernel does to the two buffers. *)
Variable uninit : buffer -> Z -> list Z.
Variable kernel_exec : string -> WorkSize -> Z -> gpu -> gpu.

(** Lines 30-33: [count] values and the reference sum accumulated with
    them. *)
Fixpoint generate (count : nat) (r : rng) (reference_sum : Z) : list Z * Z :=
  match count with
  | O => ([], reference_sum)
  | Datatypes.S c =>
      let (x, r1) := next r 0 (UINT_MAX / n) in
      let a := u32 x in
      let (xs, total) := generate c r1 (add32 reference_sum a) in
      (a :: xs, total)
  end.

Definition generated : list Z * Z := generate (Z.to_nat n) (FastRandom seed) 0.
Definition as_ : list Z := fst generated.
Definition reference_sum : Z := snd generated.

(** Lines 10-17. *)
Definition raiseFail (a b : Z) (message : string) : prog world unit :=
  (emit (EvExpect a b);;
   if negb (a =? b)
   then emit (EvCerr message);; stop (Throw message)
   else ret tt)%prog.

(** The two lines every block prints after its trials. *)
Definition report (label : string) : prog world unit :=
  (emit (EvStats label (lapAvg label) (lapStd label));;
   emit (EvRate label (double_of_Z n / 1000 / 1000 / lapAvg label)))%prog.

(** Lines 35-47. *)
Definition cpu_block : prog world unit :=
  (emit EvTimer;;
   for_iters benchmarkingIters
     (fun _ => raiseFail reference_sum (cpu_sum as_) message_cpu;; emit EvNextLap);;
   report "CPU")%prog.

(** Lines 49-62. *)
Definition omp_block : prog world unit :=
  (emit EvTimer;;
   for_iters benchmarkingIters
     (fun iter =>
        raiseFail reference_sum (omp_reduce (omp_chunks iter as_)) message_omp;;
        emit EvNextLap);;
   report "CPU OMP")%prog.

Definition exec (name : string) (ws : WorkSize) : prog world unit :=
  (emit (EvExec name ws);; modify (kernel_exec name ws n))%prog.

(** One trial of an accelerator variant (lines 84-96 and their copies). *)
Definition trial (name : string) (gws : Z) : prog world unit :=
  (emit (EvWriteN result_gpu);;
   modify (fun w => mkGpu (as_mem w) [0]);;
   exec name (WorkSize1 workGroupSize gws);;
   emit (EvReadN result_gpu);;
   w <- get;;
   let result := nth 0 (result_mem w) 0 in
   raiseFail reference_sum result message_gpu;;
   emit EvNextLap)%prog.

(** One of the five blocks (lines 78-101 and their copies): they differ in
    the kernel name, the label and the global work size. *)
Definition variant (name label : string) (gws : Z) : prog world unit :=
  (emit (EvCompile name);;
   emit EvTimer;;
   for_iters benchmarkingIters (fun _ => trial name gws);;
   report label)%prog.

(** Lines 70-76. *)
Definition setup : prog world unit :=
  (emit (EvResizeN as_gpu n);;
   emit (EvWriteN as_gpu);;
   modify (fun w => mkGpu as_ (result_mem w));;
   emit (EvResizeN result_gpu 1);;
   modify (fun w => mkGpu (as_mem w) (uninit result_gpu 1)))%prog.

(** Lines 78-201. *)
Definition variants : prog world unit :=
  (variant "sum_naive" "GPU naïve" (global_work_size n);;
   variant "sum_loop" "GPU loop" (global_work_size_loop n);;
   variant "sum_loop_coalesced" "GPU loop coalesced" (global_work_size_loop n);;
   variant "sum_local" "GPU local" (global_work_size n);;
   variant "sum_tree" "GPU tree" (global_work_size n))%prog.

(** The device is chosen and its context activated at lines 64-68; falling
    off the end of [main] returns 0. *)
Definition main : prog world unit :=
  (cpu_block;;
   omp_block;;
   setup;;
   variants;;
   stop (Exit 0))%prog.

Definition start : world := mkGpu [] [].

Definition run : list event * flow unit * world := main start.

Definition trace : list event := fst (fst run).

(** How the process ends. *)
Definition status : flow unit := snd (fst run).

End Program.

(** The constants of the program. *)
Definition n_main : Z := 100 * 1000 * 1000.
Definition seed_main : Z := 42.

End Sum.

(** ** Concrete collaborators

    A small generator, timer and device, to run the two programs on. *)

Module Demo.

(** Modelled from the spec: the generator of libutils/fast_random.h is not
    part of the sources; the spec asks for a seeded, reproducible generator
    whose integer draw lies in the closed range it is given. This one is a
    linear congruential generator reduced into the range. *)
Definition rng : Type := Z.
Definition FastRandom (seed : Z) : rng := seed.
Definition step (r : rng) : rng := (r * 1103515245 + 12345) mod 2 ^ 31.
Definition next (r : rng) (lo hi : Z) : Z * rng :=
  (lo + step r mod (hi - lo + 1), step r).

(** Modelled from the spec: [nextf()], a small integer read as a [float]. *)
Definition nextf (r : rng) : f32 * rng :=
  (f32_of_Z (1 + (step r / 65536) mod 4), step r).

(** A generator that replays a given list of numbers. *)
Definition replay (r : list f32) : f32 * list f32 := (hd f32_zero r, tl r).

(** A timer that measured one second per lap, without deviation. *)
Definition lapAvg (label : string) : float := 1%float.
Definition lapStd (label : string) : float := 0%float.

(** Contiguous chunks of [size] iterations. *)
Fixpoint chunks_of (fuel size : nat) (l : list Z) : list (list Z) :=
  match fuel, l with
  | O, _ | _, [] => []
  | Datatypes.S f, _ => firstn (Datatypes.S size) l :: chunks_of f size (skipn (Datatypes.S size) l)
  end.

(** Two iterations per thread. *)
Definition omp_chunks (iter : nat) (l : list Z) : list (list Z) :=
  chunks_of (List.length l) 1 l.

Definition uninit_u32 (b : buffer) (n : Z) : list Z := repeat 0 (Z.to_nat n).
Definition uninit_f32 (b : buffer) (n : Z) : list f32 := repeat f32_zero (Z.to_nat n).

(** A reduction kernel that adds the array to the result cell. *)
Definition sum_kernel (name : string) (ws : WorkSize) (n : Z) (g : Sum.gpu) : Sum.gpu :=
  Sum.mkGpu (Sum.as_mem g)
    [fold_left add32 (firstn (Z.to_nat n) (Sum.as_mem g)) (nth 0 (Sum.result_mem g) 0)].

(** A reduction whose [sum_loop] kernel drops the last element. *)
Definition sum_kernel_short (name : string) (ws : WorkSize) (n : Z) (g : Sum.gpu) : Sum.gpu :=
  if String.eqb name "sum_loop"
  then sum_kernel name ws (n - 1) g
  else sum_kernel name ws n g.

(** A matrix kernel that computes every inner product as the host does. *)
Definition mat_kernel (name : string) (ws : WorkSize) (dims : Z * Z * Z)
    (g : MatMul.gpu) : MatMul.gpu :=
  let '(M, K, N) := dims in
  MatMul.mkGpu (MatMul.as_mem g) (MatMul.bs_mem g)
    (map (fun idx =>
            fold_left
              (fun sum k =>
                 f32_add sum
                   (f32_mul (MatMul.load (MatMul.as_mem g) ((idx / N) * K + k))
                            (MatMul.load (MatMul.bs_mem g) (k * N + idx mod N))))
              (range K) f32_zero)
         (range (M * N))).

(** A matrix kernel whose [block] variant fills the output with NaN. *)
Definition mat_kernel_nan (name : string) (ws : WorkSize) (dims : Z * Z * Z)
    (g : MatMul.gpu) : MatMul.gpu :=
  if String.eqb name "matrix_multiplication_block"
  then MatMul.mkGpu (MatMul.as_mem g) (MatMul.bs_mem g)
         (map (fun _ => S754_nan) (MatMul.cs_mem g))
  else mat_kernel name ws dims g.

(** A matrix kernel whose [naive] variant leaves the output untouched. *)
Definition mat_kernel_idle (name : string) (ws : WorkSize) (dims : Z * Z * Z)
    (g : MatMul.gpu) : MatMul.gpu :=
  if String.eqb name "matrix_multiplication_naive" then g else mat_kernel name ws dims g.

Definition sum_trace (n : Z) kernel : list event :=
  Sum.trace n Sum.seed_main rng FastRandom next lapAvg lapStd omp_chunks uninit_u32 kernel.
Definition sum_status (n : Z) kernel : flow unit :=
  Sum.status n Sum.seed_main rng FastRandom next lapAvg lapStd omp_chunks uninit_u32 kernel.

Definition mat_trace (M K N : Z) kernel : list event :=
  MatMul.trace M K N rng FastRandom nextf lapAvg lapStd uninit_f32 kernel.
Definition mat_status (M K N : Z) kernel : flow unit :=
  MatMul.status M K N rng FastRandom nextf lapAvg lapStd uninit_f32 kernel.

End Demo.

(** The sum of a list of integers, without wrap-around. *)
Definition exact_sum (l : list Z) : Z := fold_right Z.add 0 l.

(** * Properties of runs *)

(** A property of the events a statement emits and of the way it ends. *)
Definition sat {S A : Type} (I : list event -> option halt -> Prop) (m : prog S A) : Prop :=
  forall s, I (events m s) (halted (result m s)).

(** Every emitted event is of a given kind. *)
Definition all_events (P : event -> Prop) (ev : list event) (h : option halt) : Prop :=
  Forall P ev.

(** Every dimension of the global work size is a multiple of the work-group
    size in that dimension. *)
Definition tiles (ws : WorkSize) : Prop :=
  Forall2 (fun g w => 0 < g /\ w mod g = 0) (groupSize ws) (workSize ws).

Definition launch_tiles (e : event) : Prop :=
  match e with
  | EvExec _ ws => tiles ws
  | _ => True
  end.


(** ** Failures

    An event after which the reduction program may go on: no diagnostic, and
    no call of [raiseFail] on different values. *)
Definition quiet (e : event) : Prop :=
  match e with
  | EvExpect a b => a = b
  | EvCerr _ => False
  | _ => True
  end.

(** The reduction program stops with an exception exactly at the first call
    of [raiseFail] on different values, after printing its message. *)
Definition fail_stop (ev : list event) (h : option halt) : Prop :=
  match h with
  | Some (Throw msg) =>
      exists pre a b, ev = pre ++ [EvExpect a b; EvCerr msg] /\ a <> b /\ Forall quiet pre
  | _ => Forall quiet ev
  end.

(** An event after which the matrix program may go on: no diagnostic, and no
    average difference above the tolerance. *)
Definition calm (e : event) : Prop :=
  match e with
  | EvAvgDiff d => Validator.too_big d = false
  | EvCerr _ => False
  | _ => True
  end.

Definition too_big_message : string := "Too big difference!".

(** The matrix program returns 1 exactly at the first average difference
    above the tolerance, after printing the diagnostic. *)
Definition soft_stop (ev : list event) (h : option halt) : Prop :=
  match h with
  | None | Some (Exit 0) => Forall calm ev
  | Some (Exit 1) =>
      exists pre d,
        ev = pre ++ [EvAvgDiff d; EvCerr too_big_message]
        /\ Validator.too_big d = true /\ Forall calm pre
  | Some _ => False
  end.

Definition is_exec (name : string) (e : event) : bool :=
  match e with
  | EvExec name' _ => String.eqb name name'
  | _ => false
  end.

Definition is_cerr (e : event) : bool :=
  match e with
  | EvCerr _ => true
  | _ => false
  end.

(** ** Trials

    The timer delimits the trials: one starts where the timer is created or
    a lap ends, and ends with the next lap. *)

Fixpoint take_while (f : event -> bool) (l : list event) : list event :=
  match l with
  | [] => []
  | e :: l' => if f e then e :: take_while f l' else []
  end.

Definition lap_boundary (e : event) : bool :=
  match e with
  | EvTimer | EvNextLap => true
  | _ => false
  end.

(** What was emitted in the current trial before a launch, and what is
    emitted in it after the launch. *)
Definition since_lap (pre : list event) : list event :=
  rev (take_while (fun e => negb (lap_boundary e)) (rev pre)).

Definition until_lap (post : list event) : list event :=
  take_while (fun e => negb (lap_boundary e)) post.

(** Every launch is preceded in its trial by the upload of the input buffers
    and followed in its trial by the download of the output buffer. *)
Definition bracketed (inputs : list buffer) (output : buffer) (tr : list event) : Prop :=
  forall pre name ws post,
    tr = pre ++ EvExec name ws :: post ->
    (forall b, In b inputs -> In (EvWriteN b) (since_lap pre))
    /\ In (EvReadN output) (until_lap post).

(** [k] trials of a matrix variant. *)
Definition laps (name : string) (ws : WorkSize) (k : nat) : list event :=
  List.concat (repeat [EvExec name ws; EvNextLap] k).

Definition is_compile (e : event) : bool :=
  match e with
  | EvCompile _ => true
  | _ => false
  end.

(** The validator ran: a call of [raiseFail], or a printed average
    difference. *)
Definition is_validation (e : event) : bool :=
  match e with
  | EvExpect _ _ | EvAvgDiff _ => true
  | _ => false
  end.

(** The events of each accelerator variant: from the compilation of its
    kernel to the compilation of the next one. *)
Fixpoint variant_segments (tr : list event) : list (list event) :=
  match tr with
  | [] => []
  | e :: rest =>
      if is_compile e
      then take_while (fun e => negb (is_compile e)) rest :: variant_segments rest
      else variant_segments rest
  end.

Definition validation_count (segment : list event) : nat :=
  List.length (filter is_validation segment).

(** The validator runs exactly once for every variant. *)
Definition validated_once (tr : list event) : Prop :=
  Forall (fun segment => validation_count segment = 1%nat) (variant_segments tr).

(** A property of every event of a run in its context: what was emitted
    before it and what is emitted after it. *)
Definition loc (P : list event -> event -> list event -> Prop)
    (ev : list event) (h : option halt) : Prop :=
  forall pre e post, ev = pre ++ e :: post -> P pre e post.

(** The same, checked event by event along an explicit list. *)
Fixpoint loc_at (P : list event -> event -> list event -> Prop)
    (pre ev : list event) : Prop :=
  match ev with
  | [] => True
  | e :: post => P pre e post /\ loc_at P (pre ++ [e]) post
  end.

(** The property survives when the run is extended on either side. *)
Definition monotone (P : list event -> event -> list event -> Prop) : Prop :=
  forall pre e post l r, P pre e post -> P (l ++ pre) e (post ++ r).

(** The context of a launch in the reduction program: its trial starts with
    the upload of the result cell, which is downloaded and checked right
    after the launch. *)
Definition sum_launch_context (pre : list event) (e : event) (post : list event) : Prop :=
  match e with
  | EvExec _ _ =>
      (exists pre' b, pre = pre' ++ [b; EvWriteN result_gpu] /\ lap_boundary b = true)
      /\ (exists a b post', post = EvReadN result_gpu :: EvExpect a b :: post')
  | _ => True
  end.

(** The context of a launch in the matrix program: it is one of the ten
    launches of its variant, which follow one another after the upload of
    both inputs and are followed by the two report lines and by the
    download. *)
Definition mat_launch_context (pre : list event) (e : event) (post : list event) : Prop :=
  match e with
  | EvExec name ws =>
      exists l1 k j label avg std rate l4,
        pre = l1 ++ [EvWriteN as_gpu; EvWriteN bs_gpu; EvCompile name; EvTimer]
                 ++ laps name ws k
        /\ post = EvNextLap :: laps name ws j
                   ++ [EvStats label avg std; EvRate label rate; EvReadN cs_gpu] ++ l4
        /\ (k + 1 + j = benchmarkingIters)%nat
  | _ => True
  end.

(** The context of a validation in the matrix program: the ten trials of the
    variant, the two report lines and the download come right before it. *)
Definition mat_validation_context (pre : list event) (e : event) (post : list event) : Prop :=
  match e with
  | EvAvgDiff _ =>
      exists l1 name ws label avg std rate,
        pre = l1 ++ [EvCompile name; EvTimer] ++ laps name ws benchmarkingIters
                 ++ [EvStats label avg std; EvRate label rate; EvReadN cs_gpu]
  | _ => True
  end.

(** Events of the host part of the reduction program: no launch, no upload
    of the input array. *)
Definition host_only (e : event) : Prop :=
  match e with
  | EvExec _ _ | EvWriteN as_gpu => False
  | _ => True
  end.

(** Events of the variants of the reduction program: no upload of the input
    array. *)
Definition no_input_upload (e : event) : Prop :=
  match e with
  | EvWriteN as_gpu => False
  | _ => True
  end.

(** Every throughput line of the matrix program prints [gflops] divided by
    the mean lap of its timer. *)
Definition rate_printed (M K N : Z) (lapAvg : string -> float) (e : event) : Prop :=
  match e with
  | EvRate label r => r = MatMul.rate M K N (lapAvg label)
  | _ => True
  end.

(** * The rest of the two programs *)

(** The matrix of the inner products, row by row: what a lap of the host
    multiplication leaves in [cs]. *)
Definition inner_products (M K N : Z) (rng : Type) (FastRandom : Z -> rng)
    (nextf : rng -> f32 * rng) : list f32 :=
  map (fun p => MatMul.inner M K N rng FastRandom nextf (p / N) (p mod N)) (range (M * N)).

(** How many events of a kind a run holds. *)
Definition count (kind : event -> bool) (ev : list event) : nat :=
  List.length (filter kind ev).

Definition is_launch (e : event) : bool :=
  match e with
  | EvExec _ _ => true
  | _ => false
  end.

Definition is_lap (e : event) : bool :=
  match e with
  | EvNextLap => true
  | _ => false
  end.

Definition is_timer (e : event) : bool :=
  match e with
  | EvTimer => true
  | _ => false
  end.

(** A statement that, started in a state of [P], prints [ev], goes on and
    leaves a state of [Q]. *)
Definition proceeds {S A : Type} (P : S -> Prop) (m : prog S A) (ev : list event)
    (Q : S -> Prop) : Prop :=
  forall s, P s -> (exists a, result m s = Next a) /\ events m s = ev /\ Q (final m s).

(** A statement that, started in a state of [P], prints [ev] and ends the
    program with [h]. *)
Definition finishes {S A : Type} (P : S -> Prop) (m : prog S A) (ev : list event)
    (h : halt) : Prop :=
  forall s, P s -> result m s = Stop h /\ events m s = ev.

(** The ways the reduction program can end. *)
Definition sum_ending (ev : list event) (h : option halt) : Prop :=
  match h with
  | None => True
  | Some (Exit status) => status = 0
  | Some (Throw msg) => msg = Sum.message_omp \/ msg = Sum.message_gpu
  end.

(** A statement of the reduction program that prints at most [n] events of
    a kind, and exactly [n] when it goes on; it does not return from
    [main]. *)
Definition bounded {S A : Type} (kind : event -> bool) (n : nat) (m : prog S A) : Prop :=
  forall s,
    (count kind (events m s) <= n)%nat
    /\ match halted (result m s) with
       | None => count kind (events m s) = n
       | Some (Throw _) => True
       | Some (Exit _) => False
       end.

(** The same for the statements up to the end of [main], which return 0 or
    throw. *)
Definition ends {S A : Type} (kind : event -> bool) (n : nat) (m : prog S A) : Prop :=
  forall s,
    (count kind (events m s) <= n)%nat
    /\ match halted (result m s) with
       | Some (Exit status) => status = 0 /\ count kind (events m s) = n
       | Some (Throw _) => True
       | None => False
       end.

(** Of every [c] events of one kind there is one of another. *)
Definition ratio (k1 k2 : event -> bool) (c : nat) (ev : list event) (h : option halt) : Prop :=
  count k1 ev = (c * count k2 ev)%nat.

Definition is_upload (e : event) : bool := match e with EvWriteN _ => true | _ => false end.
Definition is_download (e : event) : bool := match e with EvReadN _ => true | _ => false end.
Definition is_average (e : event) : bool := match e with EvAvgDiff _ => true | _ => false end.

(** An allocator that differs from [uninit] in the contents of the two input
    buffers. *)
Definition blank_inputs (uninit : buffer -> Z -> list f32) (b : buffer) (n : Z) : list f32 :=
  match b with
  | as_gpu | bs_gpu => []
  | _ => uninit b n
  end.

(** What the first validation of a run of the matrix program reads: the
    host's [cs] after the ten laps of the host block, and the output buffer
    after the ten launches of the first kernel on the freshly allocated
    device. *)
Definition host_reference (M K N : Z) (rng : Type) (FastRandom : Z -> rng)
    (nextf : rng -> f32 * rng) : list f32 :=
  Nat.iter benchmarkingIters (MatMul.cpu_multiply M K N rng FastRandom nextf)
    (MatMul.cs (MatMul.start M N)).

Definition first_output (M K N : Z) (rng : Type) (FastRandom : Z -> rng)
    (nextf : rng -> f32 * rng) (uninit : buffer -> Z -> list f32)
    (kernel_exec : string -> WorkSize -> Z * Z * Z -> MatMul.gpu -> MatMul.gpu) : list f32 :=
  MatMul.cs_mem
    (Nat.iter benchmarkingIters
       (MatMul.launch M K N kernel_exec "matrix_multiplication_naive" (MatMul.ws_naive M N))
       (MatMul.mkGpu (MatMul.as_ M K N rng FastRandom nextf)
          (MatMul.bs_ M K N rng FastRandom nextf) (uninit cs_gpu (u32 (M * N))))).

Definition first_average (M K N : Z) (rng : Type) (FastRandom : Z -> rng)
    (nextf : rng -> f32 * rng) (uninit : buffer -> Z -> list f32)
    (kernel_exec : string -> WorkSize -> Z * Z * Z -> MatMul.gpu -> MatMul.gpu) : float :=
  Validator.diff_avg M N
    (map to_double (first_output M K N rng FastRandom nextf uninit kernel_exec))
    (map to_double (host_reference M K N rng FastRandom nextf)).

(** A device whose second kernel writes nothing. *)
Definition block_idle (name : string) (ws : WorkSize) (dims : Z * Z * Z)
    (g : MatMul.gpu) : MatMul.gpu :=
  if String.eqb name "matrix_multiplication_block" then g else Demo.mat_kernel name ws dims g.

(** ** What the validations of a run of the matrix program read

    The device after the ten launches of a variant: both inputs are uploaded
    anew, the output buffer is what the variant before left in it. *)
Definition device_after (M K N : Z) (rng : Type) (FastRandom : Z -> rng)
    (nextf : rng -> f32 * rng)
    (kernel_exec : string -> WorkSize -> Z * Z * Z -> MatMul.gpu -> MatMul.gpu)
    (name : string) (ws : WorkSize) (output : list f32) : MatMul.gpu :=
  Nat.iter benchmarkingIters (MatMul.launch M K N kernel_exec name ws)
    (MatMul.mkGpu (MatMul.as_ M K N rng FastRandom nextf)
       (MatMul.bs_ M K N rng FastRandom nextf) output).

Section MatMulOutcome.

Variables (M K N : Z) (rng : Type) (FastRandom : Z -> rng)
  (nextf : rng -> f32 * rng) (lapAvg lapStd : string -> float)
  (uninit : buffer -> Z -> list f32)
  (kernel_exec : string -> WorkSize -> Z * Z * Z -> MatMul.gpu -> MatMul.gpu).

(** The output the variants download, in the order of the program. *)
Definition naive_output : list f32 :=
  MatMul.cs_mem
    (device_after M K N rng FastRandom nextf kernel_exec "matrix_multiplication_naive"
       (MatMul.ws_naive M N) (uninit cs_gpu (u32 (M * N)))).

Definition block_output : list f32 :=
  MatMul.cs_mem
    (device_after M K N rng FastRandom nextf kernel_exec "matrix_multiplication_block"
       (MatMul.ws_block M N) naive_output).

Definition many_output : list f32 :=
  MatMul.cs_mem
    (device_after M K N rng FastRandom nextf kernel_exec "matrix_multiplication_many"
       (MatMul.ws_many M N) block_output).

(** [diff_avg] of a downloaded output against [cs_cpu_reference]. *)
Definition average_of (output : list f32) : float :=
  Validator.diff_avg M N (map to_double output)
    (map to_double (host_reference M K N rng FastRandom nextf)).

(** What the program prints before the first variant, and what a variant
    prints up to its average difference. *)
Definition host_events : list event :=
  [EvCout "Data generated for M, K, N"; EvTimer]
    ++ repeat EvNextLap benchmarkingIters
    ++ [EvStats "CPU" (lapAvg "CPU") (lapStd "CPU");
        EvRate "CPU" (MatMul.rate M K N (lapAvg "CPU"));
        EvResizeN as_gpu (u32 (M * K)); EvResizeN bs_gpu (u32 (K * N));
        EvResizeN cs_gpu (u32 (M * N))].

Definition variant_events (name label : string) (ws : WorkSize) (d : float) : list event :=
  [EvWriteN as_gpu; EvWriteN bs_gpu; EvCompile name; EvTimer]
    ++ laps name ws benchmarkingIters
    ++ [EvStats label (lapAvg label) (lapStd label);
        EvRate label (MatMul.rate M K N (lapAvg label));
        EvReadN cs_gpu; EvAvgDiff d].

End MatMulOutcome.

(** ** The sums the trials of the reduction program compare *)

Definition is_expect (e : event) : bool :=
  match e with
  | EvExpect _ _ => true
  | _ => false
  end.

Section SumOutcome.

Variables (n seed : Z) (rng : Type) (FastRandom : Z -> rng)
  (next : rng -> Z -> Z -> Z * rng)
  (omp_chunks : nat -> list Z -> list (list Z)) (uninit : buffer -> Z -> list Z)
  (kernel_exec : string -> WorkSize -> Z -> Sum.gpu -> Sum.gpu).

(** Lines 84-91: the device after the launch of a trial that starts on [w]:
    the result cell is overwritten with 0, then the kernel runs. *)
Definition launched (name : string) (gws : Z) (w : Sum.world) : Sum.world :=
  kernel_exec name (WorkSize1 Sum.workGroupSize gws) n (Sum.mkGpu (Sum.as_mem w) [0]).

(** Line 93: the sum a trial downloads. *)
Definition downloaded (w : Sum.world) : Z := nth 0 (Sum.result_mem w) 0.

(** The sums that [count] consecutive trials of a variant download, the
    first trial starting on [w] and each later one on the device the trial
    before left; and the device after them. *)
Fixpoint trial_sums (name : string) (gws : Z) (count : nat) (w : Sum.world) : list Z :=
  match count with
  | O => []
  | Datatypes.S c =>
      downloaded (launched name gws w) :: trial_sums name gws c (launched name gws w)
  end.

Fixpoint after_trials (name : string) (gws : Z) (count : nat) (w : Sum.world) : Sum.world :=
  match count with
  | O => w
  | Datatypes.S c => after_trials name gws c (launched name gws w)
  end.

(** The five variants in the order of the program, with their global work
    sizes. *)
Definition variant_plan : list (string * Z) :=
  [("sum_naive", Sum.global_work_size n);
   ("sum_loop", Sum.global_work_size_loop n);
   ("sum_loop_coalesced", Sum.global_work_size_loop n);
   ("sum_local", Sum.global_work_size n);
   ("sum_tree", Sum.global_work_size n)].

Fixpoint variant_sums (plan : list (string * Z)) (w : Sum.world) : list Z :=
  match plan with
  | [] => []
  | (name, gws) :: rest =>
      trial_sums name gws benchmarkingIters w
        ++ variant_sums rest (after_trials name gws benchmarkingIters w)
  end.

(** The candidate sum of every trial of the program, in the order of the
    program, with the message of its check: the ten sums of the sequential
    block, the ten of the OpenMP block, and the fifty the accelerator trials
    download. *)
Definition candidates : list (Z * string) :=
  repeat (Sum.cpu_sum (Sum.as_ n seed rng FastRandom next), Sum.message_cpu) benchmarkingIters
    ++ map (fun iter =>
              (Sum.omp_reduce (omp_chunks iter (Sum.as_ n seed rng FastRandom next)),
               Sum.message_omp))
         (seq 0 benchmarkingIters)
    ++ map (fun c => (c, Sum.message_gpu))
         (variant_sums variant_plan
            (Sum.mkGpu (Sum.as_ n seed rng FastRandom next) (uninit result_gpu 1))).

End SumOutcome.

(** How many trials pass before the first candidate that differs from the
    reference sum. *)
Fixpoint passed (ref : Z) (cs : list (Z * string)) : nat :=
  match cs with
  | [] => O
  | c :: rest => if ref =? fst c then Datatypes.S (passed ref rest) else O
  end.

(** The call of [raiseFail] on a candidate. *)
Definition comparison (ref : Z) (c : Z * string) : event := EvExpect ref (fst c).

(** A statement that runs trials with the candidates [cs]: it compares the
    candidates up to the first that differs from [ref], closes a lap for each
    trial that passes, and at the first that differs prints the diagnostic
    and throws; when all pass it ends in the [normal] way. *)
Definition checks {S A : Type} (ref : Z) (P : S -> Prop) (m : prog S A)
    (cs : list (Z * string)) (normal : flow A -> S -> Prop) : Prop :=
  forall s, P s ->
    filter is_expect (events m s)
    = map (comparison ref) (firstn (Datatypes.S (passed ref cs)) cs)
    /\ count is_lap (events m s) = passed ref cs
    /\ match nth_error cs (passed ref cs) with
       | None => normal (result m s) (final m s) /\ Forall quiet (events m s)
       | Some c =>
           result m s = Stop (Throw (snd c))
           /\ exists pre,
               events m s = pre ++ [EvExpect ref (fst c); EvCerr (snd c)]
               /\ Forall quiet pre
       end.

Definition goes_on {S A : Type} (Q : S -> Prop) (r : flow A) (s : S) : Prop :=
  (exists a, r = Next a) /\ Q s.

Definition returns_0 {S A : Type} (r : flow A) (s : S) : Prop := r = Stop (Exit 0).
(** * The scenarios of the specification *)

Example cpu_multiply_2x2 :
  MatMul.cpu_multiply 2 2 2 (list f32)
    (fun _ => map f32_of_Z [1; 2; 3; 4; 5; 6; 7; 8]) Demo.replay (repeat f32_zero 4)
  = map f32_of_Z [19; 22; 43; 50].
Proof. vm_compute. reflexivity. Qed.

Example cpu_sum_5 : Sum.cpu_sum [1; 2; 3; 4; 5] = 15.
Proof. reflexivity. Qed.

Example omp_reduce_5 : Sum.omp_reduce [[1; 2]; [3; 4]; [5]] = 15.
Proof. reflexivity. Qed.

Example validator_flags_half :
  Validator.passes 1 1 [1.5%float] [1%float] = false
  /\ Validator.passes 1 1 [1.005%float] [1%float] = true.
Proof. split; vm_compute; reflexivity. Qed.

Example values_below_43 : UINT_MAX / Sum.n_main = 42.
Proof. reflexivity. Qed.

(** * Reasoning about runs

    A property of the events a statement emits and of the way it ends is
    established for the primitive statements and carried through sequencing
    and loops when it is closed under concatenation. *)

Section Sat.

Context {S : Type}.
Variable I : list event -> option halt -> Prop.

Local Notation holds := (sat (S:=S) I).

Hypothesis I_nil : I [] None.
Hypothesis I_app : forall e1 e2 h, I e1 None -> I e2 h -> I (e1 ++ e2) h.

Lemma sat_ret {A} (a : A) : holds (ret a).
Proof. intros s. exact I_nil. Qed.

Lemma sat_get : holds get.
Proof. intros s. exact I_nil. Qed.

Lemma sat_modify (f : S -> S) : holds (modify f).
Proof. intros s. exact I_nil. Qed.

Lemma sat_emit (e : event) : I [e] None -> holds (emit e).
Proof. intros H s. exact H. Qed.

Lemma sat_stop {A} (h : halt) : I [] (Some h) -> holds (@stop S A h).
Proof. intros H s. exact H. Qed.

Lemma sat_bind {A B} (m : prog S A) (f : A -> prog S B) :
  holds m -> (forall a, holds (f a)) -> holds (bind m f).
Proof.
  intros Hm Hf s. specialize (Hm s).
  unfold events, result, bind in *.
  destruct (m s) as [[e1 r1] s1]; cbn in Hm.
  destruct r1 as [a | h]; cbn.
  - specialize (Hf a s1). unfold events, result in Hf.
    destruct (f a s1) as [[e2 r2] s2]; cbn in *.
    apply I_app; assumption.
  - exact Hm.
Qed.

Lemma sat_for_from (body : nat -> prog S unit) :
  (forall i, holds (body i)) ->
  forall count first, holds (for_from first count body).
Proof.
  intros Hb count. induction count as [| c IH]; intros first; cbn [for_from].
  - apply sat_ret.
  - apply sat_bind; [apply Hb | intros _; apply IH].
Qed.

Lemma sat_for_iters (count : nat) (body : nat -> prog S unit) :
  (forall i, holds (body i)) -> holds (for_iters count body).
Proof. intros Hb. apply sat_for_from. exact Hb. Qed.

Lemma sat_if {A} (c : bool) (m1 m2 : prog S A) :
  holds m1 -> holds m2 -> holds (if c then m1 else m2).
Proof. destruct c; auto. Qed.

End Sat.

(** The simplest such property: every emitted event is of a given kind. *)
Section AllEvents.

Variable P : event -> Prop.

Lemma all_events_nil : all_events P [] None.
Proof. constructor. Qed.

Lemma all_events_app e1 e2 h :
  all_events P e1 None -> all_events P e2 h -> all_events P (e1 ++ e2) h.
Proof. unfold all_events. intros. apply Forall_app. split; assumption. Qed.

Lemma all_events_one e h : P e -> all_events P [e] h.
Proof. intros H. constructor; [exact H | constructor]. Qed.

End AllEvents.

(** Steps through a program text, leaving the primitive statements that emit
    an event or stop. *)
Ltac sat_step Hnil Happ :=
  lazymatch goal with
  | |- forall _, _ => intro
  | |- sat _ (for_iters _ _) => apply (sat_for_iters _ Hnil Happ)
  | |- sat _ (bind _ _) => apply (sat_bind _ Happ)
  | |- sat _ (ret _) => apply (sat_ret _ Hnil)
  | |- sat _ get => apply (sat_get _ Hnil)
  | |- sat _ (modify _) => apply (sat_modify _ Hnil)
  | |- sat _ (if _ then _ else _) => apply sat_if
  end.

Ltac sat_steps Hnil Happ := repeat sat_step Hnil Happ.

(** The same, with a lemma for some of the statements. *)
Ltac sat_steps_with atom Hnil Happ := repeat first [ atom | sat_step Hnil Happ ].

(** * Launch geometry *)

Lemma u32_range z : 0 <= u32 z < 2 ^ 32.
Proof. unfold u32. apply Z.mod_pos_bound. reflexivity. Qed.

Lemma u32_small z : 0 <= z < 2 ^ 32 -> u32 z = z.
Proof. intros H. unfold u32. apply Z.mod_small. exact H. Qed.

(** Rounding down to a multiple of the group size stays in range. *)
Lemma round_down_mod x g : 0 < g -> 0 <= x < 2 ^ 32 -> u32 (x / g * g) mod g = 0.
Proof.
  intros Hg Hx.
  assert (0 <= x / g * g <= x).
  { split.
    - apply Z.mul_nonneg_nonneg; [apply Z.div_pos |]; lia.
    - rewrite Z.mul_comm. apply Z.mul_div_le. exact Hg. }
  rewrite u32_small by lia. apply Z_mod_mult.
Qed.

Lemma global_work_size_tiles n : tiles (WorkSize1 Sum.workGroupSize (Sum.global_work_size n)).
Proof.
  constructor; [| constructor]. split; [reflexivity |].
  unfold Sum.global_work_size. apply round_down_mod; [reflexivity | apply u32_range].
Qed.

Lemma global_work_size_loop_tiles n :
  tiles (WorkSize1 Sum.workGroupSize (Sum.global_work_size_loop n)).
Proof.
  constructor; [| constructor]. split; [reflexivity |].
  unfold Sum.global_work_size_loop. apply round_down_mod; [reflexivity | apply u32_range].
Qed.

Section SumGeometry.

Variables (n seed : Z) (rng : Type) (FastRandom : Z -> rng)
  (next : rng -> Z -> Z -> Z * rng) (lapAvg lapStd : string -> float)
  (omp_chunks : nat -> list Z -> list (list Z)) (uninit : buffer -> Z -> list Z)
  (kernel_exec : string -> WorkSize -> Z -> Sum.gpu -> Sum.gpu).

Let I := all_events launch_tiles.
Let Hnil := all_events_nil launch_tiles.
Let Happ := all_events_app launch_tiles.

Local Ltac quiet := apply (sat_emit I), all_events_one; exact Logic.I.

Lemma sum_main_tiles :
  sat I (Sum.main n seed rng FastRandom next lapAvg lapStd omp_chunks uninit kernel_exec).
Proof.
  unfold Sum.main, Sum.cpu_block, Sum.omp_block, Sum.setup, Sum.variants, Sum.variant,
    Sum.trial, Sum.exec, Sum.report, Sum.raiseFail.
  sat_steps Hnil Happ;
    first [ quiet
          | apply sat_stop; constructor
          | apply (sat_emit I), all_events_one;
            first [apply global_work_size_tiles | apply global_work_size_loop_tiles] ].
Qed.

Lemma sum_trace_tiles :
  Forall launch_tiles
    (Sum.trace n seed rng FastRandom next lapAvg lapStd omp_chunks uninit kernel_exec).
Proof. exact (sum_main_tiles Sum.start). Qed.

End SumGeometry.

Section MatMulGeometry.

Variables (M K N : Z) (rng : Type) (FastRandom : Z -> rng)
  (nextf : rng -> f32 * rng) (lapAvg lapStd : string -> float)
  (uninit : buffer -> Z -> list f32)
  (kernel_exec : string -> WorkSize -> Z * Z * Z -> MatMul.gpu -> MatMul.gpu).

Let I := all_events launch_tiles.
Let Hnil := all_events_nil launch_tiles.
Let Happ := all_events_app launch_tiles.

Local Ltac quiet := apply (sat_emit I), all_events_one; exact Logic.I.

Lemma mat_main_tiles :
  tiles (MatMul.ws_naive M N) -> tiles (MatMul.ws_many M N) ->
  sat I (MatMul.main M K N rng FastRandom nextf lapAvg lapStd uninit kernel_exec).
Proof.
  intros H1 H2.
  unfold MatMul.main, MatMul.cpu_block, MatMul.variant, MatMul.check, MatMul.exec,
    MatMul.readN, MatMul.writeN.
  sat_steps Hnil Happ;
    first [ quiet
          | apply sat_stop; constructor
          | apply (sat_emit I), all_events_one; assumption ].
Qed.

Lemma mat_trace_tiles :
  tiles (MatMul.ws_naive M N) -> tiles (MatMul.ws_many M N) ->
  Forall launch_tiles
    (MatMul.trace M K N rng FastRandom nextf lapAvg lapStd uninit kernel_exec).
Proof. intros H1 H2. exact (mat_main_tiles H1 H2 (MatMul.start M N)). Qed.

End MatMulGeometry.

(** C9: in both programs every kernel launch, whatever the collaborators do,
    has a global work size that is in each dimension an exact multiple of the
    work-group size: the sum variants round [n], or [n / 64], up to the next
    multiple of 128, and with M = K = N = 1024 the matrix variants launch
    N x M over 16 x 16 groups, or N x M/4 over 16 x 4 groups. *)
Theorem launch_geometry_tiles :
  tiles (MatMul.ws_naive MatMul.M_main MatMul.N_main)
  /\ tiles (MatMul.ws_block MatMul.M_main MatMul.N_main)
  /\ tiles (MatMul.ws_many MatMul.M_main MatMul.N_main)
  /\ (forall n, tiles (WorkSize1 Sum.workGroupSize (Sum.global_work_size n)))
  /\ (forall n, tiles (WorkSize1 Sum.workGroupSize (Sum.global_work_size_loop n)))
  /\ (forall seed rng FastRandom next lapAvg lapStd omp_chunks uninit kernel_exec,
      Forall launch_tiles
        (Sum.trace Sum.n_main seed rng FastRandom next lapAvg lapStd omp_chunks uninit
           kernel_exec))
  /\ (forall rng FastRandom nextf lapAvg lapStd uninit kernel_exec,
      Forall launch_tiles
        (MatMul.trace MatMul.M_main MatMul.K_main MatMul.N_main rng FastRandom nextf
           lapAvg lapStd uninit kernel_exec))
  /\ (Sum.n_main <= Sum.global_work_size Sum.n_main < Sum.n_main + Sum.workGroupSize)
  /\ (Sum.n_main / 64 <= Sum.global_work_size_loop Sum.n_main
      < Sum.n_main / 64 + Sum.workGroupSize).
Proof.
  split; [repeat constructor |]. split; [repeat constructor |].
  split; [repeat constructor |].
  split; [exact global_work_size_tiles |]. split; [exact global_work_size_loop_tiles |].
  split; [| split; [| split]].
  - intros. apply sum_trace_tiles.
  - intros. apply mat_trace_tiles; repeat constructor.
  - vm_compute. split; [discriminate | reflexivity].
  - vm_compute. split; [discriminate | reflexivity].
Qed.

(** * The reduction: accumulation modulo 2^32 *)

Lemma exact_sum_cons (a : Z) (l : list Z) : exact_sum (a :: l) = a + exact_sum l.
Proof. reflexivity. Qed.

Lemma fold_add32 (l : list Z) (acc : Z) :
  0 <= acc < 2 ^ 32 -> fold_left add32 l acc = u32 (acc + exact_sum l).
Proof.
  revert acc. induction l as [| a l IH]; intros acc Hacc; cbn [fold_left].
  - cbn [exact_sum fold_right]. rewrite Z.add_0_r. symmetry. apply u32_small. exact Hacc.
  - rewrite IH by apply u32_range. rewrite exact_sum_cons.
    unfold add32, u32. rewrite Zplus_mod_idemp_l. f_equal. lia.
Qed.

Lemma cpu_sum_exact (l : list Z) : Sum.cpu_sum l = u32 (exact_sum l).
Proof. unfold Sum.cpu_sum. rewrite fold_add32 by (split; [lia | reflexivity]). reflexivity. Qed.

Lemma exact_sum_app (l1 l2 : list Z) : exact_sum (l1 ++ l2) = exact_sum l1 + exact_sum l2.
Proof.
  induction l1 as [| a l1 IH]; cbn [app]; [reflexivity |].
  rewrite !exact_sum_cons, IH. lia.
Qed.

(** The partial sums of the chunks add up, modulo 2^32, to the sum of the
    whole array. *)
Lemma partial_sums_exact (chunks : list (list Z)) :
  u32 (exact_sum (map Sum.cpu_sum chunks)) = u32 (exact_sum (List.concat chunks)).
Proof.
  induction chunks as [| c chunks IH]; cbn [map List.concat]; [reflexivity |].
  rewrite exact_sum_cons, exact_sum_app, cpu_sum_exact. unfold u32 in *.
  rewrite Zplus_mod_idemp_l.
  rewrite <- Zplus_mod_idemp_r, IH, Zplus_mod_idemp_r. reflexivity.
Qed.

Lemma exact_sum_perm (l1 l2 : list Z) : Permutation l1 l2 -> exact_sum l1 = exact_sum l2.
Proof. induction 1; rewrite ?exact_sum_cons; lia. Qed.

(** Neither does it matter which iterations a thread is given. *)
Lemma omp_reduce_any_schedule (chunks : list (list Z)) (l : list Z) :
  Permutation (List.concat chunks) l -> Sum.omp_reduce chunks = Sum.cpu_sum l.
Proof.
  intros Hp. unfold Sum.omp_reduce.
  rewrite fold_add32 by (split; [lia | reflexivity]). cbn [Z.add].
  rewrite partial_sums_exact, (exact_sum_perm _ _ Hp), cpu_sum_exact. reflexivity.
Qed.

(** The order in which the threads' copies are combined does not matter. *)
Lemma combine_any_order (chunks : list (list Z)) (partials : list Z) :
  Permutation partials (map Sum.cpu_sum chunks) ->
  fold_left add32 partials 0 = Sum.cpu_sum (List.concat chunks).
Proof.
  intros Hp. rewrite fold_add32 by (split; [lia | reflexivity]).
  rewrite (exact_sum_perm _ _ Hp). cbn [Z.add].
  rewrite partial_sums_exact, cpu_sum_exact. reflexivity.
Qed.

Section Generation.

Variables (n : Z) (rng : Type) (next : rng -> Z -> Z -> Z * rng).

(** The accumulator of the generation loop is the sequential sum of what
    the loop stored, whatever the generator draws. *)
Lemma generate_total count r acc :
  snd (Sum.generate n rng next count r acc)
  = fold_left add32 (fst (Sum.generate n rng next count r acc)) acc.
Proof.
  revert r acc. induction count as [| c IH]; intros r acc; cbn [Sum.generate]; [reflexivity |].
  destruct (next r 0 (UINT_MAX / n)) as [x r1].
  specialize (IH r1 (add32 acc (u32 x))).
  destruct (Sum.generate n rng next c r1 (add32 acc (u32 x))) as [xs total].
  cbn [fst snd fold_left] in *. exact IH.
Qed.

Lemma generate_length count r acc :
  List.length (fst (Sum.generate n rng next count r acc)) = count.
Proof.
  revert r acc. induction count as [| c IH]; intros r acc; cbn [Sum.generate]; [reflexivity |].
  destruct (next r 0 (UINT_MAX / n)) as [x r1].
  specialize (IH r1 (add32 acc (u32 x))).
  destruct (Sum.generate n rng next c r1 (add32 acc (u32 x))) as [xs total].
  cbn [fst List.length] in *. congruence.
Qed.

Hypothesis n_pos : 0 < n.

(** Modelled from the spec: a draw lies in the closed range it is given. *)
Hypothesis next_range : forall r lo hi, lo <= hi -> lo <= fst (next r lo hi) <= hi.

Lemma bound_nonneg : 0 <= UINT_MAX / n.
Proof. apply Z.div_pos; [discriminate | exact n_pos]. Qed.

Lemma bound_le : UINT_MAX / n <= UINT_MAX.
Proof. apply Z.div_le_upper_bound; [exact n_pos |]. unfold UINT_MAX. nia. Qed.

Lemma generate_bounded count r acc :
  Forall (fun a => 0 <= a <= UINT_MAX / n) (fst (Sum.generate n rng next count r acc)).
Proof.
  revert r acc. induction count as [| c IH]; intros r acc; cbn [Sum.generate]; [constructor |].
  pose proof (next_range r 0 (UINT_MAX / n) bound_nonneg) as Hx.
  destruct (next r 0 (UINT_MAX / n)) as [x r1]. cbn [fst] in Hx.
  specialize (IH r1 (add32 acc (u32 x))).
  destruct (Sum.generate n rng next c r1 (add32 acc (u32 x))) as [xs total].
  cbn [fst] in *. constructor; [| exact IH].
  pose proof bound_le. rewrite u32_small; [exact Hx |]. unfold UINT_MAX in *. lia.
Qed.

Lemma exact_sum_bounded (l : list Z) (b : Z) :
  Forall (fun a => 0 <= a <= b) l -> 0 <= exact_sum l <= Z.of_nat (List.length l) * b.
Proof.
  induction 1 as [| a l Ha Hl IH]; [cbn; lia |].
  rewrite exact_sum_cons. cbn [List.length]. rewrite Nat2Z.inj_succ. nia.
Qed.

End Generation.

Lemma demo_next_range (r lo hi : Z) : lo <= hi -> lo <= fst (Demo.next r lo hi) <= hi.
Proof.
  intros H. unfold Demo.next. cbn [fst].
  pose proof (Z.mod_pos_bound (Demo.step r) (hi - lo + 1)). lia.
Qed.

(** C6: with a generator whose draw lies in the range it is given, and for
    every seed and every positive element count [n], the [n] generated values
    lie in [0, UINT_MAX / n], their sum is at most [UINT_MAX], and the
    reference sum accumulated modulo 2^32, like the sequential sum, is that
    exact sum. *)
Theorem generated_sum_exact (n seed : Z) (rng : Type) (FastRandom : Z -> rng)
    (next : rng -> Z -> Z -> Z * rng) :
  0 < n ->
  (forall r lo hi, lo <= hi -> lo <= fst (next r lo hi) <= hi) ->
  List.length (Sum.as_ n seed rng FastRandom next) = Z.to_nat n
  /\ Forall (fun a => 0 <= a <= UINT_MAX / n) (Sum.as_ n seed rng FastRandom next)
  /\ exact_sum (Sum.as_ n seed rng FastRandom next) <= UINT_MAX
  /\ Sum.reference_sum n seed rng FastRandom next
     = exact_sum (Sum.as_ n seed rng FastRandom next)
  /\ Sum.cpu_sum (Sum.as_ n seed rng FastRandom next)
     = exact_sum (Sum.as_ n seed rng FastRandom next).
Proof.
  intros Hn Hnext. unfold Sum.reference_sum, Sum.as_, Sum.generated.
  set (g := Sum.generate n rng next (Z.to_nat n) (FastRandom seed) 0).
  assert (Hlen : List.length (fst g) = Z.to_nat n) by apply generate_length.
  assert (Hall : Forall (fun a => 0 <= a <= UINT_MAX / n) (fst g))
    by (apply generate_bounded; assumption).
  assert (Hsum : 0 <= exact_sum (fst g) <= UINT_MAX).
  { pose proof (exact_sum_bounded _ _ Hall) as Hb. rewrite Hlen, Z2Nat.id in Hb by lia.
    pose proof (Z.mul_div_le UINT_MAX n Hn). lia. }
  assert (Hcpu : Sum.cpu_sum (fst g) = exact_sum (fst g)).
  { rewrite cpu_sum_exact. apply u32_small. unfold UINT_MAX in Hsum. lia. }
  repeat split; try assumption; try lia.
  unfold g. rewrite generate_total. exact Hcpu.
Qed.

(** The theorem on five elements drawn by the linear congruential
    generator. *)
Lemma generated_sum_exact_witness :
  List.length (Sum.as_ 5 42 Demo.rng Demo.FastRandom Demo.next) = Z.to_nat 5
  /\ Forall (fun a => 0 <= a <= UINT_MAX / 5) (Sum.as_ 5 42 Demo.rng Demo.FastRandom Demo.next)
  /\ exact_sum (Sum.as_ 5 42 Demo.rng Demo.FastRandom Demo.next) <= UINT_MAX
  /\ Sum.reference_sum 5 42 Demo.rng Demo.FastRandom Demo.next
     = exact_sum (Sum.as_ 5 42 Demo.rng Demo.FastRandom Demo.next)
  /\ Sum.cpu_sum (Sum.as_ 5 42 Demo.rng Demo.FastRandom Demo.next)
     = exact_sum (Sum.as_ 5 42 Demo.rng Demo.FastRandom Demo.next).
Proof.
  apply (generated_sum_exact 5 42 Demo.rng Demo.FastRandom Demo.next).
  - lia.
  - exact demo_next_range.
Defined.

(** C7: for every array and every split of it into contiguous chunks, the
    host-parallel reduction returns what the sequential accumulation returns
    on the whole array; and the sequential accumulation of the generated
    array is the reference sum computed at generation time. *)
Theorem omp_reduce_sequential :
  (forall chunks : list (list Z),
      Sum.omp_reduce chunks = Sum.cpu_sum (List.concat chunks))
  /\ (forall n seed rng FastRandom next,
      Sum.cpu_sum (Sum.as_ n seed rng FastRandom next)
      = Sum.reference_sum n seed rng FastRandom next).
Proof.
  split.
  - intros chunks. unfold Sum.omp_reduce. apply combine_any_order. apply Permutation_refl.
  - intros. unfold Sum.reference_sum, Sum.as_, Sum.generated.
    rewrite generate_total. reflexivity.
Qed.

(** * Throughput of the matrix program *)

Section MatMulRate.

Variables (M K N : Z) (rng : Type) (FastRandom : Z -> rng)
  (nextf : rng -> f32 * rng) (lapAvg lapStd : string -> float)
  (uninit : buffer -> Z -> list f32)
  (kernel_exec : string -> WorkSize -> Z * Z * Z -> MatMul.gpu -> MatMul.gpu).

Let rate_printed := rate_printed M K N lapAvg.

Let I := all_events rate_printed.
Let Hnil := all_events_nil rate_printed.
Let Happ := all_events_app rate_printed.

Lemma mat_trace_rate :
  Forall rate_printed
    (MatMul.trace M K N rng FastRandom nextf lapAvg lapStd uninit kernel_exec).
Proof.
  assert (H : sat I (MatMul.main M K N rng FastRandom nextf lapAvg lapStd uninit kernel_exec)).
  { unfold MatMul.main, MatMul.cpu_block, MatMul.variant, MatMul.check, MatMul.exec,
      MatMul.readN, MatMul.writeN.
    sat_steps Hnil Happ;
      first [ apply sat_stop; constructor
            | apply (sat_emit I), all_events_one; exact Logic.I || reflexivity ]. }
  exact (H (MatMul.start M N)).
Qed.

End MatMulRate.

(** C8: the program divides the operation count by 10^9 in [size_t], so with
    M = K = N = 1024 the count 2147483648 becomes 2, and every throughput it
    prints is 2 divided by the mean latency; over a mean latency of one second
    it prints 2 where the operation count scaled to GFlops is 2.147483648. *)
Theorem gflops_truncated :
  MatMul.gflops MatMul.M_main MatMul.K_main MatMul.N_main = 2
  /\ 2 * MatMul.M_main * MatMul.K_main * MatMul.N_main = 2147483648
  /\ MatMul.rate MatMul.M_main MatMul.K_main MatMul.N_main 1 = 2%float
  /\ MatMul.rate_of_count MatMul.M_main MatMul.K_main MatMul.N_main 1 = 2.147483648%float
  /\ (forall rng FastRandom nextf lapAvg lapStd uninit kernel_exec,
      Forall (fun e => match e with
                       | EvRate label r => r = (2 / lapAvg label)%float
                       | _ => True
                       end)
        (MatMul.trace MatMul.M_main MatMul.K_main MatMul.N_main rng FastRandom nextf
           lapAvg lapStd uninit kernel_exec)).
Proof.
  split; [reflexivity |]. split; [reflexivity |].
  split; [vm_compute; reflexivity |]. split; [vm_compute; reflexivity |].
  intros. eapply Forall_impl; [| apply mat_trace_rate].
  intros e He. destruct e; try exact Logic.I. exact He.
Qed.

(** * Binary64 arithmetic through its specification *)

Lemma SFcompare_antisym (x y : spec_float) :
  SFcompare y x = option_map CompOpp (SFcompare x y).
Proof.
  destruct x as [sx | sx | | sx mx ex], y as [sy | sy | | sy my ey]; cbn;
    try reflexivity;
    try (destruct sx; reflexivity); try (destruct sy; reflexivity);
    try (destruct sx, sy; reflexivity).
  destruct sx, sy; cbn; try reflexivity; f_equal;
    rewrite (Z.compare_antisym ex ey); destruct (ex ?= ey); cbn; try reflexivity;
    rewrite (Pos.compare_cont_antisym mx my Eq); cbn [CompOpp];
    destruct (Pos.compare_cont Eq mx my); reflexivity.
Qed.

Lemma SFcompare_refl (x : spec_float) :
  SFcompare x x = match x with S754_nan => None | _ => Some Eq end.
Proof.
  destruct x as [s | s | | s m e]; cbn; try reflexivity; try (destruct s; reflexivity).
  f_equal. rewrite Z.compare_refl, Pos.compare_cont_refl. destruct s; reflexivity.
Qed.

Lemma SFltb_irrefl (x : spec_float) : SFltb x x = false.
Proof. unfold SFltb. rewrite SFcompare_refl. destruct x; reflexivity. Qed.

(** The test [!(c < d)] accepts what [d <= c] accepts, and a NaN. *)
Lemma SF_not_ltb (c d : spec_float) :
  c <> S754_nan ->
  negb (SFltb c d) = SFleb d c || negb (SFeqb d d).
Proof.
  intros Hc. unfold SFltb, SFleb, SFeqb.
  rewrite (SFcompare_antisym d c), (SFcompare_refl d).
  destruct d as [s | s | | s m e], c as [sc | sc | | sc mc ec]; try congruence; cbn;
    try reflexivity;
    try (destruct s; reflexivity); try (destruct sc; reflexivity);
    try (destruct s, sc; reflexivity).
  destruct s, sc; cbn; try reflexivity;
    destruct (e ?= ec); cbn; try reflexivity;
    destruct (Pos.compare_cont Eq m mc); reflexivity.
Qed.

Lemma Prim2SF_zero : Prim2SF 0 = S754_zero false.
Proof. reflexivity. Qed.

Lemma Prim2SF_infinity : Prim2SF infinity = S754_infinity false.
Proof. reflexivity. Qed.

Lemma is_nan_spec (x : float) : is_nan x = negb (SFeqb (Prim2SF x) (Prim2SF x)).
Proof. unfold is_nan. rewrite eqb_spec. reflexivity. Qed.

Lemma std_max_spec (x y : float) :
  Prim2SF (std_max x y)
  = if SFltb (Prim2SF x) (Prim2SF y) then Prim2SF y else Prim2SF x.
Proof. unfold std_max. rewrite ltb_spec. destruct (SFltb _ _); reflexivity. Qed.

Lemma float_not_ltb (d : float) :
  negb (0.01 <? d)%float = ((d <=? 0.01)%float || is_nan d).
Proof.
  rewrite ltb_spec, leb_spec, is_nan_spec. apply SF_not_ltb. discriminate.
Qed.

(** Under the guard the divisor is not a zero, unless the reference is NaN. *)
Lemma divisor_nonzero (a b : float) :
  Validator.guard a b = true -> is_nan b = false ->
  (Validator.divisor a b =? 0)%float = false.
Proof.
  unfold Validator.guard, Validator.divisor, fneq.
  rewrite is_nan_spec, !eqb_spec, std_max_spec, !abs_spec, Prim2SF_zero.
  destruct (Prim2SF a) as [sa | sa | | sa ma ea], (Prim2SF b) as [sb | sb | | sb mb eb];
    cbn; intros Hg Hn; try discriminate; try reflexivity.
  all: unfold SFltb, SFeqb; cbn;
    repeat match goal with
           | |- context [match ?c with Eq => _ | Lt => _ | Gt => _ end] => destruct c; cbn
           end; reflexivity.
Qed.

(** The relative error of a finite nonzero number against itself is [+0]. *)
Lemma rel_diff_same (a : float) :
  is_finite a = true -> (a =? 0)%float = false -> Validator.rel_diff a a = 0%float.
Proof.
  unfold is_finite, is_infinity. rewrite is_nan_spec, !eqb_spec, abs_spec.
  rewrite Prim2SF_zero, Prim2SF_infinity. intros Hf Hz.
  apply Prim2SF_inj. unfold Validator.rel_diff, Validator.divisor.
  rewrite div_spec, std_max_spec, !abs_spec, sub_spec, SFltb_irrefl, Prim2SF_zero.
  destruct (Prim2SF a) as [[] | [] | | s m e]; cbn in Hf, Hz; try discriminate.
  unfold SF64div, SF64sub, SFsub. rewrite Z.sub_diag. reflexivity.
Qed.

Lemma zero_div_pos (y : float) : (0 <? y)%float = true -> (0 / y)%float = 0%float.
Proof.
  rewrite ltb_spec, Prim2SF_zero. intros H. apply Prim2SF_inj.
  rewrite div_spec, Prim2SF_zero.
  destruct (Prim2SF y) as [s | s | | s m e]; cbn in H; try discriminate;
    destruct s; try discriminate; reflexivity.
Qed.

(** Rounding a mantissa that already has the precision of the format keeps
    it. *)
Lemma round_exact (sx : bool) (m : positive) (e : Z) :
  fexp prec emax (Zpos (digits2_pos m) + e) = e ->
  binary_round_aux prec emax sx (Zpos m) e loc_Exact
  = if e <=? emax - prec then S754_finite sx m e else S754_infinity sx.
Proof.
  intros H. unfold binary_round_aux, shr_fexp. cbn [Zdigits2 shr_record_of_loc].
  rewrite H, Z.sub_diag.
  cbn [shr shr_m loc_of_shr_record round_nearest_even Zdigits2 shr_record_of_loc].
  rewrite H, Z.sub_diag. cbn [shr shr_m]. reflexivity.
Qed.

Lemma digits2_iter (p k : positive) :
  digits2_pos (Pos.iter xO p k) = (digits2_pos p + k)%positive.
Proof.
  induction k as [| k IH] using Pos.peano_ind.
  - cbn. rewrite Pos.add_1_r. reflexivity.
  - rewrite Pos.iter_succ. cbn [digits2_pos]. rewrite IH, Pos.add_succ_r. reflexivity.
Qed.

Lemma digits2_lower (p : positive) : 2 ^ (Zpos (digits2_pos p) - 1) <= Zpos p.
Proof.
  induction p as [p IH | p IH |]; cbn [digits2_pos].
  - rewrite Pos2Z.inj_succ.
    replace (Z.succ (Zpos (digits2_pos p)) - 1) with (Z.succ (Zpos (digits2_pos p) - 1))
      by lia.
    rewrite Z.pow_succ_r by lia. lia.
  - rewrite Pos2Z.inj_succ.
    replace (Z.succ (Zpos (digits2_pos p)) - 1) with (Z.succ (Zpos (digits2_pos p) - 1))
      by lia.
    rewrite Z.pow_succ_r by lia. lia.
  - cbn. lia.
Qed.

Lemma digits2_upper (p : positive) : Zpos p < 2 ^ 32 -> Zpos (digits2_pos p) <= 32.
Proof.
  intros H. pose proof (digits2_lower p) as L.
  destruct (Z_le_gt_dec (Zpos (digits2_pos p)) 32) as [Hle | Hgt]; [exact Hle |].
  exfalso.
  assert (2 ^ 32 <= 2 ^ (Zpos (digits2_pos p) - 1)) by (apply Z.pow_le_mono_r; lia).
  lia.
Qed.

Lemma normalize_pos (z : Z) :
  0 < z < 2 ^ 32 ->
  SFltb (S754_zero false) (binary_normalize prec emax z 0 false) = true.
Proof.
  intros [Hpos Hlt]. destruct z as [| p | p]; try lia.
  cbn [binary_normalize]. unfold binary_round.
  pose proof (digits2_upper p Hlt) as Hd.
  assert (Hf : fexp prec emax (Zpos (digits2_pos p) + 0) = Zpos (digits2_pos p) - 53).
  { unfold fexp, SpecFloat.emin, prec, emax. lia. }
  rewrite Hf. unfold shl_align.
  destruct (Zpos (digits2_pos p) - 53 - 0) as [| k | k] eqn:Hk; try lia.
  rewrite round_exact.
  - destruct (_ <=? _); reflexivity.
  - rewrite digits2_iter. unfold fexp, SpecFloat.emin, prec, emax. lia.
Qed.

(** A positive [unsigned int] converts to a positive [double]. *)
Lemma double_of_Z_pos (z : Z) :
  0 < z < 2 ^ 32 -> (0 <? double_of_Z z)%float = true.
Proof.
  intros H. unfold double_of_Z. rewrite ltb_spec, of_uint63_spec, Uint63.of_Z_spec.
  rewrite Z.mod_small.
  - change (Prim2SF 0) with (S754_zero false). apply normalize_pos. exact H.
  - change Uint63.wB with (2 ^ 63). lia.
Qed.

(** * The matrix validator *)

Lemma diff_step_shift (x y : float) (cs ref : list float) (n s : nat) (acc : float) :
  fold_left (Validator.diff_step (x :: cs) (y :: ref)) (seq (Datatypes.S s) n) acc
  = fold_left (Validator.diff_step cs ref) (seq s n) acc.
Proof.
  revert s acc. induction n as [| n IH]; intros s acc; cbn [seq fold_left]; [reflexivity |].
  rewrite IH. reflexivity.
Qed.

(** The loop over the indices computes the sum of the relative errors of the
    guarded elements, in index order. *)
Lemma diff_sum_loop_refines (cs ref : list float) (acc : float) :
  List.length cs = List.length ref ->
  fold_left (Validator.diff_step cs ref) (seq 0 (List.length cs)) acc
  = fold_left PrimFloat.add (Validator.relative_errors cs ref) acc.
Proof.
  revert ref acc. induction cs as [| x cs IH]; intros [| y ref] acc Hlen;
    try discriminate; [reflexivity |].
  cbn [List.length seq fold_left]. rewrite diff_step_shift.
  injection Hlen as Hlen. rewrite (IH ref _ Hlen).
  unfold Validator.relative_errors, Validator.diff_step. cbn [nth combine filter fst snd].
  destruct (Validator.guard x y); reflexivity.
Qed.

Lemma diff_avg_refines (M N : Z) (cs ref : list float) :
  List.length cs = Z.to_nat (Validator.elems M N) ->
  List.length ref = Z.to_nat (Validator.elems M N) ->
  Validator.diff_avg M N cs ref = Validator.average_relative_error M N cs ref.
Proof.
  intros Hcs Href. unfold Validator.diff_avg, Validator.average_relative_error, Validator.diff_sum.
  rewrite <- Hcs, diff_sum_loop_refines by congruence. reflexivity.
Qed.

(** The program goes on exactly when the average is at most 0.01 or is not a
    number. *)
Lemma passes_spec (M N : Z) (cs ref : list float) :
  Validator.passes M N cs ref
  = ((Validator.diff_avg M N cs ref <=? 0.01)%float || is_nan (Validator.diff_avg M N cs ref)).
Proof. unfold Validator.passes, Validator.too_big. apply float_not_ltb. Qed.

Lemma nth_finite (ref : list float) (i : nat) :
  Forall (fun x => is_finite x = true) ref -> is_finite (nth i ref 0%float) = true.
Proof.
  intros H. revert i. induction H as [| x l Hx Hl IH]; intros [| i]; cbn [nth];
    try reflexivity; [exact Hx | apply IH].
Qed.

Lemma diff_step_same (ref : list float) (i : nat) :
  Forall (fun x => is_finite x = true) ref ->
  Validator.diff_step ref ref 0 i = 0%float.
Proof.
  intros H. unfold Validator.diff_step.
  pose proof (nth_finite ref i H) as Hf.
  destruct (Validator.guard (nth i ref 0%float) (nth i ref 0%float)) eqn:Hg; [| reflexivity].
  rewrite rel_diff_same; [reflexivity | exact Hf |].
  unfold Validator.guard, fneq in Hg.
  destruct (nth i ref 0 =? 0)%float; [discriminate | reflexivity].
Qed.

Lemma diff_sum_same (M N : Z) (ref : list float) :
  Forall (fun x => is_finite x = true) ref -> Validator.diff_sum M N ref ref = 0%float.
Proof.
  intros H. unfold Validator.diff_sum.
  induction (seq 0 (Z.to_nat (Validator.elems M N))) as [| i l IH]; cbn [fold_left];
    [reflexivity |].
  rewrite diff_step_same by exact H. exact IH.
Qed.

Lemma diff_avg_same (M N : Z) (ref : list float) :
  Forall (fun x => is_finite x = true) ref ->
  0 < Validator.elems M N ->
  Validator.diff_avg M N ref ref = 0%float /\ Validator.passes M N ref ref = true.
Proof.
  intros H Hc.
  assert (E : Validator.diff_avg M N ref ref = 0%float).
  { unfold Validator.diff_avg. rewrite diff_sum_same by exact H.
    apply zero_div_pos, double_of_Z_pos. split; [exact Hc | apply u32_range]. }
  split; [exact E |]. unfold Validator.passes. rewrite E. reflexivity.
Qed.

(** C3: the validator sums [|a-b| / max(|a|,|b|)] over the elements where the
    candidate or the reference is nonzero and divides by M*N, but a variant
    passes when the average is not greater than 0.01, which a NaN average is:
    a candidate [NaN] against the reference [1] has a NaN average, is not
    [<= 0.01], and passes; the run of the program whose second kernel fills
    the output with NaN reports no failure and ends with status 0. *)
Theorem validator_accepts_nan :
  is_nan (Validator.diff_avg 1 1 [nan] [1%float]) = true
  /\ (Validator.diff_avg 1 1 [nan] [1%float] <=? 0.01)%float = false
  /\ Validator.diff_avg 1 1 [nan] [1%float]
     = Validator.average_relative_error 1 1 [nan] [1%float]
  /\ Validator.passes 1 1 [nan] [1%float] = true
  /\ existsb (is_exec "matrix_multiplication_block")
        (Demo.mat_trace 2 2 2 Demo.mat_kernel_nan) = true
  /\ existsb is_cerr (Demo.mat_trace 2 2 2 Demo.mat_kernel_nan) = false
  /\ Demo.mat_status 2 2 2 Demo.mat_kernel_nan = Stop (Exit 0).
Proof. repeat split; vm_compute; reflexivity. Qed.

(** * Failures *)

Lemma halted_stop {A} (r : flow A) (h : halt) : halted r = Some h -> r = Stop h.
Proof. destruct r; cbn; congruence. Qed.

(** A program that ends with a [stop] does not fall through. *)
Lemma bind_halts {S A B} (m : prog S A) (k : A -> prog S B) :
  (forall a s, exists h, result (k a) s = Stop h) ->
  forall s, exists h, result (bind m k) s = Stop h.
Proof.
  intros Hk s. unfold result, bind. destruct (m s) as [[e1 [a | h]] s1]; cbn.
  - destruct (Hk a s1) as [h Hh]. unfold result in Hh.
    destruct (k a s1) as [[e2 r] s2]. cbn in *. exists h. exact Hh.
  - exists h. reflexivity.
Qed.

(** The position of the first event that is not [P] is determined. *)
Lemma first_break (P : event -> Prop) (pre pre' post post' : list event) (x y : event) :
  pre ++ x :: post = pre' ++ y :: post' ->
  Forall P pre' -> ~ P x ->
  (pre = pre' /\ x = y /\ post = post') \/ (exists mid, post' = mid ++ x :: post).
Proof.
  revert pre. induction pre' as [| p pre' IH]; intros pre E Hall Hx.
  - destruct pre as [| p0 pre]; cbn in E; injection E as E1 E2.
    + left. subst. auto.
    + right. exists pre. symmetry. exact E2.
  - inversion Hall as [| ? ? Hp Hall']; subst.
    destruct pre as [| p0 pre]; cbn in E; injection E as E1 E2.
    + subst. contradiction.
    + subst. destruct (IH pre E2 Hall' Hx) as [(-> & -> & ->) | [mid ->]].
      * left. auto.
      * right. exists mid. reflexivity.
Qed.

Lemma fail_stop_nil : fail_stop [] None.
Proof. constructor. Qed.

Lemma fail_stop_app (e1 e2 : list event) (h : option halt) :
  fail_stop e1 None -> fail_stop e2 h -> fail_stop (e1 ++ e2) h.
Proof.
  cbn [fail_stop]. intros H1 H2. destruct h as [[st | msg] |]; cbn [fail_stop] in *.
  - apply Forall_app. auto.
  - destruct H2 as (pre & a & b & -> & Hab & Hpre).
    exists (e1 ++ pre), a, b. rewrite app_assoc. repeat split; auto.
    apply Forall_app. auto.
  - apply Forall_app. auto.
Qed.

Lemma soft_stop_nil : soft_stop [] None.
Proof. constructor. Qed.

Lemma soft_stop_app (e1 e2 : list event) (h : option halt) :
  soft_stop e1 None -> soft_stop e2 h -> soft_stop (e1 ++ e2) h.
Proof.
  cbn [soft_stop]. intros H1 H2.
  destruct h as [[[| [p | p |] | p] | msg] |]; cbn [soft_stop] in *;
    try contradiction; try (apply Forall_app; auto).
  destruct H2 as (pre & d & -> & Hd & Hpre).
  exists (e1 ++ pre), d. rewrite app_assoc. repeat split; auto.
  apply Forall_app. auto.
Qed.

Section SumFailStop.

Variables (n seed : Z) (rng : Type) (FastRandom : Z -> rng)
  (next : rng -> Z -> Z -> Z * rng) (lapAvg lapStd : string -> float)
  (omp_chunks : nat -> list Z -> list (list Z)) (uninit : buffer -> Z -> list Z)
  (kernel_exec : string -> WorkSize -> Z -> Sum.gpu -> Sum.gpu).

Local Ltac quiet_emit :=
  apply (sat_emit fail_stop); repeat constructor.

Lemma raiseFail_fail_stop a b msg : sat fail_stop (Sum.raiseFail a b msg).
Proof.
  intros s. unfold Sum.raiseFail, events, result, bind, emit, stop, ret. cbn.
  destruct (Z.eqb_spec a b) as [E | E]; cbn.
  - repeat constructor. exact E.
  - exists [], a, b. repeat split; auto.
Qed.

Lemma sum_main_fail_stop :
  sat fail_stop
    (Sum.main n seed rng FastRandom next lapAvg lapStd omp_chunks uninit kernel_exec).
Proof.
  unfold Sum.main, Sum.cpu_block, Sum.omp_block, Sum.setup, Sum.variants, Sum.variant,
    Sum.trial, Sum.report, Sum.exec.
  sat_steps_with
    ltac:(idtac; match goal with
          | |- sat _ (Sum.raiseFail _ _ _) => apply raiseFail_fail_stop
          end)
    fail_stop_nil fail_stop_app;
    first [ quiet_emit | apply sat_stop; constructor ].
Qed.

End SumFailStop.

Section MatMulSoftStop.

Variables (M K N : Z) (rng : Type) (FastRandom : Z -> rng)
  (nextf : rng -> f32 * rng) (lapAvg lapStd : string -> float)
  (uninit : buffer -> Z -> list f32)
  (kernel_exec : string -> WorkSize -> Z * Z * Z -> MatMul.gpu -> MatMul.gpu).

Local Ltac calm_emit :=
  apply (sat_emit soft_stop); repeat constructor.

Lemma check_soft_stop ref : sat soft_stop (MatMul.check M N ref).
Proof.
  intros s. unfold MatMul.check, events, result, bind, emit, stop, ret, get.
  cbn -[Validator.too_big Validator.diff_avg].
  destruct (Validator.too_big _) eqn:E; cbn -[Validator.too_big Validator.diff_avg].
  - exists []. eexists. split; [reflexivity |]. split; [exact E | constructor].
  - repeat constructor. exact E.
Qed.

Lemma mat_main_soft_stop :
  sat soft_stop (MatMul.main M K N rng FastRandom nextf lapAvg lapStd uninit kernel_exec).
Proof.
  unfold MatMul.main, MatMul.cpu_block, MatMul.variant, MatMul.exec, MatMul.readN,
    MatMul.writeN.
  sat_steps_with
    ltac:(idtac; match goal with
          | |- sat _ (MatMul.check _ _ _) => apply check_soft_stop
          end)
    soft_stop_nil soft_stop_app;
    first [ calm_emit | apply sat_stop; constructor ].
Qed.

Lemma mat_main_halts :
  exists h,
    MatMul.status M K N rng FastRandom nextf lapAvg lapStd uninit kernel_exec = Stop h.
Proof.
  unfold MatMul.status, MatMul.run.
  change (exists h,
             result (MatMul.main M K N rng FastRandom nextf lapAvg lapStd uninit kernel_exec)
               (MatMul.start M N) = Stop h).
  generalize (MatMul.start M N). unfold MatMul.main.
  repeat (apply bind_halts; intros ?).
  intros s. exists (Exit 0). reflexivity.
Qed.

End MatMulSoftStop.

(** C1, the claim as stated fails: in the run whose first kernel leaves the
    output untouched the first variant exceeds the tolerance, the run ends at
    its diagnostic with status 1, and the two remaining variants are never
    launched. *)
Lemma first_failure_ends_run :
  Demo.mat_status 2 2 2 Demo.mat_kernel_idle = Stop (Exit 1)
  /\ skipn 44 (Demo.mat_trace 2 2 2 Demo.mat_kernel_idle)
     = [EvAvgDiff 1; EvCerr too_big_message]
  /\ existsb (is_exec "matrix_multiplication_naive")
       (Demo.mat_trace 2 2 2 Demo.mat_kernel_idle) = true
  /\ existsb (is_exec "matrix_multiplication_block")
       (Demo.mat_trace 2 2 2 Demo.mat_kernel_idle) = false
  /\ existsb (is_exec "matrix_multiplication_many")
       (Demo.mat_trace 2 2 2 Demo.mat_kernel_idle) = false.
Proof. repeat split; vm_compute; reflexivity. Qed.

(** * Events in their context *)

Lemma events_bind {S A B} (m : prog S A) (k : A -> prog S B) (s : S) :
  events (bind m k) s
  = events m s
      ++ match result m s with
         | Next a => events (k a) (final m s)
         | Stop _ => []
         end.
Proof.
  unfold events, result, final, bind. destruct (m s) as [[e1 [a | h]] s1]; cbn.
  - destruct (k a s1) as [[e2 r] s2]. reflexivity.
  - symmetry. apply app_nil_r.
Qed.

Lemma loc_nil P : loc P [] None.
Proof. intros [| x pre] e post E; discriminate. Qed.

Lemma loc_app P (e1 e2 : list event) (h : option halt) :
  monotone P -> loc P e1 None -> loc P e2 h -> loc P (e1 ++ e2) h.
Proof.
  intros Hmono H1 H2 pre e post E.
  apply app_eq_app in E. destruct E as [l [[E1 E2] | [E1 E2]]].
  - destruct l as [| x l].
    + rewrite app_nil_r in E1. cbn in E2. subst pre.
      specialize (H2 [] e post (eq_sym E2)).
      apply (Hmono [] e post e1 []) in H2. rewrite !app_nil_r in H2. exact H2.
    + cbn in E2. injection E2 as <- ->.
      specialize (H1 pre e l E1).
      apply (Hmono pre e l [] e2) in H1. exact H1.
  - subst pre. specialize (H2 l e post E2).
    apply (Hmono l e post e1 []) in H2. rewrite app_nil_r in H2. exact H2.
Qed.

Lemma loc_at_sound P (ev pre0 : list event) :
  loc_at P pre0 ev ->
  forall pre e post, ev = pre ++ e :: post -> P (pre0 ++ pre) e post.
Proof.
  revert pre0. induction ev as [| x ev IH]; intros pre0 H pre e post E.
  - destruct pre; discriminate.
  - destruct H as [Hx Hrest]. destruct pre as [| p pre]; cbn in E; injection E as -> ->.
    + rewrite app_nil_r. exact Hx.
    + specialize (IH _ Hrest pre e post eq_refl).
      rewrite <- app_assoc in IH. exact IH.
Qed.

Lemma loc_at_loc P (ev : list event) (h : option halt) : loc_at P [] ev -> loc P ev h.
Proof. intros H pre e post E. exact (loc_at_sound P ev [] H pre e post E). Qed.

Lemma sum_launch_context_monotone : monotone sum_launch_context.
Proof.
  intros pre e post l r H. destruct e; try exact Logic.I.
  destruct H as [(pre' & b & -> & Hb) (a & b' & post' & ->)]. split.
  - exists (l ++ pre'), b. split; [apply app_assoc | exact Hb].
  - exists a, b', (post' ++ r). reflexivity.
Qed.

Lemma mat_launch_context_monotone : monotone mat_launch_context.
Proof.
  intros pre e post l r H. destruct e; try exact Logic.I.
  destruct H as (l1 & k & j & label & avg & std & rate & l4 & -> & -> & Hk).
  exists (l ++ l1), k, j, label, avg, std, rate, (l4 ++ r).
  repeat split; [apply app_assoc | | exact Hk].
  cbn [app]. f_equal. rewrite <- !app_assoc. reflexivity.
Qed.

Lemma mat_validation_context_monotone : monotone mat_validation_context.
Proof.
  intros pre e post l r H. destruct e; try exact Logic.I.
  destruct H as (l1 & name & ws & label & avg & std & rate & ->).
  exists (l ++ l1), name, ws, label, avg, std, rate. apply app_assoc.
Qed.

(** * What a trial and a variant do *)

Section SumTrial.

Variables (n seed : Z) (rng : Type) (FastRandom : Z -> rng)
  (next : rng -> Z -> Z -> Z * rng) (lapAvg lapStd : string -> float)
  (omp_chunks : nat -> list Z -> list (list Z)) (uninit : buffer -> Z -> list Z)
  (kernel_exec : string -> WorkSize -> Z -> Sum.gpu -> Sum.gpu).

Let reference_sum := Sum.reference_sum n seed rng FastRandom next.

(** One trial of the reduction: the result cell is zeroed and uploaded, the
    kernel runs, the cell is downloaded and compared with the reference
    sum. *)
Lemma sum_trial_run (name : string) (gws : Z) (w : Sum.world) :
  let ws := WorkSize1 Sum.workGroupSize gws in
  let g := kernel_exec name ws n (Sum.mkGpu (Sum.as_mem w) [0]) in
  let result := nth 0 (Sum.result_mem g) 0 in
  Sum.trial n seed rng FastRandom next kernel_exec name gws w
  = ([EvWriteN result_gpu; EvExec name ws; EvReadN result_gpu;
      EvExpect reference_sum result]
       ++ (if reference_sum =? result then [EvNextLap] else [EvCerr Sum.message_gpu]),
     (if reference_sum =? result then Next tt else Stop (Throw Sum.message_gpu)),
     g).
Proof.
  cbn zeta. unfold Sum.trial, Sum.exec, Sum.raiseFail, bind, emit, modify, get, stop, ret.
  fold reference_sum.
  destruct (reference_sum =? _); reflexivity.
Qed.

Let trial_ name gws := Sum.trial n seed rng FastRandom next kernel_exec name gws.

Lemma boundary_plain (b : event) (pre post : list event) :
  lap_boundary b = true -> sum_launch_context pre b post.
Proof. destruct b; cbn; intros H; try discriminate; exact Logic.I. Qed.

(** The trials of a variant, from the event that starts the first one. *)
Lemma sum_trials_context name gws (count : nat) :
  forall (b : event) (first : nat) (s : Sum.world) (h : option halt),
    lap_boundary b = true ->
    loc sum_launch_context
      (b :: events (for_from first count (fun _ => trial_ name gws)) s) h.
Proof.
  induction count as [| c IH]; intros b first s h Hb; cbn [for_from].
  - apply loc_at_loc. cbn. split; [apply boundary_plain, Hb | exact Logic.I].
  - rewrite events_bind. unfold events at 1, result, final, trial_.
    rewrite sum_trial_run. cbn [fst snd].
    destruct (reference_sum =? _).
    + change (b :: ?l ++ ?r) with ((b :: l) ++ r).
      cbn [app].
      change (loc sum_launch_context
                ([b; EvWriteN result_gpu;
                  EvExec name (WorkSize1 Sum.workGroupSize gws);
                  EvReadN result_gpu;
                  EvExpect reference_sum
                    (nth 0 (Sum.result_mem
                              (kernel_exec name (WorkSize1 Sum.workGroupSize gws) n
                                 (Sum.mkGpu (Sum.as_mem s) [0]))) 0)]
                   ++ EvNextLap
                      :: events (for_from (Datatypes.S first) c (fun _ => trial_ name gws))
                           (kernel_exec name (WorkSize1 Sum.workGroupSize gws) n
                              (Sum.mkGpu (Sum.as_mem s) [0]))) h).
      apply loc_app; [exact sum_launch_context_monotone | | apply IH; reflexivity].
      apply loc_at_loc. cbn. repeat split; try (apply boundary_plain, Hb).
      * exists [], b. auto.
      * do 3 eexists. reflexivity.
    + apply loc_at_loc. cbn. repeat split; try (apply boundary_plain, Hb).
      * exists [], b. auto.
      * do 3 eexists. reflexivity.
Qed.

(** A timed loop of trials, followed by anything that keeps the
    property. *)
Lemma sum_timed_context name gws (K : unit -> prog Sum.world unit) :
  (forall u, sat (loc sum_launch_context) (K u)) ->
  sat (loc sum_launch_context)
    (bind (emit EvTimer)
       (fun _ => bind (for_iters benchmarkingIters (fun _ => trial_ name gws)) K)).
Proof.
  intros HK s. rewrite events_bind. cbn [events emit fst result snd final].
  rewrite events_bind. cbn [app].
  change (EvTimer :: ?l ++ ?r) with ((EvTimer :: l) ++ r).
  apply loc_app; [exact sum_launch_context_monotone | |].
  - apply sum_trials_context. reflexivity.
  - destruct (result _ _) as [u | h0]; [apply HK | apply loc_nil].
Qed.

Local Ltac plain :=
  apply (sat_emit (loc sum_launch_context)), loc_at_loc; cbn; auto.

Lemma sum_main_launch_context :
  sat (loc sum_launch_context)
    (Sum.main n seed rng FastRandom next lapAvg lapStd omp_chunks uninit kernel_exec).
Proof.
  unfold Sum.main, Sum.cpu_block, Sum.omp_block, Sum.setup, Sum.variants, Sum.variant,
    Sum.report, Sum.raiseFail.
  sat_steps_with
    ltac:(idtac; match goal with
          | |- sat _ (bind (emit EvTimer)
                       (fun _ => bind (for_iters _ (fun _ => Sum.trial _ _ _ _ _ _ _ _)) _)) =>
              apply sum_timed_context
          end)
    (loc_nil sum_launch_context)
    (fun e1 e2 h => loc_app sum_launch_context e1 e2 h sum_launch_context_monotone);
    first [ plain | apply sat_stop, loc_nil ].
Qed.

Lemma sum_trace_launch_context :
  loc sum_launch_context
    (Sum.trace n seed rng FastRandom next lapAvg lapStd omp_chunks uninit kernel_exec) None.
Proof. exact (sum_main_launch_context Sum.start). Qed.

Local Ltac kind P := apply (sat_emit (all_events P)), all_events_one; exact Logic.I.

Lemma cpu_block_host_only :
  sat (all_events host_only) (Sum.cpu_block n seed rng FastRandom next lapAvg lapStd).
Proof.
  unfold Sum.cpu_block, Sum.report, Sum.raiseFail.
  sat_steps (all_events_nil host_only) (all_events_app host_only);
    first [ kind host_only | apply sat_stop; constructor ].
Qed.

Lemma omp_block_host_only :
  sat (all_events host_only)
    (Sum.omp_block n seed rng FastRandom next lapAvg lapStd omp_chunks).
Proof.
  unfold Sum.omp_block, Sum.report, Sum.raiseFail.
  sat_steps (all_events_nil host_only) (all_events_app host_only);
    first [ kind host_only | apply sat_stop; constructor ].
Qed.

Lemma variants_no_input_upload :
  sat (all_events no_input_upload)
    (bind (Sum.variants n seed rng FastRandom next lapAvg lapStd kernel_exec)
       (fun _ => @stop Sum.world unit (Exit 0))).
Proof.
  unfold Sum.variants, Sum.variant, Sum.trial, Sum.exec, Sum.report, Sum.raiseFail.
  sat_steps (all_events_nil no_input_upload) (all_events_app no_input_upload);
    first [ kind no_input_upload | apply sat_stop; constructor ].
Qed.

(** The run is the host part, followed, unless a host check fails, by the
    single upload of the input array and by the variants. *)
Lemma sum_trace_shape :
  exists host rest,
    Forall host_only host /\ Forall no_input_upload rest
    /\ (Sum.trace n seed rng FastRandom next lapAvg lapStd omp_chunks uninit kernel_exec
         = host
        \/ Sum.trace n seed rng FastRandom next lapAvg lapStd omp_chunks uninit kernel_exec
           = host ++ [EvResizeN as_gpu n; EvWriteN as_gpu; EvResizeN result_gpu 1] ++ rest).
Proof.
  change (Sum.trace n seed rng FastRandom next lapAvg lapStd omp_chunks uninit kernel_exec)
    with (events (Sum.main n seed rng FastRandom next lapAvg lapStd omp_chunks uninit
                    kernel_exec) Sum.start).
  unfold Sum.main. rewrite events_bind.
  pose proof (cpu_block_host_only Sum.start) as Hcpu.
  destruct (result _ _) as [u | h]; cbn zeta beta iota.
  2:{ exists (events (Sum.cpu_block n seed rng FastRandom next lapAvg lapStd) Sum.start), [].
      rewrite app_nil_r. split; [exact Hcpu | split; [constructor | left; reflexivity]]. }
  rewrite events_bind.
  set (s1 := final (Sum.cpu_block n seed rng FastRandom next lapAvg lapStd) Sum.start).
  pose proof (omp_block_host_only s1) as Homp.
  destruct (result _ _) as [u' | h].
  2:{ eexists (_ ++ _), []. rewrite !app_nil_r.
      split; [| split; [constructor | left; reflexivity]].
      apply Forall_app. split; [exact Hcpu | exact Homp]. }
  rewrite events_bind.
  set (s2 := final (Sum.omp_block n seed rng FastRandom next lapAvg lapStd omp_chunks) s1).
  cbn [result Sum.setup bind emit modify fst snd final events app].
  eexists (_ ++ _), _. split; [apply Forall_app; split; [exact Hcpu | exact Homp] |].
  split; [| right; rewrite <- app_assoc; reflexivity].
  apply variants_no_input_upload.
Qed.

End SumTrial.

Section MatMulVariant.

Variables (M K N : Z) (rng : Type) (FastRandom : Z -> rng)
  (nextf : rng -> f32 * rng) (lapAvg lapStd : string -> float)
  (uninit : buffer -> Z -> list f32)
  (kernel_exec : string -> WorkSize -> Z * Z * Z -> MatMul.gpu -> MatMul.gpu).

Let upload := MatMul.upload M K N rng FastRandom nextf.
Let launch := MatMul.launch M K N kernel_exec.

(** One variant of the matrix program: both inputs are uploaded, the kernel
    is compiled and launched ten times, the statistics are printed, the
    output of the last launch is downloaded and validated. *)
Lemma mat_variant_run (name label : string) (ws : WorkSize) (ref : list f32)
    (w : MatMul.world) :
  let g := Nat.iter benchmarkingIters (launch name ws)
             (upload bs_gpu (upload as_gpu (MatMul.dev w))) in
  let d := Validator.diff_avg M N (map to_double (MatMul.cs_mem g)) (map to_double ref) in
  MatMul.variant M K N rng FastRandom nextf lapAvg lapStd kernel_exec name label ws ref w
  = ([EvWriteN as_gpu; EvWriteN bs_gpu; EvCompile name; EvTimer]
       ++ laps name ws benchmarkingIters
       ++ [EvStats label (lapAvg label) (lapStd label);
           EvRate label (MatMul.rate M K N (lapAvg label));
           EvReadN cs_gpu; EvAvgDiff d]
       ++ (if Validator.too_big d then [EvCerr too_big_message] else []),
     (if Validator.too_big d then Stop (Exit 1) else Next tt),
     MatMul.mkWorld (MatMul.cs_mem g) g).
Proof.
  cbn zeta.
  unfold MatMul.variant, MatMul.check, MatMul.exec, MatMul.readN, MatMul.writeN,
    for_iters, benchmarkingIters, upload, launch.
  cbn -[Validator.diff_avg Validator.too_big MatMul.rate MatMul.upload MatMul.launch].
  destruct (Validator.too_big _); reflexivity.
Qed.

Local Ltac launch_at k j :=
  exists [], k, j; do 5 eexists;
  split; [reflexivity | split; reflexivity].

Local Ltac some_launch :=
  first [ launch_at 0%nat 9%nat | launch_at 1%nat 8%nat | launch_at 2%nat 7%nat
        | launch_at 3%nat 6%nat | launch_at 4%nat 5%nat | launch_at 5%nat 4%nat
        | launch_at 6%nat 3%nat | launch_at 7%nat 2%nat | launch_at 8%nat 1%nat
        | launch_at 9%nat 0%nat ].

Lemma mat_variant_launch_context name label ws ref :
  sat (loc mat_launch_context)
    (MatMul.variant M K N rng FastRandom nextf lapAvg lapStd kernel_exec name label ws ref).
Proof.
  intros s. unfold events. rewrite mat_variant_run. cbn [fst].
  apply loc_at_loc.
  destruct (Validator.too_big _);
    cbn [app laps List.concat repeat benchmarkingIters loc_at mat_launch_context];
    repeat split; some_launch.
Qed.

Lemma mat_variant_validation_context name label ws ref :
  sat (loc mat_validation_context)
    (MatMul.variant M K N rng FastRandom nextf lapAvg lapStd kernel_exec name label ws ref).
Proof.
  intros s. unfold events. rewrite mat_variant_run. cbn [fst].
  apply loc_at_loc.
  destruct (Validator.too_big _);
    cbn [app laps List.concat repeat benchmarkingIters loc_at mat_validation_context];
    repeat split;
    exists [EvWriteN as_gpu; EvWriteN bs_gpu]; do 6 eexists; reflexivity.
Qed.

Local Ltac plain P :=
  apply (sat_emit (loc P)), loc_at_loc; cbn; auto.

Lemma mat_main_launch_context :
  sat (loc mat_launch_context)
    (MatMul.main M K N rng FastRandom nextf lapAvg lapStd uninit kernel_exec).
Proof.
  unfold MatMul.main, MatMul.cpu_block.
  sat_steps_with
    ltac:(idtac; match goal with
          | |- sat _ (MatMul.variant _ _ _ _ _ _ _ _ _ _ _ _ _) =>
              apply mat_variant_launch_context
          end)
    (loc_nil mat_launch_context)
    (fun e1 e2 h => loc_app mat_launch_context e1 e2 h mat_launch_context_monotone);
    first [ plain mat_launch_context | apply sat_stop, loc_nil ].
Qed.

Lemma mat_main_validation_context :
  sat (loc mat_validation_context)
    (MatMul.main M K N rng FastRandom nextf lapAvg lapStd uninit kernel_exec).
Proof.
  unfold MatMul.main, MatMul.cpu_block.
  sat_steps_with
    ltac:(idtac; match goal with
          | |- sat _ (MatMul.variant _ _ _ _ _ _ _ _ _ _ _ _ _) =>
              apply mat_variant_validation_context
          end)
    (loc_nil mat_validation_context)
    (fun e1 e2 h => loc_app mat_validation_context e1 e2 h mat_validation_context_monotone);
    first [ plain mat_validation_context | apply sat_stop, loc_nil ].
Qed.

End MatMulVariant.

(** * Trials *)

Lemma since_lap_last (pre : list event) (e : event) :
  lap_boundary e = false -> since_lap (pre ++ [e]) = since_lap pre ++ [e].
Proof.
  intros He. unfold since_lap. rewrite rev_app_distr. cbn [rev app take_while].
  rewrite He. reflexivity.
Qed.

Lemma since_lap_boundary (pre : list event) (b : event) :
  lap_boundary b = true -> since_lap (pre ++ [b]) = [].
Proof.
  intros Hb. unfold since_lap. rewrite rev_app_distr. cbn [rev app take_while].
  rewrite Hb. reflexivity.
Qed.

Lemma laps_succ (name : string) (ws : WorkSize) (k : nat) :
  laps name ws (Datatypes.S k) = laps name ws k ++ [EvExec name ws; EvNextLap].
Proof.
  unfold laps. set (x := [EvExec name ws; EvNextLap]).
  induction k as [| k IH]; [reflexivity |].
  change (List.concat (repeat x (Datatypes.S (Datatypes.S k))))
    with (x ++ List.concat (repeat x (Datatypes.S k))).
  rewrite IH at 1.
  change (List.concat (repeat x (Datatypes.S k))) with (x ++ List.concat (repeat x k)).
  rewrite app_assoc. reflexivity.
Qed.

(** After the timer and any number of complete trials, a new trial starts. *)
Lemma since_lap_laps (l : list event) (name : string) (ws : WorkSize) (k : nat) :
  since_lap (l ++ [EvTimer] ++ laps name ws k) = [].
Proof.
  destruct k as [| k].
  - cbn [laps repeat List.concat]. rewrite app_nil_r. apply since_lap_boundary. reflexivity.
  - rewrite laps_succ.
    change [EvExec name ws; EvNextLap] with ([EvExec name ws] ++ [EvNextLap]).
    rewrite !app_assoc. apply since_lap_boundary. reflexivity.
Qed.

(** A split at an event that a prefix does not contain falls after the
    prefix. *)
Lemma split_in_suffix (x y pre post : list event) (e : event) :
  x ++ y = pre ++ e :: post -> ~ In e x ->
  exists pre2, pre = x ++ pre2 /\ y = pre2 ++ e :: post.
Proof.
  revert pre. induction x as [| a x IH]; intros pre E Hin.
  - exists pre. auto.
  - destruct pre as [| p pre]; cbn in E; injection E as -> E.
    + exfalso. apply Hin. left. reflexivity.
    + destruct (IH pre E) as (pre2 & -> & ->).
      * intros H. apply Hin. right. exact H.
      * exists pre2. auto.
Qed.

Lemma host_only_no_exec (host : list event) (name : string) (ws : WorkSize) :
  Forall host_only host -> ~ In (EvExec name ws) host.
Proof. intros H Hin. rewrite Forall_forall in H. exact (H _ Hin). Qed.

Lemma no_input_upload_not_in (rest : list event) :
  Forall no_input_upload rest -> ~ In (EvWriteN as_gpu) rest.
Proof. intros H Hin. rewrite Forall_forall in H. exact (H _ Hin). Qed.

(** C4, the claim as stated fails: in the run of the matrix program on 2 x 2
    matrices the trial of the first launch holds neither an upload of an
    input nor the download of the output, and in the run of the reduction on
    five elements the trial of the first launch holds no upload of the input
    array. *)
Lemma launches_not_bracketed :
  ~ bracketed [as_gpu; bs_gpu] cs_gpu (Demo.mat_trace 2 2 2 Demo.mat_kernel)
  /\ ~ bracketed [as_gpu] result_gpu (Demo.sum_trace 5 Demo.sum_kernel).
Proof.
  split; intros H.
  - specialize (H (firstn 21 (Demo.mat_trace 2 2 2 Demo.mat_kernel))
                  "matrix_multiplication_naive" (MatMul.ws_naive 2 2)
                  (skipn 22 (Demo.mat_trace 2 2 2 Demo.mat_kernel))).
    destruct H as [_ H]; [vm_compute; reflexivity |].
    vm_compute in H. exact H.
  - specialize (H (firstn 52 (Demo.sum_trace 5 Demo.sum_kernel))
                  "sum_naive" (WorkSize1 Sum.workGroupSize (Sum.global_work_size 5))
                  (skipn 53 (Demo.sum_trace 5 Demo.sum_kernel))).
    destruct H as [H _]; [vm_compute; reflexivity |].
    specialize (H as_gpu (or_introl eq_refl)).
    vm_compute in H. destruct H as [H | H]; [discriminate H | exact H].
Qed.

(** C4, amended: the matrix program uploads both inputs once per variant,
    before the timed trials, each of the ten trials is the launch alone, and
    the output is downloaded once, after the last trial and the report; the
    reduction program uploads the input array once, before all variants, and
    each of its trials uploads the zeroed result cell, launches, and
    downloads the cell. *)
Theorem transfers_around_trials :
  (forall n seed rng FastRandom next lapAvg lapStd omp_chunks uninit kernel_exec
          pre name ws post,
      Sum.trace n seed rng FastRandom next lapAvg lapStd omp_chunks uninit kernel_exec
      = pre ++ EvExec name ws :: post ->
      since_lap pre = [EvWriteN result_gpu]
      /\ In (EvReadN result_gpu) (until_lap post)
      /\ In (EvWriteN as_gpu) pre
      /\ ~ In (EvWriteN as_gpu) post)
  /\ (forall M K N rng FastRandom nextf lapAvg lapStd uninit kernel_exec
             pre name ws post,
      MatMul.trace M K N rng FastRandom nextf lapAvg lapStd uninit kernel_exec
      = pre ++ EvExec name ws :: post ->
      since_lap pre = [] /\ until_lap post = []
      /\ exists l1 k j label avg std rate l4,
          pre = l1 ++ [EvWriteN as_gpu; EvWriteN bs_gpu; EvCompile name; EvTimer]
                   ++ laps name ws k
          /\ post = EvNextLap :: laps name ws j
                     ++ [EvStats label avg std; EvRate label rate; EvReadN cs_gpu] ++ l4
          /\ (k + 1 + j = benchmarkingIters)%nat).
Proof.
  split.
  - intros n seed rng FastRandom next lapAvg lapStd omp_chunks uninit kernel_exec
      pre name ws post E.
    pose proof (sum_trace_launch_context n seed rng FastRandom next lapAvg lapStd omp_chunks
                  uninit kernel_exec pre _ post E)
      as [(pre' & b & Hpre & Hb) (a & b' & post' & Hpost)].
    destruct (sum_trace_shape n seed rng FastRandom next lapAvg lapStd omp_chunks uninit
                kernel_exec) as (host & rest & Hhost & Hrest & [Hs | Hs]).
    { exfalso. apply (host_only_no_exec host name ws Hhost).
      rewrite <- Hs, E. apply in_elt. }
    rewrite Hs in E.
    destruct (split_in_suffix _ _ _ _ _ E (host_only_no_exec host name ws Hhost))
      as (pre2 & Hpre2 & E2).
    destruct pre2 as [| p0 [| p1 [| p2 pre3]]]; try discriminate E2.
    cbn in E2. injection E2 as <- <- <- E2.
    repeat split.
    + rewrite Hpre.
      change [b; EvWriteN result_gpu] with ([b] ++ [EvWriteN result_gpu]).
      rewrite app_assoc, since_lap_last by reflexivity.
      rewrite since_lap_boundary by exact Hb. reflexivity.
    + rewrite Hpost. cbn. left. reflexivity.
    + rewrite Hpre2. apply in_or_app. right. right. left. reflexivity.
    + intros Hin. apply (no_input_upload_not_in rest Hrest).
      rewrite E2. apply in_or_app. right. right. exact Hin.
  - intros M K N rng FastRandom nextf lapAvg lapStd uninit kernel_exec pre name ws post E.
    pose proof (mat_main_launch_context M K N rng FastRandom nextf lapAvg lapStd uninit
                  kernel_exec (MatMul.start M N) pre _ post E) as H.
    cbn [mat_launch_context] in H.
    destruct H as (l1 & k & j & label & avg & std & rate & l4 & Hpre & Hpost & Hk).
    split; [| split].
    + rewrite Hpre.
      change [EvWriteN as_gpu; EvWriteN bs_gpu; EvCompile name; EvTimer]
        with ([EvWriteN as_gpu; EvWriteN bs_gpu; EvCompile name] ++ [EvTimer]).
      rewrite <- (app_assoc _ [EvTimer]), app_assoc. apply since_lap_laps.
    + rewrite Hpost. reflexivity.
    + exists l1, k, j, label, avg, std, rate, l4. auto.
Qed.

(** The theorem at the first launch of the two runs above. *)
Lemma transfers_around_trials_witness :
  (since_lap (firstn 52 (Demo.sum_trace 5 Demo.sum_kernel)) = [EvWriteN result_gpu]
   /\ In (EvReadN result_gpu) (until_lap (skipn 53 (Demo.sum_trace 5 Demo.sum_kernel)))
   /\ In (EvWriteN as_gpu) (firstn 52 (Demo.sum_trace 5 Demo.sum_kernel))
   /\ ~ In (EvWriteN as_gpu) (skipn 53 (Demo.sum_trace 5 Demo.sum_kernel)))
  /\ (since_lap (firstn 21 (Demo.mat_trace 2 2 2 Demo.mat_kernel)) = []
      /\ until_lap (skipn 22 (Demo.mat_trace 2 2 2 Demo.mat_kernel)) = []
      /\ exists l1 k j label avg std rate l4,
          firstn 21 (Demo.mat_trace 2 2 2 Demo.mat_kernel)
          = l1 ++ [EvWriteN as_gpu; EvWriteN bs_gpu;
                   EvCompile "matrix_multiplication_naive"; EvTimer]
               ++ laps "matrix_multiplication_naive" (MatMul.ws_naive 2 2) k
          /\ skipn 22 (Demo.mat_trace 2 2 2 Demo.mat_kernel)
             = EvNextLap :: laps "matrix_multiplication_naive" (MatMul.ws_naive 2 2) j
                 ++ [EvStats label avg std; EvRate label rate; EvReadN cs_gpu] ++ l4
          /\ (k + 1 + j = benchmarkingIters)%nat).
Proof.
  destruct transfers_around_trials as [Hsum Hmat]. split.
  - apply (Hsum 5 Sum.seed_main Demo.rng Demo.FastRandom Demo.next Demo.lapAvg Demo.lapStd
             Demo.omp_chunks Demo.uninit_u32 Demo.sum_kernel
             (firstn 52 (Demo.sum_trace 5 Demo.sum_kernel)) "sum_naive"
             (WorkSize1 Sum.workGroupSize (Sum.global_work_size 5))
             (skipn 53 (Demo.sum_trace 5 Demo.sum_kernel))).
    vm_compute. reflexivity.
  - apply (Hmat 2 2 2 Demo.rng Demo.FastRandom Demo.nextf Demo.lapAvg Demo.lapStd
             Demo.uninit_f32 Demo.mat_kernel
             (firstn 21 (Demo.mat_trace 2 2 2 Demo.mat_kernel))
             "matrix_multiplication_naive" (MatMul.ws_naive 2 2)
             (skipn 22 (Demo.mat_trace 2 2 2 Demo.mat_kernel))).
    vm_compute. reflexivity.
Defined.

(** C5, the claim as stated fails: in the run of the reduction on five
    elements each of the five variants is validated ten times, once in every
    trial. *)
Lemma reduction_validates_every_trial :
  map validation_count (variant_segments (Demo.sum_trace 5 Demo.sum_kernel))
  = [10; 10; 10; 10; 10]%nat
  /\ ~ validated_once (Demo.sum_trace 5 Demo.sum_kernel).
Proof.
  split; [vm_compute; reflexivity |].
  unfold validated_once. intros H. rewrite Forall_forall in H.
  specialize (H (hd [] (variant_segments (Demo.sum_trace 5 Demo.sum_kernel)))).
  assert (E : validation_count (hd [] (variant_segments (Demo.sum_trace 5 Demo.sum_kernel)))
              = 10%nat) by (vm_compute; reflexivity).
  rewrite E in H. enough (10 = 1)%nat by discriminate. apply H.
  vm_compute. left. reflexivity.
Qed.

(** C5, amended: in the matrix program every validation comes right after
    the ten trials of its variant, the two report lines and the download, and
    is applied to the output buffer as the tenth launch left it; in the
    reduction program every launch is followed in its own trial by the
    download of the result cell and by the comparison of that result with the
    reference sum. *)
Theorem validation_points :
  (forall M K N rng FastRandom nextf lapAvg lapStd uninit kernel_exec pre d post,
      MatMul.trace M K N rng FastRandom nextf lapAvg lapStd uninit kernel_exec
      = pre ++ EvAvgDiff d :: post ->
      exists l1 name ws label avg std rate,
        pre = l1 ++ [EvCompile name; EvTimer] ++ laps name ws benchmarkingIters
                 ++ [EvStats label avg std; EvRate label rate; EvReadN cs_gpu])
  /\ (forall M K N rng FastRandom nextf lapAvg lapStd kernel_exec name label ws ref w,
      let g := Nat.iter benchmarkingIters (MatMul.launch M K N kernel_exec name ws)
                 (MatMul.upload M K N rng FastRandom nextf bs_gpu
                    (MatMul.upload M K N rng FastRandom nextf as_gpu (MatMul.dev w))) in
      let d := Validator.diff_avg M N (map to_double (MatMul.cs_mem g)) (map to_double ref) in
      events (MatMul.variant M K N rng FastRandom nextf lapAvg lapStd kernel_exec
                name label ws ref) w
      = [EvWriteN as_gpu; EvWriteN bs_gpu; EvCompile name; EvTimer]
          ++ laps name ws benchmarkingIters
          ++ [EvStats label (lapAvg label) (lapStd label);
              EvRate label (MatMul.rate M K N (lapAvg label));
              EvReadN cs_gpu; EvAvgDiff d]
          ++ (if Validator.too_big d then [EvCerr too_big_message] else []))
  /\ (forall n seed rng FastRandom next lapAvg lapStd omp_chunks uninit kernel_exec
             pre name ws post,
      Sum.trace n seed rng FastRandom next lapAvg lapStd omp_chunks uninit kernel_exec
      = pre ++ EvExec name ws :: post ->
      exists a b post', post = EvReadN result_gpu :: EvExpect a b :: post')
  /\ (forall n seed rng FastRandom next kernel_exec name gws w,
      let ws := WorkSize1 Sum.workGroupSize gws in
      let result :=
        nth 0 (Sum.result_mem (kernel_exec name ws n (Sum.mkGpu (Sum.as_mem w) [0]))) 0 in
      let reference_sum := Sum.reference_sum n seed rng FastRandom next in
      events (Sum.trial n seed rng FastRandom next kernel_exec name gws) w
      = [EvWriteN result_gpu; EvExec name ws; EvReadN result_gpu;
         EvExpect reference_sum result]
          ++ (if reference_sum =? result then [EvNextLap] else [EvCerr Sum.message_gpu])).
Proof.
  split; [| split; [| split]].
  - intros M K N rng FastRandom nextf lapAvg lapStd uninit kernel_exec pre d post E.
    exact (mat_main_validation_context M K N rng FastRandom nextf lapAvg lapStd uninit
             kernel_exec (MatMul.start M N) pre _ post E).
  - intros. unfold events. rewrite mat_variant_run. reflexivity.
  - intros n seed rng FastRandom next lapAvg lapStd omp_chunks uninit kernel_exec
      pre name ws post E.
    exact (proj2 (sum_trace_launch_context n seed rng FastRandom next lapAvg lapStd omp_chunks
                    uninit kernel_exec pre _ post E)).
  - intros. unfold events. rewrite sum_trial_run. reflexivity.
Qed.

(** The theorem at the first validation of the matrix run and at the first
    launch of the reduction run. *)
Lemma validation_points_witness :
  (exists l1 name ws label avg std rate,
      firstn 44 (Demo.mat_trace 2 2 2 Demo.mat_kernel)
      = l1 ++ [EvCompile name; EvTimer] ++ laps name ws benchmarkingIters
           ++ [EvStats label avg std; EvRate label rate; EvReadN cs_gpu])
  /\ (exists a b post',
         skipn 53 (Demo.sum_trace 5 Demo.sum_kernel)
         = EvReadN result_gpu :: EvExpect a b :: post').
Proof.
  destruct validation_points as (Hmat & _ & Hsum & _). split.
  - apply (Hmat 2 2 2 Demo.rng Demo.FastRandom Demo.nextf Demo.lapAvg Demo.lapStd
             Demo.uninit_f32 Demo.mat_kernel
             (firstn 44 (Demo.mat_trace 2 2 2 Demo.mat_kernel)) 0%float
             (skipn 45 (Demo.mat_trace 2 2 2 Demo.mat_kernel))).
    vm_compute. reflexivity.
  - apply (Hsum 5 Sum.seed_main Demo.rng Demo.FastRandom Demo.next Demo.lapAvg Demo.lapStd
             Demo.omp_chunks Demo.uninit_u32 Demo.sum_kernel
             (firstn 52 (Demo.sum_trace 5 Demo.sum_kernel)) "sum_naive"
             (WorkSize1 Sum.workGroupSize (Sum.global_work_size 5))
             (skipn 53 (Demo.sum_trace 5 Demo.sum_kernel))).
    vm_compute. reflexivity.
Defined.

(** * The host multiplication *)

Lemma store_length (v : list f32) (i : Z) (x : f32) :
  List.length (MatMul.store v i x) = List.length v.
Proof.
  unfold MatMul.store. destruct (Nat.ltb_spec (Z.to_nat i) (List.length v)) as [H | H];
    [| reflexivity].
  rewrite length_app. cbn [List.length]. rewrite length_firstn, length_skipn. lia.
Qed.

Lemma nth_store_same (v : list f32) (i : Z) (x : f32) :
  (Z.to_nat i < List.length v)%nat -> nth (Z.to_nat i) (MatMul.store v i x) f32_zero = x.
Proof.
  intros H. unfold MatMul.store. destruct (Nat.ltb_spec (Z.to_nat i) (List.length v)); [| lia].
  rewrite app_nth2; rewrite length_firstn; [| lia].
  replace (Z.to_nat i - Nat.min (Z.to_nat i) (List.length v))%nat with 0%nat by lia.
  reflexivity.
Qed.

Lemma nth_store_other (v : list f32) (i : Z) (x : f32) (k : nat) :
  k <> Z.to_nat i -> nth k (MatMul.store v i x) f32_zero = nth k v f32_zero.
Proof.
  intros Hk. unfold MatMul.store.
  destruct (Nat.ltb_spec (Z.to_nat i) (List.length v)) as [H | H]; [| reflexivity].
  rewrite <- (firstn_skipn (Z.to_nat i) v) at 3.
  destruct (Nat.lt_ge_cases k (Z.to_nat i)) as [Hlt | Hge].
  - rewrite !app_nth1 by (rewrite length_firstn; lia). reflexivity.
  - rewrite !app_nth2 by (rewrite length_firstn; lia).
    rewrite length_firstn.
    replace (Nat.min (Z.to_nat i) (List.length v)) with (Z.to_nat i) by lia.
    destruct (k - Z.to_nat i)%nat as [| d] eqn:E; [lia |].
    cbn [nth]. rewrite <- (nth_skipn 1 (skipn (Z.to_nat i) v) d). cbn [Nat.add].
    rewrite skipn_skipn. reflexivity.
Qed.

Lemma range_succ (n : nat) :
  range (Z.of_nat (Datatypes.S n)) = range (Z.of_nat n) ++ [Z.of_nat n].
Proof. unfold range. rewrite !Nat2Z.id, seq_S, map_app. reflexivity. Qed.

Lemma range_length (n : Z) : List.length (range n) = Z.to_nat n.
Proof. unfold range. rewrite length_map, length_seq. reflexivity. Qed.

Lemma range_nth (n : Z) (k : nat) (d : Z) :
  (k < Z.to_nat n)%nat -> nth k (range n) d = Z.of_nat k.
Proof.
  intros H. unfold range.
  rewrite (nth_indep _ d (Z.of_nat 0)) by (rewrite length_map, length_seq; exact H).
  rewrite map_nth, seq_nth by exact H. reflexivity.
Qed.

Section HostMultiply.

Variables (M K N : Z) (rng : Type) (FastRandom : Z -> rng) (nextf : rng -> f32 * rng).

Let inner := MatMul.inner M K N rng FastRandom nextf.
Let cpu_multiply := MatMul.cpu_multiply M K N rng FastRandom nextf.

(** The first [p] cells of [c] hold their inner products. *)
Let filled (p : nat) (c : list f32) : Prop :=
  List.length c = Z.to_nat (M * N)
  /\ forall k, (k < p)%nat ->
       nth k c f32_zero = inner (Z.of_nat k / N) (Z.of_nat k mod N).

Hypothesis M_nonneg : 0 <= M.
Hypothesis N_nonneg : 0 <= N.
Hypothesis size_fits : M * N < 2 ^ 32.

(** The loop over the columns of row [j] fills the cells of that row. *)
Lemma row_filled (j : nat) (c0 : list f32) :
  Z.of_nat j < M ->
  forall n, Z.of_nat n <= N ->
    filled (j * Z.to_nat N) c0 ->
    filled (j * Z.to_nat N + n)
      (fold_left (fun c i => MatMul.store c (u32 (Z.of_nat j * N + i)) (inner (Z.of_nat j) i))
         (range (Z.of_nat n)) c0).
Proof.
  intros Hj n. induction n as [| n IH]; intros Hn H0.
  - cbn [range Z.of_nat Z.to_nat seq map fold_left]. rewrite Nat.add_0_r. exact H0.
  - rewrite range_succ, fold_left_app. cbn [fold_left].
    specialize (IH ltac:(lia) H0).
    set (c1 := fold_left _ (range (Z.of_nat n)) c0) in *.
    destruct IH as [Hlen Hval].
    assert (Hidx : 0 <= Z.of_nat j * N + Z.of_nat n < M * N) by nia.
    assert (Hp : Z.to_nat (Z.of_nat j * N + Z.of_nat n) = (j * Z.to_nat N + n)%nat).
    { apply Nat2Z.inj. rewrite Z2Nat.id by lia.
      rewrite Nat2Z.inj_add, Nat2Z.inj_mul, Z2Nat.id by lia. reflexivity. }
    rewrite u32_small by lia.
    split; [rewrite store_length; exact Hlen |].
    intros k Hk.
    destruct (Nat.eq_dec k (j * Z.to_nat N + n)) as [-> | Hne].
    + rewrite <- Hp at 1. rewrite nth_store_same by (rewrite Hlen, Hp; lia).
      rewrite <- Hp, Z2Nat.id by lia.
      f_equal.
      * rewrite Z.div_add_l by lia. rewrite Z.div_small by lia. lia.
      * rewrite Z.add_comm, Z_mod_plus_full. symmetry. apply Z.mod_small. lia.
    + rewrite nth_store_other by (rewrite Hp; exact Hne). apply Hval. lia.
Qed.

(** The loop over the rows fills the whole vector. *)
Lemma rows_filled (c : list f32) :
  List.length c = Z.to_nat (M * N) ->
  forall m, Z.of_nat m <= M ->
    filled (m * Z.to_nat N)
      (fold_left
         (fun c j =>
            fold_left (fun c i => MatMul.store c (u32 (j * N + i)) (inner j i)) (range N) c)
         (range (Z.of_nat m)) c).
Proof.
  intros Hlen m. induction m as [| m IH]; intros Hm.
  - split; [exact Hlen |]. intros k Hk. cbn in Hk. lia.
  - rewrite range_succ, fold_left_app. cbn [fold_left].
    specialize (IH ltac:(lia)).
    replace (Datatypes.S m * Z.to_nat N)%nat with (m * Z.to_nat N + Z.to_nat N)%nat by lia.
    rewrite <- (Z2Nat.id N N_nonneg) at 3.
    apply row_filled; [lia | rewrite Z2Nat.id by lia; lia | exact IH].
Qed.

Lemma cpu_multiply_inner_products (c : list f32) :
  List.length c = Z.to_nat (M * N) ->
  cpu_multiply c = inner_products M K N rng FastRandom nextf.
Proof.
  intros Hlen.
  pose proof (rows_filled c Hlen (Z.to_nat M) ltac:(lia)) as [Hl Hv].
  rewrite Z2Nat.id in Hl, Hv by exact M_nonneg.
  rewrite <- Z2Nat.inj_mul in Hv by assumption.
  apply (nth_ext _ _ f32_zero f32_zero).
  - unfold inner_products. rewrite length_map, range_length. exact Hl.
  - intros k Hk.
    assert (Hk' : (k < Z.to_nat (M * N))%nat) by (rewrite <- Hl; exact Hk).
    clear Hk. rename Hk' into Hk.
    transitivity (inner (Z.of_nat k / N) (Z.of_nat k mod N)); [exact (Hv k Hk) |].
    unfold inner_products.
    set (f := fun p : Z => MatMul.inner M K N rng FastRandom nextf (p / N) (p mod N)).
    rewrite (nth_indep _ f32_zero (f 0))
      by (rewrite length_map, range_length; exact Hk).
    rewrite map_nth, range_nth by exact Hk. reflexivity.
Qed.

End HostMultiply.

Lemma inner_products_length (M K N : Z) (rng : Type) (FastRandom : Z -> rng)
    (nextf : rng -> f32 * rng) :
  List.length (inner_products M K N rng FastRandom nextf) = Z.to_nat (M * N).
Proof. unfold inner_products. rewrite length_map. apply range_length. Qed.

(** X1: the three nested loops of the host (lines 44-52) overwrite every
    cell of [cs]: when the indices do not wrap, cell [j * N + i] holds the
    inner product of row [j] and column [i] afterwards, whatever [cs] held
    before, so that a second pass changes nothing. *)
Theorem host_multiply_correct (M K N : Z) (rng : Type) (FastRandom : Z -> rng)
    (nextf : rng -> f32 * rng) (c : list f32) :
  0 <= M -> 0 <= N -> M * N < 2 ^ 32 ->
  List.length c = Z.to_nat (M * N) ->
  (forall j i, 0 <= j < M -> 0 <= i < N ->
     MatMul.load (MatMul.cpu_multiply M K N rng FastRandom nextf c) (j * N + i)
     = MatMul.inner M K N rng FastRandom nextf j i)
  /\ List.length (MatMul.cpu_multiply M K N rng FastRandom nextf c) = List.length c
  /\ MatMul.cpu_multiply M K N rng FastRandom nextf
       (MatMul.cpu_multiply M K N rng FastRandom nextf c)
     = MatMul.cpu_multiply M K N rng FastRandom nextf c.
Proof.
  intros HM HN Hfit Hlen.
  pose proof (cpu_multiply_inner_products M K N rng FastRandom nextf HM HN Hfit) as E.
  rewrite (E c Hlen). split; [| split].
  - intros j i Hj Hi. unfold MatMul.load, inner_products.
    assert (Hidx : 0 <= j * N + i < M * N) by nia.
    set (f := fun p : Z => MatMul.inner M K N rng FastRandom nextf (p / N) (p mod N)).
    rewrite (nth_indep _ f32_zero (f 0)) by (rewrite length_map, range_length; lia).
    rewrite map_nth, range_nth, Z2Nat.id by lia. unfold f. f_equal.
    + rewrite Z.div_add_l by lia. rewrite Z.div_small by lia. lia.
    + rewrite Z.add_comm, Z_mod_plus_full. apply Z.mod_small. lia.
  - rewrite inner_products_length. symmetry. exact Hlen.
  - apply E, inner_products_length.
Qed.

Lemma host_multiply_correct_witness :
  (forall j i, 0 <= j < 2 -> 0 <= i < 2 ->
     MatMul.load
       (MatMul.cpu_multiply 2 2 2 Demo.rng Demo.FastRandom Demo.nextf (repeat f32_zero 4))
       (j * 2 + i)
     = MatMul.inner 2 2 2 Demo.rng Demo.FastRandom Demo.nextf j i)
  /\ List.length
       (MatMul.cpu_multiply 2 2 2 Demo.rng Demo.FastRandom Demo.nextf (repeat f32_zero 4))
     = List.length (repeat f32_zero 4)
  /\ MatMul.cpu_multiply 2 2 2 Demo.rng Demo.FastRandom Demo.nextf
       (MatMul.cpu_multiply 2 2 2 Demo.rng Demo.FastRandom Demo.nextf (repeat f32_zero 4))
     = MatMul.cpu_multiply 2 2 2 Demo.rng Demo.FastRandom Demo.nextf (repeat f32_zero 4).
Proof.
  apply (host_multiply_correct 2 2 2 Demo.rng Demo.FastRandom Demo.nextf
           (repeat f32_zero 4)); [lia | lia | lia | reflexivity].
Defined.

(** ** The input matrices *)

Lemma fill_app (rng : Type) (nextf : rng -> f32 * rng) (a b : nat) (r : rng) :
  MatMul.fill rng nextf (a + b) r
  = (fst (MatMul.fill rng nextf a r)
       ++ fst (MatMul.fill rng nextf b (snd (MatMul.fill rng nextf a r))),
     snd (MatMul.fill rng nextf b (snd (MatMul.fill rng nextf a r)))).
Proof.
  revert r. induction a as [| a IH]; intros r; cbn [Nat.add MatMul.fill].
  - cbn [fst snd app]. destruct (MatMul.fill rng nextf b r). reflexivity.
  - destruct (nextf r) as [x r1]. rewrite IH.
    destruct (MatMul.fill rng nextf a r1) as [xs r2]. reflexivity.
Qed.

Lemma fill_length (rng : Type) (nextf : rng -> f32 * rng) (a : nat) (r : rng) :
  List.length (fst (MatMul.fill rng nextf a r)) = a.
Proof.
  revert r. induction a as [| a IH]; intros r; cbn [MatMul.fill]; [reflexivity |].
  destruct (nextf r) as [x r1]. specialize (IH r1).
  destruct (MatMul.fill rng nextf a r1) as [xs r2]. cbn [fst List.length] in *. congruence.
Qed.

(** X2: the two input matrices are consecutive draws of one generator
    seeded with [M + K + N] (lines 32-38): [as] followed by [bs] is the first
    [M*K + K*N] numbers of the stream, [as] holding [M*K] of them and [bs]
    the next [K*N], the counts taken in [unsigned int]. *)
Theorem inputs_share_one_stream :
  forall (M K N : Z) (rng : Type) (FastRandom : Z -> rng) (nextf : rng -> f32 * rng),
    MatMul.as_ M K N rng FastRandom nextf ++ MatMul.bs_ M K N rng FastRandom nextf
    = fst (MatMul.fill rng nextf (Z.to_nat (u32 (M * K)) + Z.to_nat (u32 (K * N)))
             (FastRandom (u32 (M + K + N))))
    /\ List.length (MatMul.as_ M K N rng FastRandom nextf) = Z.to_nat (u32 (M * K))
    /\ List.length (MatMul.bs_ M K N rng FastRandom nextf) = Z.to_nat (u32 (K * N)).
Proof.
  intros. unfold MatMul.as_, MatMul.bs_, MatMul.as_bs. rewrite fill_app.
  pose proof (fill_length rng nextf (Z.to_nat (u32 (M * K))) (FastRandom (u32 (M + K + N))))
    as Ha.
  destruct (MatMul.fill rng nextf (Z.to_nat (u32 (M * K))) (FastRandom (u32 (M + K + N))))
    as [xs r1].
  pose proof (fill_length rng nextf (Z.to_nat (u32 (K * N))) r1) as Hb.
  cbn [fst snd] in *.
  destruct (MatMul.fill rng nextf (Z.to_nat (u32 (K * N))) r1) as [ys r2].
  cbn [fst snd] in *. auto.
Qed.

(** * Work sizes and the operation count *)

(** X3: the global work size of the naive, local and tree kernels (lines
    89-90, 164-165, 189-190) is computed in [unsigned int]. For [n] up to
    [2^32 - 128] it is the least multiple of 128 that is at least [n]; for a
    larger [n] the sum [n + 127] wraps and the work size is 0. *)
Theorem global_work_size_rounds_up (n : Z) :
  0 <= n < 2 ^ 32 ->
  (n <= 2 ^ 32 - 128 ->
     n <= Sum.global_work_size n < n + 128
     /\ Sum.global_work_size n mod 128 = 0
     /\ (forall m, n <= m -> m mod 128 = 0 -> Sum.global_work_size n <= m))
  /\ (2 ^ 32 - 128 < n -> Sum.global_work_size n = 0).
Proof.
  intros Hn. unfold Sum.global_work_size, Sum.workGroupSize. split; intros Hb.
  - rewrite (u32_small (n + 128 - 1)) by lia.
    pose proof (Z.div_mod (n + 128 - 1) 128 ltac:(lia)) as E.
    pose proof (Z.mod_pos_bound (n + 128 - 1) 128 ltac:(lia)) as B.
    rewrite u32_small by lia.
    split; [lia |]. split; [apply Z_mod_mult |].
    intros m Hm Hm0.
    apply Z.mod_divide in Hm0; [| lia]. destruct Hm0 as [q ->].
    assert ((n + 128 - 1) / 128 < q + 1); [| lia].
    apply Z.div_lt_upper_bound; lia.
  - replace (u32 (n + 128 - 1)) with (n + 128 - 1 - 2 ^ 32).
    + rewrite Z.div_small by lia. reflexivity.
    + unfold u32. apply (Z.mod_unique _ _ 1); lia.
Qed.

Lemma global_work_size_rounds_up_witness :
  (Sum.n_main <= Sum.global_work_size Sum.n_main < Sum.n_main + 128
   /\ Sum.global_work_size Sum.n_main mod 128 = 0
   /\ (forall m, Sum.n_main <= m -> m mod 128 = 0 -> Sum.global_work_size Sum.n_main <= m))
  /\ Sum.global_work_size (2 ^ 32 - 1) = 0.
Proof.
  split.
  - apply (global_work_size_rounds_up Sum.n_main); unfold Sum.n_main; lia.
  - apply (global_work_size_rounds_up (2 ^ 32 - 1)); lia.
Defined.

(** X4: the global work size of the two loop kernels (lines 114-115,
    139-140) is the least multiple of 128 that is at least [n / 64], the
    quotient rounded down; nothing wraps. It is 0 exactly when [n < 64], and
    64 times it can be less than [n]: for [n = 8193] it is 128. *)
Theorem global_work_size_loop_rounds_up (n : Z) :
  0 <= n < 2 ^ 32 ->
  n / 64 <= Sum.global_work_size_loop n < n / 64 + 128
  /\ Sum.global_work_size_loop n mod 128 = 0
  /\ (Sum.global_work_size_loop n = 0 <-> n < 64)
  /\ (n mod 64 = 0 -> n <= 64 * Sum.global_work_size_loop n)
  /\ Sum.global_work_size_loop 8193 = 128.
Proof.
  intros Hn. unfold Sum.global_work_size_loop, Sum.workGroupSize.
  assert (Hq : 0 <= n / 64 < 2 ^ 26).
  { split; [apply Z.div_pos; lia | apply Z.div_lt_upper_bound; lia]. }
  rewrite (u32_small (n / 64 + 128 - 1)) by lia.
  pose proof (Z.div_mod (n / 64 + 128 - 1) 128 ltac:(lia)) as E.
  pose proof (Z.mod_pos_bound (n / 64 + 128 - 1) 128 ltac:(lia)) as B.
  rewrite u32_small by lia.
  pose proof (Z.div_mod n 64 ltac:(lia)) as E64.
  pose proof (Z.mod_pos_bound n 64 ltac:(lia)) as B64.
  split; [lia |]. split; [apply Z_mod_mult |]. split; [| split].
  - split; intros H; [lia |].
    rewrite (Z.div_small n 64) by lia. reflexivity.
  - intros H0. lia.
  - reflexivity.
Qed.

Lemma global_work_size_loop_rounds_up_witness :
  Sum.n_main / 64 <= Sum.global_work_size_loop Sum.n_main < Sum.n_main / 64 + 128
  /\ Sum.global_work_size_loop Sum.n_main mod 128 = 0
  /\ (Sum.global_work_size_loop Sum.n_main = 0 <-> Sum.n_main < 64)
  /\ (Sum.n_main mod 64 = 0 -> Sum.n_main <= 64 * Sum.global_work_size_loop Sum.n_main)
  /\ Sum.global_work_size_loop 8193 = 128.
Proof. apply (global_work_size_loop_rounds_up Sum.n_main). unfold Sum.n_main. lia. Defined.

(** X5: the operation count of line 26 is computed in [size_t]; when
    [2*M*K*N] fits in 64 bits, [gflops] is its quotient by 10^9 rounded down,
    so it is 0, and with it every throughput the program prints over a
    positive latency, as long as [2*M*K*N] is below 10^9. *)
Theorem gflops_floor (M K N : Z) :
  0 <= M -> 0 <= K -> 0 <= N -> 2 * (M * K * N) < 2 ^ 64 ->
  MatMul.gflops M K N = 2 * (M * K * N) / 10 ^ 9
  /\ (MatMul.gflops M K N = 0 <-> 2 * (M * K * N) < 10 ^ 9)
  /\ (2 * (M * K * N) < 10 ^ 9 ->
      forall lap_avg, (0 <? lap_avg)%float = true -> MatMul.rate M K N lap_avg = 0%float).
Proof.
  intros HM HK HN Hfit. unfold MatMul.gflops, size_t.
  assert (Hmk : 0 <= M * K) by nia.
  assert (Hmkn : 0 <= M * K * N) by nia.
  assert (Hmk' : M * K <= M * K * N \/ N = 0) by nia.
  assert (E : (((M * K) mod 2 ^ 64 * N) mod 2 ^ 64 * 2) mod 2 ^ 64 = 2 * (M * K * N)).
  { destruct Hmk' as [Hle | ->].
    - rewrite (Z.mod_small (M * K)) by lia.
      rewrite (Z.mod_small (M * K * N)) by lia.
      rewrite Z.mod_small by lia. lia.
    - rewrite !Z.mul_0_r. reflexivity. }
  assert (G : MatMul.gflops M K N = 2 * (M * K * N) / 10 ^ 9).
  { unfold MatMul.gflops, size_t. rewrite E. reflexivity. }
  fold (size_t (M * K)). fold (size_t (size_t (M * K) * N)).
  fold (size_t (size_t (size_t (M * K) * N) * 2)). fold (MatMul.gflops M K N).
  split; [exact G |]. split.
  - rewrite G. split; intros H.
    + apply Z.div_small_iff in H; lia.
    + apply Z.div_small. lia.
  - intros Hsmall lap_avg Hpos. unfold MatMul.rate. rewrite G.
    rewrite Z.div_small by lia. apply zero_div_pos. exact Hpos.
Qed.

Lemma gflops_floor_witness :
  MatMul.gflops 512 512 512 = 2 * (512 * 512 * 512) / 10 ^ 9
  /\ (MatMul.gflops 512 512 512 = 0 <-> 2 * (512 * 512 * 512) < 10 ^ 9)
  /\ (2 * (512 * 512 * 512) < 10 ^ 9 ->
      forall lap_avg, (0 <? lap_avg)%float = true -> MatMul.rate 512 512 512 lap_avg = 0%float).
Proof. apply (gflops_floor 512 512 512); lia. Defined.

(** * Not-a-number in the validator *)

Lemma is_nan_eq (x : float) : is_nan x = true -> x = nan.
Proof.
  rewrite is_nan_spec. unfold SFeqb. rewrite SFcompare_refl. intros H.
  apply Prim2SF_inj. destruct (Prim2SF x); cbn in H; try discriminate. reflexivity.
Qed.

Lemma nan_add_l (y : float) : (nan + y)%float = nan.
Proof.
  apply Prim2SF_inj. rewrite add_spec. change (Prim2SF nan) with S754_nan.
  destruct (Prim2SF y); reflexivity.
Qed.

Lemma nan_add_r (x : float) : (x + nan)%float = nan.
Proof.
  apply Prim2SF_inj. rewrite add_spec. change (Prim2SF nan) with S754_nan.
  destruct (Prim2SF x); reflexivity.
Qed.

Lemma nan_sub_l (y : float) : (nan - y)%float = nan.
Proof.
  apply Prim2SF_inj. rewrite sub_spec. change (Prim2SF nan) with S754_nan.
  destruct (Prim2SF y); reflexivity.
Qed.

Lemma nan_sub_r (x : float) : (x - nan)%float = nan.
Proof.
  apply Prim2SF_inj. rewrite sub_spec. change (Prim2SF nan) with S754_nan.
  destruct (Prim2SF x); reflexivity.
Qed.

Lemma nan_div_l (y : float) : (nan / y)%float = nan.
Proof.
  apply Prim2SF_inj. rewrite div_spec. change (Prim2SF nan) with S754_nan.
  destruct (Prim2SF y); reflexivity.
Qed.

(** A NaN on either side makes the relative error a NaN that the guard lets
    through. *)
Lemma rel_diff_nan (a b : float) :
  is_nan a = true \/ is_nan b = true ->
  Validator.guard a b = true /\ Validator.rel_diff a b = nan.
Proof.
  unfold Validator.guard, Validator.rel_diff, fneq.
  intros [H | H]; apply is_nan_eq in H; subst.
  - split; [reflexivity |]. rewrite nan_sub_l. apply nan_div_l.
  - split; [apply Bool.orb_true_r |]. rewrite nan_sub_r. apply nan_div_l.
Qed.

Lemma diff_step_nan (cs ref : list float) (i : nat) : Validator.diff_step cs ref nan i = nan.
Proof. unfold Validator.diff_step. destruct (Validator.guard _ _); [apply nan_add_l | reflexivity]. Qed.

Lemma diff_steps_nan (cs ref : list float) (l : list nat) :
  fold_left (Validator.diff_step cs ref) l nan = nan.
Proof. induction l as [| i l IH]; cbn [fold_left]; [reflexivity |]. rewrite diff_step_nan. exact IH. Qed.

Lemma diff_step_at_nan (cs ref : list float) (acc : float) (i : nat) :
  is_nan (nth i cs 0%float) = true \/ is_nan (nth i ref 0%float) = true ->
  Validator.diff_step cs ref acc i = nan.
Proof.
  intros H. unfold Validator.diff_step.
  destruct (rel_diff_nan _ _ H) as [-> ->]. apply nan_add_r.
Qed.

(** X6: one NaN among the elements the validator reads, in the candidate
    or in the reference, makes the sum and the average a NaN whatever the
    other elements are, and the variant passes (lines 98-113). *)
Theorem nan_element_passes (M N : Z) (cs ref : list float) (i : nat) :
  (i < Z.to_nat (Validator.elems M N))%nat ->
  is_nan (nth i cs 0%float) = true \/ is_nan (nth i ref 0%float) = true ->
  is_nan (Validator.diff_sum M N cs ref) = true
  /\ is_nan (Validator.diff_avg M N cs ref) = true
  /\ Validator.too_big (Validator.diff_avg M N cs ref) = false
  /\ Validator.passes M N cs ref = true.
Proof.
  intros Hi Hnan.
  assert (E : Validator.diff_sum M N cs ref = nan).
  { unfold Validator.diff_sum.
    replace (Z.to_nat (Validator.elems M N))
      with (i + Datatypes.S (Z.to_nat (Validator.elems M N) - Datatypes.S i))%nat by lia.
    rewrite seq_app, fold_left_app. cbn [seq fold_left Nat.add].
    rewrite (diff_step_at_nan _ _ _ _ Hnan). apply diff_steps_nan. }
  assert (E' : Validator.diff_avg M N cs ref = nan).
  { unfold Validator.diff_avg. rewrite E. apply nan_div_l. }
  unfold Validator.passes. rewrite E, E'. repeat split; reflexivity.
Qed.

Lemma nan_element_passes_witness :
  is_nan (Validator.diff_sum 1 2 [1%float; nan] [1%float; 2%float]) = true
  /\ is_nan (Validator.diff_avg 1 2 [1%float; nan] [1%float; 2%float]) = true
  /\ Validator.too_big (Validator.diff_avg 1 2 [1%float; nan] [1%float; 2%float]) = false
  /\ Validator.passes 1 2 [1%float; nan] [1%float; 2%float] = true.
Proof.
  apply (nan_element_passes 1 2 [1%float; nan] [1%float; 2%float] 1).
  - vm_compute. lia.
  - left. reflexivity.
Defined.

(** The relative error of a number against itself is [+0] or a NaN. *)
Lemma rel_diff_self (a : float) :
  (a =? 0)%float = false ->
  Validator.rel_diff a a = 0%float \/ Validator.rel_diff a a = nan.
Proof.
  intros Hz. destruct (is_finite a) eqn:Hf; [left; apply rel_diff_same; assumption | right].
  revert Hf. unfold is_finite, is_infinity. rewrite is_nan_spec, !eqb_spec, abs_spec.
  rewrite Prim2SF_infinity. intros Hf.
  apply Prim2SF_inj. unfold Validator.rel_diff, Validator.divisor.
  rewrite div_spec, std_max_spec, !abs_spec, sub_spec, SFltb_irrefl.
  destruct (Prim2SF a) as [[] | [] | | [] m e]; cbn in Hf;
    rewrite ?Z.compare_refl, ?Pos.compare_cont_refl in Hf; try discriminate; reflexivity.
Qed.

Lemma diff_step_self (ref : list float) (acc : float) (i : nat) :
  acc = 0%float \/ acc = nan ->
  Validator.diff_step ref ref acc i = 0%float \/ Validator.diff_step ref ref acc i = nan.
Proof.
  intros Hacc. unfold Validator.diff_step.
  destruct (Validator.guard _ _) eqn:Hg; [| exact Hacc].
  assert (Hz : (nth i ref 0 =? 0)%float = false).
  { unfold Validator.guard, fneq in Hg. destruct (nth i ref 0 =? 0)%float; [discriminate | reflexivity]. }
  destruct (rel_diff_self _ Hz) as [-> | ->], Hacc as [-> | ->];
    [left; reflexivity | right; reflexivity | right; reflexivity | right; reflexivity].
Qed.

Lemma diff_steps_self (ref : list float) (l : list nat) (acc : float) :
  acc = 0%float \/ acc = nan ->
  fold_left (Validator.diff_step ref ref) l acc = 0%float
  \/ fold_left (Validator.diff_step ref ref) l acc = nan.
Proof.
  revert acc. induction l as [| i l IH]; intros acc Hacc; cbn [fold_left]; [exact Hacc |].
  apply IH, diff_step_self, Hacc.
Qed.

Lemma diff_avg_self (M N : Z) (ref : list float) :
  Validator.diff_avg M N ref ref = 0%float \/ Validator.diff_avg M N ref ref = nan.
Proof.
  unfold Validator.diff_avg.
  destruct (diff_steps_self ref (seq 0 (Z.to_nat (Validator.elems M N))) 0%float
              (or_introl eq_refl)) as [E | E];
    unfold Validator.diff_sum; rewrite E; [| right; apply nan_div_l].
  pose proof (u32_range (M * N)) as Hr. fold (Validator.elems M N) in Hr.
  destruct (Z.eq_dec (Validator.elems M N) 0) as [-> | Hne]; [right; reflexivity |].
  left. apply zero_div_pos, double_of_Z_pos. lia.
Qed.

Lemma too_big_self (M N : Z) (ref : list float) :
  Validator.too_big (Validator.diff_avg M N ref ref) = false.
Proof. destruct (diff_avg_self M N ref) as [-> | ->]; reflexivity. Qed.

(** X7: an output that is element for element the reference passes,
    whatever the values are and whatever the size is: every relative error
    is [+0] or, for an infinity or a NaN, a NaN; the average is [+0] or a NaN,
    and neither is greater than 0.01 (lines 98-113). *)
Theorem identical_output_passes :
  forall (M N : Z) (ref : list float),
    Validator.passes M N ref ref = true
    /\ (Validator.diff_avg M N ref ref = 0%float
        \/ is_nan (Validator.diff_avg M N ref ref) = true).
Proof.
  intros. unfold Validator.passes. rewrite too_big_self. split; [reflexivity |].
  destruct (diff_avg_self M N ref) as [-> | ->]; [left | right]; reflexivity.
Qed.

(** * Runs that go on *)

Section Proceeds.

Context {S : Type}.

Lemma proceeds_ret {A} (P : S -> Prop) (a : A) : proceeds P (ret a) [] P.
Proof. intros s Hs. cbn. eauto. Qed.

Lemma proceeds_emit (P : S -> Prop) (e : event) : proceeds P (emit e) [e] P.
Proof. intros s Hs. cbn. eauto. Qed.

Lemma proceeds_modify (P : S -> Prop) (f : S -> S) :
  proceeds P (modify f) [] (fun s' => exists s, P s /\ s' = f s).
Proof. intros s Hs. cbn. split; [eauto | split; [reflexivity | eauto]]. Qed.

Lemma proceeds_bind {A B} (P Q R : S -> Prop) (m : prog S A) (k : A -> prog S B)
    (ev1 ev2 : list event) :
  proceeds P m ev1 Q -> (forall a, proceeds Q (k a) ev2 R) ->
  proceeds P (bind m k) (ev1 ++ ev2) R.
Proof.
  intros Hm Hk s Hs. destruct (Hm s Hs) as [[a Ha] [He Hq]].
  unfold result, events, final, bind in *.
  destruct (m s) as [[e1 r] s1]. cbn in Ha, He, Hq. subst.
  destruct (Hk a s1 Hq) as [[b Hb] [He2 Hr]].
  unfold result, events, final in Hb, He2, Hr.
  destruct (k a s1) as [[e2 r2] s2]. cbn in *. subst.
  split; [eexists; reflexivity | split; [reflexivity | assumption]].
Qed.

Lemma proceeds_get_bind {B} (P R : S -> Prop) (k : S -> prog S B) (ev : list event) :
  (forall s0, P s0 -> proceeds (fun s => s = s0) (k s0) ev R) ->
  proceeds P (bind get k) ev R.
Proof.
  intros H s Hs. specialize (H s Hs s eq_refl).
  unfold result, events, final, bind, get in *. cbn.
  destruct (k s s) as [[e r] s']. exact H.
Qed.

Lemma proceeds_weaken {A} (P P' Q Q' : S -> Prop) (m : prog S A) (ev : list event) :
  (forall s, P' s -> P s) -> (forall s, Q s -> Q' s) ->
  proceeds P m ev Q -> proceeds P' m ev Q'.
Proof.
  intros HP HQ H s Hs. destruct (H s (HP s Hs)) as [Ha [He Hq]]. auto.
Qed.

Lemma proceeds_for_from (P : S -> Prop) (body : nat -> prog S unit) (ev : list event) :
  (forall i, proceeds P (body i) ev P) ->
  forall count first,
    proceeds P (for_from first count body) (List.concat (repeat ev count)) P.
Proof.
  intros Hb count. induction count as [| c IH]; intros first; cbn [for_from repeat List.concat].
  - apply proceeds_ret.
  - eapply proceeds_bind; [apply Hb | intros _; apply IH].
Qed.

Lemma proceeds_for_iters (P : S -> Prop) (body : nat -> prog S unit) (ev : list event)
    (count : nat) :
  (forall i, proceeds P (body i) ev P) ->
  proceeds P (for_iters count body) (List.concat (repeat ev count)) P.
Proof. intros Hb. apply proceeds_for_from. exact Hb. Qed.

Lemma finishes_stop {A} (P : S -> Prop) (h : halt) : finishes P (@stop S A h) [] h.
Proof. intros s Hs. cbn. auto. Qed.

Lemma finishes_bind {A B} (P Q : S -> Prop) (m : prog S A) (k : A -> prog S B)
    (ev1 ev2 : list event) (h : halt) :
  proceeds P m ev1 Q -> (forall a, finishes Q (k a) ev2 h) ->
  finishes P (bind m k) (ev1 ++ ev2) h.
Proof.
  intros Hm Hk s Hs. destruct (Hm s Hs) as [[a Ha] [He Hq]].
  unfold result, events, final, bind in *.
  destruct (m s) as [[e1 r] s1]. cbn in Ha, He, Hq. subst.
  destruct (Hk a s1 Hq) as [Hb He2].
  unfold result, events in Hb, He2.
  destruct (k a s1) as [[e2 r2] s2]. cbn in *. subst.
  split; reflexivity.
Qed.

Lemma finishes_get_bind {B} (P : S -> Prop) (k : S -> prog S B) (ev : list event)
    (h : halt) :
  (forall s0, P s0 -> finishes (fun s => s = s0) (k s0) ev h) ->
  finishes P (bind get k) ev h.
Proof.
  intros H s Hs. specialize (H s Hs s eq_refl).
  unfold result, events, final, bind, get in *. cbn.
  destruct (k s s) as [[e r] s']. exact H.
Qed.

End Proceeds.

(** One step of a run that goes on, by the shape of the statement. *)
Ltac run_step :=
  lazymatch goal with
  | |- proceeds _ (bind get _) _ _ => apply proceeds_get_bind; intros ? ?
  | |- proceeds _ (bind _ _) _ _ => eapply proceeds_bind; [| intros ?]
  | |- proceeds _ (emit _) _ _ => apply proceeds_emit
  | |- proceeds _ (modify _) _ _ => apply proceeds_modify
  | |- proceeds _ (ret _) _ _ => apply proceeds_ret
  | |- finishes _ (bind get _) _ _ => apply finishes_get_bind; intros ? ?
  | |- finishes _ (bind _ _) _ _ => eapply finishes_bind; [| intros ?]
  | |- finishes _ (stop _) _ _ => apply finishes_stop
  end.

Lemma count_app (kind : event -> bool) (e1 e2 : list event) :
  count kind (e1 ++ e2) = (count kind e1 + count kind e2)%nat.
Proof. unfold count. rewrite filter_app, length_app. reflexivity. Qed.

(** * The reduction program *)

Section SumRuns.

Variables (n seed : Z) (rng : Type) (FastRandom : Z -> rng)
  (next : rng -> Z -> Z -> Z * rng) (lapAvg lapStd : string -> float)
  (omp_chunks : nat -> list Z -> list (list Z)) (uninit : buffer -> Z -> list Z)
  (kernel_exec : string -> WorkSize -> Z -> Sum.gpu -> Sum.gpu).

Let as_ := Sum.as_ n seed rng FastRandom next.
Let reference_sum := Sum.reference_sum n seed rng FastRandom next.

(** The generation loop accumulates what the sequential loop accumulates. *)
Lemma reference_is_cpu_sum : reference_sum = Sum.cpu_sum as_.
Proof. apply generate_total. Qed.

Lemma raiseFail_same (P : Sum.world -> Prop) (a b : Z) (msg : string) :
  a = b -> proceeds P (Sum.raiseFail a b msg) [EvExpect a b] P.
Proof.
  intros <- s Hs. unfold Sum.raiseFail, result, events, final, bind, emit, ret, stop.
  rewrite Z.eqb_refl. cbn. eauto.
Qed.

Lemma report_proceeds (P : Sum.world -> Prop) (label : string) :
  proceeds P (Sum.report n lapAvg lapStd label)
    [EvStats label (lapAvg label) (lapStd label);
     EvRate label (double_of_Z n / 1000 / 1000 / lapAvg label)] P.
Proof. intros s Hs. cbn. eauto. Qed.

Lemma cpu_block_proceeds (P : Sum.world -> Prop) :
  proceeds P (Sum.cpu_block n seed rng FastRandom next lapAvg lapStd)
    ([EvTimer]
       ++ List.concat (repeat ([EvExpect reference_sum (Sum.cpu_sum as_)] ++ [EvNextLap])
                         benchmarkingIters)
       ++ [EvStats "CPU" (lapAvg "CPU") (lapStd "CPU");
           EvRate "CPU" (double_of_Z n / 1000 / 1000 / lapAvg "CPU")])
    P.
Proof.
  unfold Sum.cpu_block.
  run_step; [run_step |]. run_step; [| apply report_proceeds].
  apply proceeds_for_iters. intros i.
  run_step; [| run_step]. apply raiseFail_same, reference_is_cpu_sum.
Qed.

Hypothesis chunks_partition :
  forall iter, Permutation (List.concat (omp_chunks iter as_)) as_.

Lemma omp_block_proceeds (P : Sum.world -> Prop) :
  proceeds P (Sum.omp_block n seed rng FastRandom next lapAvg lapStd omp_chunks)
    ([EvTimer]
       ++ List.concat (repeat ([EvExpect reference_sum reference_sum] ++ [EvNextLap])
                         benchmarkingIters)
       ++ [EvStats "CPU OMP" (lapAvg "CPU OMP") (lapStd "CPU OMP");
           EvRate "CPU OMP" (double_of_Z n / 1000 / 1000 / lapAvg "CPU OMP")])
    P.
Proof.
  unfold Sum.omp_block.
  run_step; [run_step |]. run_step; [| apply report_proceeds].
  apply proceeds_for_iters. intros i. run_step; [| run_step].
  fold as_ reference_sum.
  rewrite (omp_reduce_any_schedule _ _ (chunks_partition i)), <- reference_is_cpu_sum.
  apply raiseFail_same. reflexivity.
Qed.

(** Every kernel adds the elements of the uploaded array to the result cell
    and leaves the array as it is. *)
Hypothesis kernel_sums :
  forall name ws,
    let g := kernel_exec name ws n (Sum.mkGpu as_ [0]) in
    Sum.as_mem g = as_ /\ nth 0 (Sum.result_mem g) 0 = Sum.cpu_sum as_.

(** The device holds the input array. *)
Let loaded (w : Sum.world) : Prop := Sum.as_mem w = as_.

Lemma trial_proceeds (name : string) (gws : Z) :
  proceeds loaded (Sum.trial n seed rng FastRandom next kernel_exec name gws)
    [EvWriteN result_gpu; EvExec name (WorkSize1 Sum.workGroupSize gws);
     EvReadN result_gpu; EvExpect reference_sum reference_sum; EvNextLap]
    loaded.
Proof.
  intros w Hw. red in Hw.
  pose proof (sum_trial_run n seed rng FastRandom next kernel_exec name gws w) as E.
  cbn zeta in E. rewrite Hw in E.
  destruct (kernel_sums name (WorkSize1 Sum.workGroupSize gws)) as [Ha Hr].
  fold reference_sum in E. rewrite Hr, <- reference_is_cpu_sum, Z.eqb_refl in E.
  unfold result, events, final. rewrite E. cbn [fst snd app].
  split; [eexists; reflexivity | split; [reflexivity | exact Ha]].
Qed.

Lemma variant_proceeds (name label : string) (gws : Z) :
  proceeds loaded
    (Sum.variant n seed rng FastRandom next lapAvg lapStd kernel_exec name label gws)
    ([EvCompile name]
       ++ [EvTimer]
       ++ List.concat
            (repeat [EvWriteN result_gpu; EvExec name (WorkSize1 Sum.workGroupSize gws);
                     EvReadN result_gpu; EvExpect reference_sum reference_sum; EvNextLap]
               benchmarkingIters)
       ++ [EvStats label (lapAvg label) (lapStd label);
           EvRate label (double_of_Z n / 1000 / 1000 / lapAvg label)])
    loaded.
Proof.
  unfold Sum.variant.
  run_step; [run_step |]. run_step; [run_step |]. run_step; [| apply report_proceeds].
  apply proceeds_for_iters. intros i. apply trial_proceeds.
Qed.

Lemma setup_proceeds (P : Sum.world -> Prop) :
  proceeds P (Sum.setup n seed rng FastRandom next uninit)
    [EvResizeN as_gpu n; EvWriteN as_gpu; EvResizeN result_gpu 1] loaded.
Proof. intros s Hs. cbn. split; [eexists; reflexivity | split; reflexivity]. Qed.

Lemma variants_proceeds :
  exists ev,
    proceeds loaded (Sum.variants n seed rng FastRandom next lapAvg lapStd kernel_exec) ev
      loaded
    /\ Forall quiet ev
    /\ count is_launch ev = (5 * benchmarkingIters)%nat
    /\ count is_lap ev = (5 * benchmarkingIters)%nat.
Proof.
  eexists. split; [| split; [| split]].
  - unfold Sum.variants. repeat (run_step; [apply variant_proceeds |]).
    apply variant_proceeds.
  - repeat constructor.
  - reflexivity.
  - reflexivity.
Qed.

Lemma main_finishes :
  exists ev,
    finishes (fun _ => True)
      (Sum.main n seed rng FastRandom next lapAvg lapStd omp_chunks uninit kernel_exec)
      ev (Exit 0)
    /\ Forall quiet ev
    /\ count is_launch ev = (5 * benchmarkingIters)%nat
    /\ count is_lap ev = (7 * benchmarkingIters)%nat.
Proof.
  destruct variants_proceeds as (ev & Hv & Hq & Hl & Hp).
  eexists. split; [| split; [| split]].
  - unfold Sum.main.
    run_step; [apply cpu_block_proceeds |].
    run_step; [apply omp_block_proceeds |].
    run_step; [apply setup_proceeds |].
    run_step; [exact Hv |].
    run_step.
  - cbn [benchmarkingIters repeat List.concat app].
    repeat first [ apply Forall_nil | apply Forall_cons | apply Forall_app; split ];
      first [ exact Hq | exact Logic.I | reflexivity | apply reference_is_cpu_sum ].
  - rewrite !count_app, Hl. reflexivity.
  - rewrite !count_app, Hp. reflexivity.
Qed.

End SumRuns.

(** X8: the check of the sequential block (lines 35-47) cannot fail: the
    generation loop (lines 30-33) and the summation loop add the same values
    in the same order to an [unsigned int] that starts at 0. Whatever the
    generator draws, for every element count and seed, the block runs its
    ten trials, touches no device buffer and goes on. *)
Theorem sequential_check_never_fails :
  forall (n seed : Z) (rng : Type) (FastRandom : Z -> rng)
         (next : rng -> Z -> Z -> Z * rng) (lapAvg lapStd : string -> float)
         (w : Sum.world),
    Sum.reference_sum n seed rng FastRandom next
    = Sum.cpu_sum (Sum.as_ n seed rng FastRandom next)
    /\ result (Sum.cpu_block n seed rng FastRandom next lapAvg lapStd) w = Next tt
    /\ final (Sum.cpu_block n seed rng FastRandom next lapAvg lapStd) w = w
    /\ Forall quiet (events (Sum.cpu_block n seed rng FastRandom next lapAvg lapStd) w)
    /\ count is_lap (events (Sum.cpu_block n seed rng FastRandom next lapAvg lapStd) w)
       = benchmarkingIters.
Proof.
  intros.
  pose proof (reference_is_cpu_sum n seed rng FastRandom next) as Href.
  destruct (cpu_block_proceeds n seed rng FastRandom next lapAvg lapStd (fun s => s = w)
              w eq_refl) as [[[] Hr] [He Hf]].
  split; [exact Href |]. split; [exact Hr |]. split; [exact Hf |].
  rewrite He. split; [| reflexivity].
  cbn [benchmarkingIters repeat List.concat app].
  repeat first [ apply Forall_nil | apply Forall_cons ];
    first [ exact Logic.I | exact Href ].
Qed.

(** X9: the check of the OpenMP block (lines 49-62) passes in every trial
    in which the chunks handed to the threads hold, in any order, exactly the
    iterations of the loop; the block then runs its ten trials and goes
    on. *)
Theorem parallel_check_passes (n seed : Z) (rng : Type) (FastRandom : Z -> rng)
    (next : rng -> Z -> Z -> Z * rng) (lapAvg lapStd : string -> float)
    (omp_chunks : nat -> list Z -> list (list Z)) (w : Sum.world) :
  (forall iter,
      Permutation (List.concat (omp_chunks iter (Sum.as_ n seed rng FastRandom next)))
        (Sum.as_ n seed rng FastRandom next)) ->
  result (Sum.omp_block n seed rng FastRandom next lapAvg lapStd omp_chunks) w = Next tt
  /\ final (Sum.omp_block n seed rng FastRandom next lapAvg lapStd omp_chunks) w = w
  /\ Forall quiet (events (Sum.omp_block n seed rng FastRandom next lapAvg lapStd omp_chunks) w)
  /\ count is_lap (events (Sum.omp_block n seed rng FastRandom next lapAvg lapStd omp_chunks) w)
     = benchmarkingIters.
Proof.
  intros Hp.
  destruct (omp_block_proceeds n seed rng FastRandom next lapAvg lapStd omp_chunks Hp
              (fun s => s = w) w eq_refl) as [[[] Hr] [He Hf]].
  split; [exact Hr |]. split; [exact Hf |].
  rewrite He. split; [| reflexivity].
  cbn [benchmarkingIters repeat List.concat app].
  repeat first [ apply Forall_nil | apply Forall_cons ];
    first [ exact Logic.I | reflexivity ].
Qed.

Lemma parallel_check_passes_witness :
  result (Sum.omp_block 5 Sum.seed_main Demo.rng Demo.FastRandom Demo.next Demo.lapAvg
            Demo.lapStd Demo.omp_chunks) Sum.start = Next tt
  /\ final (Sum.omp_block 5 Sum.seed_main Demo.rng Demo.FastRandom Demo.next Demo.lapAvg
              Demo.lapStd Demo.omp_chunks) Sum.start = Sum.start
  /\ Forall quiet
       (events (Sum.omp_block 5 Sum.seed_main Demo.rng Demo.FastRandom Demo.next Demo.lapAvg
                  Demo.lapStd Demo.omp_chunks) Sum.start)
  /\ count is_lap
       (events (Sum.omp_block 5 Sum.seed_main Demo.rng Demo.FastRandom Demo.next Demo.lapAvg
                  Demo.lapStd Demo.omp_chunks) Sum.start)
     = benchmarkingIters.
Proof.
  apply (parallel_check_passes 5 Sum.seed_main Demo.rng Demo.FastRandom Demo.next
           Demo.lapAvg Demo.lapStd Demo.omp_chunks Sum.start).
  intros iter. vm_compute. apply Permutation_refl.
Defined.

(** X10: when every kernel adds the elements of the uploaded array to the
    zeroed result cell and leaves the array as it is, and the OpenMP chunks
    hold exactly the iterations, the whole run compares equal values only,
    prints no diagnostic, launches a kernel in each of the 5 x 10 trials,
    closes 7 x 10 laps and ends with status 0 (lines 22-202). *)
Theorem correct_kernels_exit_0 (n seed : Z) (rng : Type) (FastRandom : Z -> rng)
    (next : rng -> Z -> Z -> Z * rng) (lapAvg lapStd : string -> float)
    (omp_chunks : nat -> list Z -> list (list Z)) (uninit : buffer -> Z -> list Z)
    (kernel_exec : string -> WorkSize -> Z -> Sum.gpu -> Sum.gpu) :
  (forall iter,
      Permutation (List.concat (omp_chunks iter (Sum.as_ n seed rng FastRandom next)))
        (Sum.as_ n seed rng FastRandom next)) ->
  (forall name ws,
      Sum.as_mem (kernel_exec name ws n (Sum.mkGpu (Sum.as_ n seed rng FastRandom next) [0]))
      = Sum.as_ n seed rng FastRandom next
      /\ nth 0 (Sum.result_mem
                  (kernel_exec name ws n (Sum.mkGpu (Sum.as_ n seed rng FastRandom next) [0])))
           0
         = Sum.cpu_sum (Sum.as_ n seed rng FastRandom next)) ->
  Sum.status n seed rng FastRandom next lapAvg lapStd omp_chunks uninit kernel_exec
  = Stop (Exit 0)
  /\ Forall quiet
       (Sum.trace n seed rng FastRandom next lapAvg lapStd omp_chunks uninit kernel_exec)
  /\ count is_launch
       (Sum.trace n seed rng FastRandom next lapAvg lapStd omp_chunks uninit kernel_exec)
     = 50%nat
  /\ count is_lap
       (Sum.trace n seed rng FastRandom next lapAvg lapStd omp_chunks uninit kernel_exec)
     = 70%nat.
Proof.
  intros Hp Hk.
  destruct (main_finishes n seed rng FastRandom next lapAvg lapStd omp_chunks uninit
              kernel_exec Hp Hk) as (ev & Hfin & Hq & Hl & Hlap).
  destruct (Hfin Sum.start Logic.I) as [Hr He].
  unfold Sum.status, Sum.trace, Sum.run.
  unfold result in Hr. unfold events in He. rewrite Hr, He. auto.
Qed.

Lemma correct_kernels_exit_0_witness :
  Demo.sum_status 5 Demo.sum_kernel = Stop (Exit 0)
  /\ Forall quiet (Demo.sum_trace 5 Demo.sum_kernel)
  /\ count is_launch (Demo.sum_trace 5 Demo.sum_kernel) = 50%nat
  /\ count is_lap (Demo.sum_trace 5 Demo.sum_kernel) = 70%nat.
Proof.
  apply (correct_kernels_exit_0 5 Sum.seed_main Demo.rng Demo.FastRandom Demo.next
           Demo.lapAvg Demo.lapStd Demo.omp_chunks Demo.uninit_u32 Demo.sum_kernel).
  - intros iter. vm_compute. apply Permutation_refl.
  - intros name ws. vm_compute. split; reflexivity.
Defined.

(** ** How the reduction program can end *)

Lemma sum_ending_nil : sum_ending [] None.
Proof. exact Logic.I. Qed.

Lemma sum_ending_app (e1 e2 : list event) (h : option halt) :
  sum_ending e1 None -> sum_ending e2 h -> sum_ending (e1 ++ e2) h.
Proof. intros _ H. exact H. Qed.

Section SumEndings.

Variables (n seed : Z) (rng : Type) (FastRandom : Z -> rng)
  (next : rng -> Z -> Z -> Z * rng) (lapAvg lapStd : string -> float)
  (omp_chunks : nat -> list Z -> list (list Z)) (uninit : buffer -> Z -> list Z)
  (kernel_exec : string -> WorkSize -> Z -> Sum.gpu -> Sum.gpu).

Lemma cpu_block_ending :
  sat sum_ending (Sum.cpu_block n seed rng FastRandom next lapAvg lapStd).
Proof.
  intros s.
  destruct (cpu_block_proceeds n seed rng FastRandom next lapAvg lapStd (fun _ => True)
              s Logic.I) as [[a Ha] _].
  rewrite Ha. exact Logic.I.
Qed.

Lemma raiseFail_ending (a b : Z) (msg : string) :
  msg = Sum.message_omp \/ msg = Sum.message_gpu ->
  sat sum_ending (Sum.raiseFail a b msg).
Proof.
  intros H s. unfold Sum.raiseFail, events, result, bind, emit, stop, ret. cbn.
  destruct (a =? b); cbn; [exact Logic.I | exact H].
Qed.

Lemma sum_main_ending :
  sat sum_ending
    (Sum.main n seed rng FastRandom next lapAvg lapStd omp_chunks uninit kernel_exec).
Proof.
  unfold Sum.main, Sum.omp_block, Sum.setup, Sum.variants, Sum.variant, Sum.trial,
    Sum.report, Sum.exec.
  sat_steps_with
    ltac:(idtac; match goal with
          | |- sat _ (Sum.cpu_block _ _ _ _ _ _ _) => apply cpu_block_ending
          | |- sat _ (Sum.raiseFail _ _ _) => apply raiseFail_ending; auto
          end)
    sum_ending_nil sum_ending_app;
    first [ apply sat_emit; exact Logic.I | apply sat_stop; reflexivity ].
Qed.

Lemma sum_main_halts :
  exists h,
    Sum.status n seed rng FastRandom next lapAvg lapStd omp_chunks uninit kernel_exec
    = Stop h.
Proof.
  unfold Sum.status, Sum.run.
  change (exists h,
             result (Sum.main n seed rng FastRandom next lapAvg lapStd omp_chunks uninit
                       kernel_exec) Sum.start = Stop h).
  generalize Sum.start. unfold Sum.main.
  repeat (apply bind_halts; intros ?).
  intros s. exists (Exit 0). reflexivity.
Qed.

End SumEndings.

(** X11: a run of the reduction program in which every call of the device
    library returns ends in one of three ways, whatever the kernels, the
    generator and the OpenMP schedule compute: with status 0 after comparing
    equal values only; or with the exception of the OpenMP check or of an
    accelerator check, right after the failed comparison and its diagnostic.
    Such a run never returns another status, and the exception of the
    sequential check is never thrown. Choosing the device, compiling,
    launching and the transfers are calls that return here: a fault of the
    device library, which would end a run in a fourth way, is not part of
    this model. *)
Theorem reduction_endings :
  forall (n seed : Z) (rng : Type) (FastRandom : Z -> rng)
         (next : rng -> Z -> Z -> Z * rng) (lapAvg lapStd : string -> float)
         (omp_chunks : nat -> list Z -> list (list Z)) (uninit : buffer -> Z -> list Z)
         (kernel_exec : string -> WorkSize -> Z -> Sum.gpu -> Sum.gpu),
    let status :=
      Sum.status n seed rng FastRandom next lapAvg lapStd omp_chunks uninit kernel_exec in
    let trace :=
      Sum.trace n seed rng FastRandom next lapAvg lapStd omp_chunks uninit kernel_exec in
    (status = Stop (Exit 0) /\ Forall quiet trace)
    \/ (exists msg pre a b,
          (msg = Sum.message_omp \/ msg = Sum.message_gpu)
          /\ status = Stop (Throw msg)
          /\ trace = pre ++ [EvExpect a b; EvCerr msg]
          /\ a <> b /\ Forall quiet pre).
Proof.
  intros. subst status trace.
  pose proof (sum_main_fail_stop n seed rng FastRandom next lapAvg lapStd omp_chunks uninit
                kernel_exec Sum.start) as Hfs.
  pose proof (sum_main_ending n seed rng FastRandom next lapAvg lapStd omp_chunks uninit
                kernel_exec Sum.start) as Hend.
  destruct (sum_main_halts n seed rng FastRandom next lapAvg lapStd omp_chunks uninit
              kernel_exec) as [h Hh].
  change (events (Sum.main n seed rng FastRandom next lapAvg lapStd omp_chunks uninit
                    kernel_exec) Sum.start)
    with (Sum.trace n seed rng FastRandom next lapAvg lapStd omp_chunks uninit kernel_exec)
    in Hfs.
  change (result (Sum.main n seed rng FastRandom next lapAvg lapStd omp_chunks uninit
                    kernel_exec) Sum.start)
    with (Sum.status n seed rng FastRandom next lapAvg lapStd omp_chunks uninit kernel_exec)
    in Hfs, Hend.
  rewrite Hh in Hfs, Hend |- *. cbn [halted fail_stop sum_ending] in Hfs, Hend.
  destruct h as [st | msg].
  - left. subst st. split; [reflexivity | exact Hfs].
  - right. destruct Hfs as (pre & a & b & E & Hab & Hpre).
    exists msg, pre, a, b. auto.
Qed.

(** ** How many events a run of the reduction program prints *)

Section Bounded.

Context {S : Type}.
Variable kind : event -> bool.

Lemma bounded_ret {A} (a : A) : bounded kind 0 (@ret S A a).
Proof. intros s. cbn. auto. Qed.

Lemma bounded_get : bounded kind 0 (@get S).
Proof. intros s. cbn. auto. Qed.

Lemma bounded_modify (f : S -> S) : bounded kind 0 (modify f).
Proof. intros s. cbn. auto. Qed.

Lemma bounded_emit (e : event) : bounded kind (if kind e then 1 else 0) (@emit S e).
Proof. intros s. unfold count. cbn. destruct (kind e); cbn; auto. Qed.

Lemma bounded_bind {A B} (m : prog S A) (k : A -> prog S B) (n1 n2 : nat) :
  bounded kind n1 m -> (forall a, bounded kind n2 (k a)) ->
  bounded kind (n1 + n2) (bind m k).
Proof.
  intros Hm Hk s. specialize (Hm s). unfold events, result, bind in *.
  destruct (m s) as [[e1 [a | h]] s1]; cbn [fst snd halted] in Hm |- *.
  - specialize (Hk a s1). unfold events, result in Hk.
    destruct (k a s1) as [[e2 r] s2]. cbn [fst snd halted] in Hk |- *. rewrite count_app.
    destruct Hm as [_ ->]. destruct Hk as [Hle Hk]. split; [lia |].
    destruct (halted r) as [[] |]; [contradiction | exact Logic.I | lia].
  - destruct Hm as [Hle Hm]. split; [lia |]. destruct h; auto.
Qed.

Lemma bounded_for_from (body : nat -> prog S unit) (c : nat) :
  (forall i, bounded kind c (body i)) ->
  forall k first, bounded kind (k * c) (for_from first k body).
Proof.
  intros Hb k. induction k as [| k IH]; intros first; cbn [for_from Nat.mul].
  - apply bounded_ret.
  - apply bounded_bind; [apply Hb | intros _; apply IH].
Qed.

Lemma bounded_for_iters (body : nat -> prog S unit) (c k : nat) :
  (forall i, bounded kind c (body i)) -> bounded kind (k * c) (for_iters k body).
Proof. intros Hb. apply bounded_for_from. exact Hb. Qed.

Lemma ends_stop {A} : ends kind 0 (@stop S A (Exit 0)).
Proof. intros s. cbn. auto. Qed.

Lemma ends_bind {A B} (m : prog S A) (k : A -> prog S B) (n1 n2 : nat) :
  bounded kind n1 m -> (forall a, ends kind n2 (k a)) -> ends kind (n1 + n2) (bind m k).
Proof.
  intros Hm Hk s. specialize (Hm s). unfold events, result, bind in *.
  destruct (m s) as [[e1 [a | h]] s1]; cbn [fst snd halted] in Hm |- *.
  - specialize (Hk a s1). unfold events, result in Hk.
    destruct (k a s1) as [[e2 r] s2]. cbn [fst snd halted] in Hk |- *. rewrite count_app.
    destruct Hm as [_ ->]. destruct Hk as [Hle Hk]. split; [lia |].
    destruct (halted r) as [[] |]; [| exact Logic.I | contradiction].
    destruct Hk. split; [assumption | lia].
  - destruct Hm as [Hle Hm]. split; [lia |]. destruct h; [contradiction | exact Logic.I].
Qed.

Lemma ends_count {A} (m : prog S A) (n n' : nat) : ends kind n m -> n = n' -> ends kind n' m.
Proof. intros H <-. exact H. Qed.

End Bounded.

Lemma raiseFail_bounded (kind : event -> bool) (a b : Z) (msg : string) :
  kind (EvExpect a b) = false -> kind (EvCerr msg) = false ->
  bounded kind 0 (Sum.raiseFail a b msg).
Proof.
  intros H1 H2 s. unfold Sum.raiseFail, events, result, bind, emit, stop, ret, count. cbn.
  destruct (a =? b); cbn; rewrite H1, ?H2; cbn; auto.
Qed.

(** One step of the count, by the shape of the statement. *)
Ltac count_step :=
  lazymatch goal with
  | |- forall _, _ => intro
  | |- bounded _ _ (Sum.raiseFail _ _ _) => apply raiseFail_bounded; reflexivity
  | |- bounded _ _ (for_iters _ _) => eapply bounded_for_iters
  | |- bounded _ _ (bind _ _) => eapply bounded_bind
  | |- bounded _ _ (ret _) => apply bounded_ret
  | |- bounded _ _ get => apply bounded_get
  | |- bounded _ _ (modify _) => apply bounded_modify
  | |- bounded _ _ (emit _) => apply bounded_emit
  | |- ends _ _ (bind _ _) => eapply ends_bind
  | |- ends _ _ (stop _) => apply ends_stop
  end.

Section SumCounts.

Variables (n seed : Z) (rng : Type) (FastRandom : Z -> rng)
  (next : rng -> Z -> Z -> Z * rng) (lapAvg lapStd : string -> float)
  (omp_chunks : nat -> list Z -> list (list Z)) (uninit : buffer -> Z -> list Z)
  (kernel_exec : string -> WorkSize -> Z -> Sum.gpu -> Sum.gpu).

Let main := Sum.main n seed rng FastRandom next lapAvg lapStd omp_chunks uninit kernel_exec.

Local Ltac count_main :=
  unfold main, Sum.main, Sum.cpu_block, Sum.omp_block, Sum.setup, Sum.variants, Sum.variant,
    Sum.trial, Sum.report, Sum.exec;
  eapply ends_count; [repeat count_step | reflexivity].

Lemma main_launches : ends is_launch 50 main.
Proof. count_main. Qed.

Lemma main_laps : ends is_lap 70 main.
Proof. count_main. Qed.

Lemma main_compiles : ends is_compile 5 main.
Proof. count_main. Qed.

End SumCounts.

(** X12: in every run of the reduction program, whatever the kernels
    compute, at most 5 kernels are compiled, at most 50 launched and at most
    70 laps closed; a run that returns 0 has compiled exactly 5 kernels,
    launched exactly 50 and closed exactly 70 laps (lines 22-202). *)
Theorem reduction_counts :
  forall (n seed : Z) (rng : Type) (FastRandom : Z -> rng)
         (next : rng -> Z -> Z -> Z * rng) (lapAvg lapStd : string -> float)
         (omp_chunks : nat -> list Z -> list (list Z)) (uninit : buffer -> Z -> list Z)
         (kernel_exec : string -> WorkSize -> Z -> Sum.gpu -> Sum.gpu),
    let status :=
      Sum.status n seed rng FastRandom next lapAvg lapStd omp_chunks uninit kernel_exec in
    let trace :=
      Sum.trace n seed rng FastRandom next lapAvg lapStd omp_chunks uninit kernel_exec in
    ((count is_compile trace <= 5)%nat
     /\ (count is_launch trace <= 50)%nat
     /\ (count is_lap trace <= 70)%nat)
    /\ (status = Stop (Exit 0) ->
        count is_compile trace = 5%nat
        /\ count is_launch trace = 50%nat
        /\ count is_lap trace = 70%nat).
Proof.
  intros. subst status trace.
  pose proof (main_launches n seed rng FastRandom next lapAvg lapStd omp_chunks uninit
                kernel_exec Sum.start) as [Hl1 Hl2].
  pose proof (main_laps n seed rng FastRandom next lapAvg lapStd omp_chunks uninit
                kernel_exec Sum.start) as [Hp1 Hp2].
  pose proof (main_compiles n seed rng FastRandom next lapAvg lapStd omp_chunks uninit
                kernel_exec Sum.start) as [Hc1 Hc2].
  split; [auto |].
  unfold Sum.status, Sum.trace, Sum.run. unfold events, result in *.
  intros E. rewrite E in Hl2, Hp2, Hc2. cbn in Hl2, Hp2, Hc2.
  destruct Hl2, Hp2, Hc2. auto.
Qed.

(** ** What a fresh allocation holds *)

Lemma bind_same_head {S A B} (m : prog S A) (k : A -> prog S B) (s1 s2 : S) :
  m s1 = m s2 -> bind m k s1 = bind m k s2.
Proof. intros H. unfold bind. rewrite H. reflexivity. Qed.

Lemma bind_same_tail {S A B} (m : prog S A) (k1 k2 : A -> prog S B) (s : S) :
  (forall a s', k1 a s' = k2 a s') -> bind m k1 s = bind m k2 s.
Proof.
  intros H. unfold bind. destruct (m s) as [[e1 [a | h]] s1]; [| reflexivity].
  rewrite H. reflexivity.
Qed.

Lemma bind_emit_same {S B} (e : event) (k : unit -> prog S B) (s1 s2 : S) :
  k tt s1 = k tt s2 -> bind (emit e) k s1 = bind (emit e) k s2.
Proof. intros H. unfold bind, emit. rewrite H. reflexivity. Qed.

Lemma bind_run {S A B} (m : prog S A) (k : A -> prog S B) (s s' : S) (ev : list event)
    (a : A) :
  m s = (ev, Next a, s') -> bind m k s = (let '(e2, r, s2) := k a s' in (ev ++ e2, r, s2)).
Proof. intros H. unfold bind. rewrite H. reflexivity. Qed.

Section SumAllocation.

Variables (n seed : Z) (rng : Type) (FastRandom : Z -> rng)
  (next : rng -> Z -> Z -> Z * rng) (lapAvg lapStd : string -> float)
  (omp_chunks : nat -> list Z -> list (list Z))
  (kernel_exec : string -> WorkSize -> Z -> Sum.gpu -> Sum.gpu).

(** A trial reads nothing of the device but the input array. *)
Lemma trial_reads_array (name : string) (gws : Z) (w1 w2 : Sum.world) :
  Sum.as_mem w1 = Sum.as_mem w2 ->
  Sum.trial n seed rng FastRandom next kernel_exec name gws w1
  = Sum.trial n seed rng FastRandom next kernel_exec name gws w2.
Proof.
  intros H.
  pose proof (sum_trial_run n seed rng FastRandom next kernel_exec name gws w1) as E1.
  pose proof (sum_trial_run n seed rng FastRandom next kernel_exec name gws w2) as E2.
  cbn zeta in E1, E2. rewrite E1, E2, H. reflexivity.
Qed.

Lemma variant_reads_array (name label : string) (gws : Z) (w1 w2 : Sum.world) :
  Sum.as_mem w1 = Sum.as_mem w2 ->
  Sum.variant n seed rng FastRandom next lapAvg lapStd kernel_exec name label gws w1
  = Sum.variant n seed rng FastRandom next lapAvg lapStd kernel_exec name label gws w2.
Proof.
  intros H. unfold Sum.variant.
  do 2 apply bind_emit_same. apply bind_same_head.
  unfold for_iters, benchmarkingIters. cbn [for_from].
  apply bind_same_head, trial_reads_array, H.
Qed.

Lemma variants_read_array (w1 w2 : Sum.world) :
  Sum.as_mem w1 = Sum.as_mem w2 ->
  Sum.variants n seed rng FastRandom next lapAvg lapStd kernel_exec w1
  = Sum.variants n seed rng FastRandom next lapAvg lapStd kernel_exec w2.
Proof. intros H. unfold Sum.variants. apply bind_same_head, variant_reads_array, H. Qed.

End SumAllocation.

(** X13: what the fresh allocation of a device buffer holds never shows in
    a run of the reduction program: the array buffer is written right after
    its allocation (lines 72-73), and the result cell is overwritten with 0
    before every launch (lines 84-86); the events, the way the run ends and
    the final device memory are the same for any two allocators. *)
Theorem allocation_contents_unobserved :
  forall (n seed : Z) (rng : Type) (FastRandom : Z -> rng)
         (next : rng -> Z -> Z -> Z * rng) (lapAvg lapStd : string -> float)
         (omp_chunks : nat -> list Z -> list (list Z))
         (uninit1 uninit2 : buffer -> Z -> list Z)
         (kernel_exec : string -> WorkSize -> Z -> Sum.gpu -> Sum.gpu),
    Sum.run n seed rng FastRandom next lapAvg lapStd omp_chunks uninit1 kernel_exec
    = Sum.run n seed rng FastRandom next lapAvg lapStd omp_chunks uninit2 kernel_exec.
Proof.
  intros. unfold Sum.run, Sum.main.
  apply bind_same_tail; intros _ s1. apply bind_same_tail; intros _ s2.
  assert (E : forall u,
             Sum.setup n seed rng FastRandom next u s2
             = ([EvResizeN as_gpu n; EvWriteN as_gpu; EvResizeN result_gpu 1], Next tt,
                Sum.mkGpu (Sum.as_ n seed rng FastRandom next) (u result_gpu 1)))
    by reflexivity.
  rewrite (bind_run _ _ _ _ _ _ (E uninit1)), (bind_run _ _ _ _ _ _ (E uninit2)).
  rewrite (bind_same_head
             (Sum.variants n seed rng FastRandom next lapAvg lapStd kernel_exec) _
             (Sum.mkGpu (Sum.as_ n seed rng FastRandom next) (uninit1 result_gpu 1))
             (Sum.mkGpu (Sum.as_ n seed rng FastRandom next) (uninit2 result_gpu 1)));
    [reflexivity |].
  apply variants_read_array. reflexivity.
Qed.

(** * The matrix program *)

Lemma proceeds_for_iters_last {S : Type} (P Q : S -> Prop) (body : nat -> prog S unit)
    (ev : list event) (count : nat) :
  (forall i, proceeds P (body i) ev Q) -> (forall s, Q s -> P s) ->
  proceeds P (for_iters (Datatypes.S count) body)
    (List.concat (repeat ev (Datatypes.S count))) Q.
Proof.
  intros Hb HQ. unfold for_iters. generalize 0%nat.
  induction count as [| c IH]; intros first.
  - cbn [for_from repeat List.concat]. eapply proceeds_bind; [apply Hb |].
    intros _. apply proceeds_ret.
  - change (for_from first (Datatypes.S (Datatypes.S c)) body)
      with (bind (body first) (fun _ => for_from (Datatypes.S first) (Datatypes.S c) body)).
    change (List.concat (repeat ev (Datatypes.S (Datatypes.S c))))
      with (ev ++ List.concat (repeat ev (Datatypes.S c))).
    eapply proceeds_bind; [apply Hb |]. intros _.
    eapply proceeds_weaken; [exact HQ | | apply IH]. auto.
Qed.

Section MatMulRuns.

Variables (M K N : Z) (rng : Type) (FastRandom : Z -> rng)
  (nextf : rng -> f32 * rng) (lapAvg lapStd : string -> float)
  (uninit : buffer -> Z -> list f32)
  (kernel_exec : string -> WorkSize -> Z * Z * Z -> MatMul.gpu -> MatMul.gpu).

Let as_ := MatMul.as_ M K N rng FastRandom nextf.
Let bs_ := MatMul.bs_ M K N rng FastRandom nextf.
Let products := inner_products M K N rng FastRandom nextf.

Hypothesis M_nonneg : 0 <= M.
Hypothesis N_nonneg : 0 <= N.
Hypothesis size_fits : M * N < 2 ^ 32.

(** The host vector has its size. *)
Let sized (w : MatMul.world) : Prop := List.length (MatMul.cs w) = Z.to_nat (M * N).

(** The host vector holds the inner products. *)
Let multiplied (w : MatMul.world) : Prop := MatMul.cs w = products.

Lemma cpu_block_proceeds_mat :
  proceeds sized (MatMul.cpu_block M K N rng FastRandom nextf lapAvg lapStd)
    ([EvTimer]
       ++ List.concat (repeat ([] ++ [EvNextLap]) benchmarkingIters)
       ++ [EvStats "CPU" (lapAvg "CPU") (lapStd "CPU")]
       ++ [EvRate "CPU" (MatMul.rate M K N (lapAvg "CPU"))])
    multiplied.
Proof.
  unfold MatMul.cpu_block.
  run_step; [run_step |]. run_step; [| run_step; run_step].
  apply proceeds_for_iters_last.
  - intros i. run_step; [| run_step]. eapply proceeds_weaken; [| | apply proceeds_modify].
    + intros s Hs. exact Hs.
    + intros s' (s & Hs & ->). unfold multiplied, MatMul.set_cs. cbn [MatMul.cs].
      apply cpu_multiply_inner_products; assumption.
  - intros s Hs. unfold sized. rewrite Hs. apply inner_products_length.
Qed.

Lemma start_sized : sized (MatMul.start M N).
Proof.
  unfold sized, MatMul.start. cbn [MatMul.cs]. rewrite repeat_length, u32_small; [reflexivity |].
  split; [apply Z.mul_nonneg_nonneg; assumption | assumption].
Qed.

(** Every kernel leaves the inner products in the output buffer. *)
Hypothesis kernel_multiplies :
  forall name ws c,
    kernel_exec name ws (M, K, N) (MatMul.mkGpu as_ bs_ c) = MatMul.mkGpu as_ bs_ products.

Lemma variant_proceeds_mat (P : MatMul.world -> Prop) (name label : string) (ws : WorkSize) :
  exists d,
    Validator.too_big d = false
    /\ proceeds P
         (MatMul.variant M K N rng FastRandom nextf lapAvg lapStd kernel_exec name label ws
            products)
         ([EvWriteN as_gpu; EvWriteN bs_gpu; EvCompile name; EvTimer]
            ++ laps name ws benchmarkingIters
            ++ [EvStats label (lapAvg label) (lapStd label);
                EvRate label (MatMul.rate M K N (lapAvg label));
                EvReadN cs_gpu; EvAvgDiff d])
         multiplied.
Proof.
  exists (Validator.diff_avg M N (map to_double products) (map to_double products)).
  assert (Hd : Validator.too_big
                 (Validator.diff_avg M N (map to_double products) (map to_double products))
               = false).
  { apply too_big_self. }
  split; [exact Hd |].
  intros w _.
  pose proof (mat_variant_run M K N rng FastRandom nextf lapAvg lapStd kernel_exec name label
                ws products w) as E.
  cbn zeta in E.
  assert (Hg : Nat.iter benchmarkingIters (MatMul.launch M K N kernel_exec name ws)
                 (MatMul.upload M K N rng FastRandom nextf bs_gpu
                    (MatMul.upload M K N rng FastRandom nextf as_gpu (MatMul.dev w)))
               = MatMul.mkGpu as_ bs_ products).
  { unfold benchmarkingIters, MatMul.upload, MatMul.launch.
    cbn [Nat.iter nat_rect MatMul.as_mem MatMul.bs_mem MatMul.cs_mem].
    fold as_ bs_. rewrite !kernel_multiplies. reflexivity. }
  rewrite Hg in E. cbn [MatMul.cs_mem] in E. rewrite Hd in E.
  unfold result, events, final. rewrite E. cbn [fst snd].
  rewrite !app_nil_r.
  split; [eexists; reflexivity | split; reflexivity].
Qed.

Lemma main_finishes_mat :
  exists ev,
    finishes sized
      (MatMul.main M K N rng FastRandom nextf lapAvg lapStd uninit kernel_exec) ev (Exit 0)
    /\ Forall calm ev
    /\ count is_launch ev = (3 * benchmarkingIters)%nat
    /\ count is_average ev = 3%nat.
Proof.
  destruct (variant_proceeds_mat
              (fun s => exists s0 : MatMul.world,
                          (exists s1 : MatMul.world, multiplied s1 /\ s0 = s1)
                          /\ s = MatMul.set_dev
                                   (fun _ => MatMul.allocated M K N uninit) s0)
              "matrix_multiplication_naive" "GPU naïve" (MatMul.ws_naive M N))
    as (d1 & Hd1 & H1).
  destruct (variant_proceeds_mat multiplied
              "matrix_multiplication_block" "GPU block" (MatMul.ws_block M N))
    as (d2 & Hd2 & H2).
  destruct (variant_proceeds_mat multiplied
              "matrix_multiplication_many" "GPU many" (MatMul.ws_many M N))
    as (d3 & Hd3 & H3).
  eexists. split; [| split; [| split]].
  - unfold MatMul.main.
    run_step; [run_step |].
    run_step; [apply cpu_block_proceeds_mat |].
    apply finishes_get_bind. intros s0 Hs0. red in Hs0. rewrite Hs0.
    eapply finishes_bind with (Q := fun s => exists s1, multiplied s1 /\ s = s1).
    { eapply proceeds_weaken; [| | apply proceeds_emit]; [intros s Hs; exact Hs |].
      intros s ->. exists s0. split; [exact Hs0 | reflexivity]. }
    intros _.
    run_step; [run_step |]. run_step; [run_step |]. run_step; [run_step |].
    run_step; [exact H1 |]. run_step; [exact H2 |]. run_step; [exact H3 |].
    run_step.
  - cbn [benchmarkingIters repeat List.concat app laps].
    repeat first [ apply Forall_nil | apply Forall_cons ];
      first [ exact Logic.I | assumption ].
  - reflexivity.
  - reflexivity.
Qed.

End MatMulRuns.

(** X14: the host block (lines 41-59) goes on after its ten laps and leaves
    in [cs], of which [cs_cpu_reference] is a copy, the inner products: the
    nine later laps recompute what the first one stored. It launches no
    kernel. *)
Theorem host_block_leaves_products (M K N : Z) (rng : Type) (FastRandom : Z -> rng)
    (nextf : rng -> f32 * rng) (lapAvg lapStd : string -> float) (w : MatMul.world) :
  0 <= M -> 0 <= N -> M * N < 2 ^ 32 ->
  List.length (MatMul.cs w) = Z.to_nat (M * N) ->
  result (MatMul.cpu_block M K N rng FastRandom nextf lapAvg lapStd) w = Next tt
  /\ MatMul.cs (final (MatMul.cpu_block M K N rng FastRandom nextf lapAvg lapStd) w)
     = inner_products M K N rng FastRandom nextf
  /\ count is_lap (events (MatMul.cpu_block M K N rng FastRandom nextf lapAvg lapStd) w)
     = benchmarkingIters
  /\ count is_launch (events (MatMul.cpu_block M K N rng FastRandom nextf lapAvg lapStd) w)
     = 0%nat.
Proof.
  intros HM HN Hfit Hlen.
  destruct (cpu_block_proceeds_mat M K N rng FastRandom nextf lapAvg lapStd HM HN Hfit
              w Hlen) as [[[] Hr] [He Hf]].
  rewrite He. repeat split; auto.
Qed.

Lemma host_block_leaves_products_witness :
  result (MatMul.cpu_block 2 2 2 Demo.rng Demo.FastRandom Demo.nextf Demo.lapAvg Demo.lapStd)
    (MatMul.start 2 2) = Next tt
  /\ MatMul.cs
       (final (MatMul.cpu_block 2 2 2 Demo.rng Demo.FastRandom Demo.nextf Demo.lapAvg
                 Demo.lapStd) (MatMul.start 2 2))
     = inner_products 2 2 2 Demo.rng Demo.FastRandom Demo.nextf
  /\ count is_lap
       (events (MatMul.cpu_block 2 2 2 Demo.rng Demo.FastRandom Demo.nextf Demo.lapAvg
                  Demo.lapStd) (MatMul.start 2 2))
     = benchmarkingIters
  /\ count is_launch
       (events (MatMul.cpu_block 2 2 2 Demo.rng Demo.FastRandom Demo.nextf Demo.lapAvg
                  Demo.lapStd) (MatMul.start 2 2))
     = 0%nat.
Proof.
  apply (host_block_leaves_products 2 2 2 Demo.rng Demo.FastRandom Demo.nextf Demo.lapAvg
           Demo.lapStd (MatMul.start 2 2)); [lia | lia | lia | reflexivity].
Defined.

(** X15: when every kernel leaves in the output buffer the inner products
    the host computes, the three validations print an average that is not
    above the tolerance, no diagnostic is printed, all 3 x 10 launches
    happen and the run ends with status 0, for all dimensions whose product
    [M * N] fits an [unsigned int] (lines 14-217). *)
Theorem correct_kernels_pass (M K N : Z) (rng : Type) (FastRandom : Z -> rng)
    (nextf : rng -> f32 * rng) (lapAvg lapStd : string -> float)
    (uninit : buffer -> Z -> list f32)
    (kernel_exec : string -> WorkSize -> Z * Z * Z -> MatMul.gpu -> MatMul.gpu) :
  0 <= M -> 0 <= N -> M * N < 2 ^ 32 ->
  (forall name ws c,
      kernel_exec name ws (M, K, N)
        (MatMul.mkGpu (MatMul.as_ M K N rng FastRandom nextf)
           (MatMul.bs_ M K N rng FastRandom nextf) c)
      = MatMul.mkGpu (MatMul.as_ M K N rng FastRandom nextf)
          (MatMul.bs_ M K N rng FastRandom nextf)
          (inner_products M K N rng FastRandom nextf)) ->
  MatMul.status M K N rng FastRandom nextf lapAvg lapStd uninit kernel_exec = Stop (Exit 0)
  /\ Forall calm (MatMul.trace M K N rng FastRandom nextf lapAvg lapStd uninit kernel_exec)
  /\ count is_launch (MatMul.trace M K N rng FastRandom nextf lapAvg lapStd uninit kernel_exec)
     = 30%nat
  /\ count is_average (MatMul.trace M K N rng FastRandom nextf lapAvg lapStd uninit kernel_exec)
     = 3%nat.
Proof.
  intros HM HN Hfit Hk.
  destruct (main_finishes_mat M K N rng FastRandom nextf lapAvg lapStd uninit kernel_exec
              HM HN Hfit Hk) as (ev & Hfin & Hc & Hl & Ha).
  destruct (Hfin (MatMul.start M N) (start_sized M N HM HN Hfit)) as [Hr He].
  unfold MatMul.status, MatMul.trace, MatMul.run.
  unfold result in Hr. unfold events in He. rewrite Hr, He. auto.
Qed.

Lemma correct_kernels_pass_witness :
  Demo.mat_status 2 2 2 Demo.mat_kernel = Stop (Exit 0)
  /\ Forall calm (Demo.mat_trace 2 2 2 Demo.mat_kernel)
  /\ count is_launch (Demo.mat_trace 2 2 2 Demo.mat_kernel) = 30%nat
  /\ count is_average (Demo.mat_trace 2 2 2 Demo.mat_kernel) = 3%nat.
Proof.
  apply (correct_kernels_pass 2 2 2 Demo.rng Demo.FastRandom Demo.nextf Demo.lapAvg
           Demo.lapStd Demo.uninit_f32 Demo.mat_kernel); [lia | lia | lia |].
  intros name ws c. vm_compute. reflexivity.
Defined.

(** ** What a fresh allocation holds *)

Section MatMulAllocation.

Variables (M K N : Z) (rng : Type) (FastRandom : Z -> rng)
  (nextf : rng -> f32 * rng) (lapAvg lapStd : string -> float)
  (kernel_exec : string -> WorkSize -> Z * Z * Z -> MatMul.gpu -> MatMul.gpu).

(** A variant reads nothing of the state it starts in but the output
    buffer of the device. *)
Lemma variant_reads_output (name label : string) (ws : WorkSize) (ref : list f32)
    (w1 w2 : MatMul.world) :
  MatMul.cs_mem (MatMul.dev w1) = MatMul.cs_mem (MatMul.dev w2) ->
  MatMul.variant M K N rng FastRandom nextf lapAvg lapStd kernel_exec name label ws ref w1
  = MatMul.variant M K N rng FastRandom nextf lapAvg lapStd kernel_exec name label ws ref w2.
Proof.
  intros H.
  pose proof (mat_variant_run M K N rng FastRandom nextf lapAvg lapStd kernel_exec name label
                ws ref w1) as E1.
  pose proof (mat_variant_run M K N rng FastRandom nextf lapAvg lapStd kernel_exec name label
                ws ref w2) as E2.
  cbn zeta in E1, E2. rewrite E1, E2. unfold MatMul.upload.
  cbn [MatMul.as_mem MatMul.bs_mem MatMul.cs_mem]. rewrite H. reflexivity.
Qed.

End MatMulAllocation.

(** X16: what the fresh allocations of the two input buffers hold never
    shows in a run of the matrix program, since every variant uploads both
    matrices before its first launch (lines 67-68, 117-118, 167-168); of the
    allocator only the contents of the output buffer can reach a kernel. *)
Theorem input_allocation_unobserved :
  forall (M K N : Z) (rng : Type) (FastRandom : Z -> rng)
         (nextf : rng -> f32 * rng) (lapAvg lapStd : string -> float)
         (uninit : buffer -> Z -> list f32)
         (kernel_exec : string -> WorkSize -> Z * Z * Z -> MatMul.gpu -> MatMul.gpu),
    MatMul.run M K N rng FastRandom nextf lapAvg lapStd uninit kernel_exec
    = MatMul.run M K N rng FastRandom nextf lapAvg lapStd (blank_inputs uninit) kernel_exec.
Proof.
  intros. unfold MatMul.run, MatMul.main.
  apply bind_same_tail; intros _ s1. apply bind_same_tail; intros _ s2.
  apply bind_same_tail; intros w s3.
  apply bind_same_tail; intros _ s4. apply bind_same_tail; intros _ s5.
  apply bind_same_tail; intros _ s6.
  assert (E : forall u,
             modify (MatMul.set_dev (fun _ => MatMul.allocated M K N u)) s6
             = ([], Next tt, MatMul.set_dev (fun _ => MatMul.allocated M K N u) s6))
    by reflexivity.
  rewrite (bind_run _ _ _ _ _ _ (E uninit)), (bind_run _ _ _ _ _ _ (E (blank_inputs uninit))).
  rewrite (bind_same_head
             (MatMul.variant M K N rng FastRandom nextf lapAvg lapStd kernel_exec
                "matrix_multiplication_naive" "GPU naïve" (MatMul.ws_naive M N) (MatMul.cs w))
             _
             (MatMul.set_dev (fun _ => MatMul.allocated M K N uninit) s6)
             (MatMul.set_dev (fun _ => MatMul.allocated M K N (blank_inputs uninit)) s6));
    [reflexivity |].
  apply variant_reads_output. reflexivity.
Qed.

(** ** The events of a run of the matrix program *)

Lemma ratio_nil (k1 k2 : event -> bool) (c : nat) : ratio k1 k2 c [] None.
Proof. unfold ratio, count. cbn. lia. Qed.

Lemma ratio_app (k1 k2 : event -> bool) (c : nat) (e1 e2 : list event) (h : option halt) :
  ratio k1 k2 c e1 None -> ratio k1 k2 c e2 h -> ratio k1 k2 c (e1 ++ e2) h.
Proof. unfold ratio. intros H1 H2. rewrite !count_app, H1, H2. lia. Qed.

Section MatMulRatios.

Variables (M K N : Z) (rng : Type) (FastRandom : Z -> rng)
  (nextf : rng -> f32 * rng) (lapAvg lapStd : string -> float)
  (uninit : buffer -> Z -> list f32)
  (kernel_exec : string -> WorkSize -> Z * Z * Z -> MatMul.gpu -> MatMul.gpu).

Let main := MatMul.main M K N rng FastRandom nextf lapAvg lapStd uninit kernel_exec.

Local Ltac ratio_main k1 k2 c :=
  unfold main, MatMul.main;
  sat_steps_with
    ltac:(idtac; match goal with
          | |- sat _ (MatMul.cpu_block _ _ _ _ _ _ _ _) => intros s; reflexivity
          | |- sat _ (MatMul.variant _ _ _ _ _ _ _ _ _ _ _ _ _) =>
              let s := fresh "s" in
              let E := fresh "E" in
              intros s; unfold events;
              match goal with
              | |- ratio _ _ _ (fst (fst (MatMul.variant _ _ _ _ _ _ _ _ _ ?name ?label ?ws ?ref _)))
                     _ =>
                  pose proof (mat_variant_run M K N rng FastRandom nextf lapAvg lapStd
                                kernel_exec name label ws ref s) as E
              end;
              cbn zeta in E; rewrite E; cbn [fst];
              destruct (Validator.too_big _); reflexivity
          end)
    (ratio_nil k1 k2 c) (ratio_app k1 k2 c);
    first [ apply sat_emit; reflexivity | apply sat_stop; reflexivity ].

Lemma main_launch_ratio : sat (ratio is_launch is_compile 10) main.
Proof. ratio_main is_launch is_compile 10%nat. Qed.

Lemma main_lap_ratio : sat (ratio is_lap is_timer 10) main.
Proof. ratio_main is_lap is_timer 10%nat. Qed.

Lemma main_upload_ratio : sat (ratio is_upload is_compile 2) main.
Proof. ratio_main is_upload is_compile 2%nat. Qed.

Lemma main_download_ratio : sat (ratio is_download is_compile 1) main.
Proof. ratio_main is_download is_compile 1%nat. Qed.

Lemma main_average_ratio : sat (ratio is_average is_compile 1) main.
Proof. ratio_main is_average is_compile 1%nat. Qed.

End MatMulRatios.

(** X17: in every run of the matrix program in which every call of the
    device library returns, whatever the kernels compute and whether the
    validations pass or one of them fails, every compiled kernel has been
    launched ten times after two uploads, and its output has been downloaded
    once and averaged once: a validation that fails ends the run only after
    the ten launches of its variant; and every timer has closed ten laps
    (lines 41-214). Compiling, launching and the transfers are calls that
    return here: a fault of the device library, which would cut a variant
    short, is not part of this model. *)
Theorem matrix_event_ratios :
  forall (M K N : Z) (rng : Type) (FastRandom : Z -> rng)
         (nextf : rng -> f32 * rng) (lapAvg lapStd : string -> float)
         (uninit : buffer -> Z -> list f32)
         (kernel_exec : string -> WorkSize -> Z * Z * Z -> MatMul.gpu -> MatMul.gpu),
    let trace := MatMul.trace M K N rng FastRandom nextf lapAvg lapStd uninit kernel_exec in
    count is_launch trace = (10 * count is_compile trace)%nat
    /\ count is_lap trace = (10 * count is_timer trace)%nat
    /\ count is_upload trace = (2 * count is_compile trace)%nat
    /\ count is_download trace = count is_compile trace
    /\ count is_average trace = count is_compile trace.
Proof.
  intros. subst trace.
  pose proof (main_launch_ratio M K N rng FastRandom nextf lapAvg lapStd uninit kernel_exec
                (MatMul.start M N)) as H1.
  pose proof (main_lap_ratio M K N rng FastRandom nextf lapAvg lapStd uninit kernel_exec
                (MatMul.start M N)) as H2.
  pose proof (main_upload_ratio M K N rng FastRandom nextf lapAvg lapStd uninit kernel_exec
                (MatMul.start M N)) as H3.
  pose proof (main_download_ratio M K N rng FastRandom nextf lapAvg lapStd uninit kernel_exec
                (MatMul.start M N)) as H4.
  pose proof (main_average_ratio M K N rng FastRandom nextf lapAvg lapStd uninit kernel_exec
                (MatMul.start M N)) as H5.
  unfold ratio in *.
  change (events (MatMul.main M K N rng FastRandom nextf lapAvg lapStd uninit kernel_exec)
            (MatMul.start M N))
    with (MatMul.trace M K N rng FastRandom nextf lapAvg lapStd uninit kernel_exec) in *.
  repeat split; [exact H1 | exact H2 | exact H3 | lia | lia].
Qed.

(** ** The work sizes of the matrix program *)

Lemma events_bind_in {S A B} (m : prog S A) (k : A -> prog S B) (s : S) (e : event) :
  In e (events m s) -> In e (events (bind m k) s).
Proof. intros H. rewrite events_bind. apply in_or_app. left. exact H. Qed.

Lemma events_bind_later {S A B} (m : prog S A) (k : A -> prog S B) (s : S) (e : event)
    (a : A) :
  result m s = Next a -> In e (events (k a) (final m s)) -> In e (events (bind m k) s).
Proof. intros Hr H. rewrite events_bind, Hr. apply in_or_app. right. exact H. Qed.

Lemma tiles_2d (gx gy wx wy : Z) :
  tiles (WorkSize2 gx gy wx wy) <-> (0 < gx /\ wx mod gx = 0) /\ (0 < gy /\ wy mod gy = 0).
Proof.
  unfold tiles, WorkSize2. cbn [groupSize workSize]. split.
  - intros H. inversion H as [| ? ? ? ? Hx H' ]; subst.
    inversion H' as [| ? ? ? ? Hy H'' ]; subst. auto.
  - intros [Hx Hy]. repeat constructor; tauto.
Qed.

(** The first variant launches its kernel, whatever happened before. *)
Lemma naive_launch_in_trace (M K N : Z) (rng : Type) (FastRandom : Z -> rng)
    (nextf : rng -> f32 * rng) (lapAvg lapStd : string -> float)
    (uninit : buffer -> Z -> list f32)
    (kernel_exec : string -> WorkSize -> Z * Z * Z -> MatMul.gpu -> MatMul.gpu) :
  In (EvExec "matrix_multiplication_naive" (MatMul.ws_naive M N))
    (MatMul.trace M K N rng FastRandom nextf lapAvg lapStd uninit kernel_exec).
Proof.
  change (MatMul.trace M K N rng FastRandom nextf lapAvg lapStd uninit kernel_exec)
    with (events (MatMul.main M K N rng FastRandom nextf lapAvg lapStd uninit kernel_exec)
            (MatMul.start M N)).
  unfold MatMul.main.
  do 7 (eapply events_bind_later; [reflexivity |]).
  apply events_bind_in. unfold events.
  match goal with
  | |- In _ (fst (fst (MatMul.variant _ _ _ _ _ _ _ _ _ ?name ?label ?ws ?ref ?s))) =>
      pose proof (mat_variant_run M K N rng FastRandom nextf lapAvg lapStd kernel_exec
                    name label ws ref s) as E
  end.
  cbn zeta in E. rewrite E. cbn [fst].
  apply in_or_app. right. apply in_or_app. left. left. reflexivity.
Qed.

(** X18: the matrix program passes [N] and [M], or [M / 4], as the global
    work size without rounding (lines 80-88, 130-138, 180-188): the work
    size of the naive and block variants is a multiple of the 16 x 16 group
    exactly when [N] and [M] are multiples of 16, that of the third variant
    is a multiple of the 16 x 4 group exactly when [N] is one of 16 and
    [M / 4] one of 4; and every launch of a run, whatever the collaborators
    do, has a work size that is a multiple of its group size exactly when
    [N] and [M] are multiples of 16. *)
Theorem matrix_launches_tile_iff :
  forall (M N : Z),
    (tiles (MatMul.ws_naive M N) <-> N mod 16 = 0 /\ M mod 16 = 0)
    /\ (tiles (MatMul.ws_block M N) <-> N mod 16 = 0 /\ M mod 16 = 0)
    /\ (tiles (MatMul.ws_many M N) <-> N mod 16 = 0 /\ (M / 4) mod 4 = 0)
    /\ (M mod 16 = 0 -> (M / 4) mod 4 = 0 /\ 4 * (M / 4) = M)
    /\ (forall (K : Z) (rng : Type) (FastRandom : Z -> rng) (nextf : rng -> f32 * rng)
               (lapAvg lapStd : string -> float) (uninit : buffer -> Z -> list f32)
               (kernel_exec : string -> WorkSize -> Z * Z * Z -> MatMul.gpu -> MatMul.gpu),
         Forall launch_tiles
           (MatMul.trace M K N rng FastRandom nextf lapAvg lapStd uninit kernel_exec)
         <-> N mod 16 = 0 /\ M mod 16 = 0).
Proof.
  intros M N.
  assert (Hn : tiles (MatMul.ws_naive M N) <-> N mod 16 = 0 /\ M mod 16 = 0).
  { unfold MatMul.ws_naive. rewrite tiles_2d. intuition lia. }
  assert (Hm : tiles (MatMul.ws_many M N) <-> N mod 16 = 0 /\ (M / 4) mod 4 = 0).
  { unfold MatMul.ws_many. rewrite tiles_2d. change (16 / 4) with 4. intuition lia. }
  assert (Hq : M mod 16 = 0 -> (M / 4) mod 4 = 0 /\ 4 * (M / 4) = M).
  { intros H. apply Z.mod_divide in H; [| lia]. destruct H as [q ->].
    replace (q * 16) with (q * 4 * 4) by lia. rewrite Z.div_mul by lia.
    split; [apply Z_mod_mult | lia]. }
  split; [exact Hn |]. split; [exact Hn |]. split; [exact Hm |]. split; [exact Hq |].
  intros. split.
  - intros H. apply Hn.
    pose proof (naive_launch_in_trace M K N rng FastRandom nextf lapAvg lapStd uninit
                  kernel_exec) as Hin.
    rewrite Forall_forall in H. exact (H _ Hin).
  - intros [H1 H2]. apply mat_trace_tiles; [apply Hn | apply Hm]; tauto.
Qed.

(** ** The indices of the host loops *)

Lemma as_length (M K N : Z) (rng : Type) (FastRandom : Z -> rng) (nextf : rng -> f32 * rng) :
  List.length (MatMul.as_ M K N rng FastRandom nextf) = Z.to_nat (u32 (M * K)).
Proof.
  unfold MatMul.as_, MatMul.as_bs.
  pose proof (fill_length rng nextf (Z.to_nat (u32 (M * K))) (FastRandom (u32 (M + K + N))))
    as Ha.
  destruct (MatMul.fill rng nextf (Z.to_nat (u32 (M * K))) (FastRandom (u32 (M + K + N))))
    as [xs r1].
  destruct (MatMul.fill rng nextf (Z.to_nat (u32 (K * N))) r1) as [ys r2]. exact Ha.
Qed.

Lemma bs_length (M K N : Z) (rng : Type) (FastRandom : Z -> rng) (nextf : rng -> f32 * rng) :
  List.length (MatMul.bs_ M K N rng FastRandom nextf) = Z.to_nat (u32 (K * N)).
Proof.
  unfold MatMul.bs_, MatMul.as_bs.
  destruct (MatMul.fill rng nextf (Z.to_nat (u32 (M * K))) (FastRandom (u32 (M + K + N))))
    as [xs r1].
  pose proof (fill_length rng nextf (Z.to_nat (u32 (K * N))) r1) as Hb.
  destruct (MatMul.fill rng nextf (Z.to_nat (u32 (K * N))) r1) as [ys r2]. exact Hb.
Qed.

(** X19: when the three products [M*K], [K*N] and [M*N] fit an
    [unsigned int], every index the host loops compute (lines 44-52) is the
    row-major index without wrap-around and lies inside its vector: [as] is
    read at [j*K + k], [bs] at [k*N + i], and [cs] is written at [j*N + i]. *)
Theorem host_indices_in_bounds (M K N : Z) (rng : Type) (FastRandom : Z -> rng)
    (nextf : rng -> f32 * rng) (j i k : Z) :
  M * K < 2 ^ 32 -> K * N < 2 ^ 32 -> M * N < 2 ^ 32 ->
  0 <= j < M -> 0 <= i < N -> 0 <= k < K ->
  (u32 (j * K + k) = j * K + k
   /\ (Z.to_nat (u32 (j * K + k)) < List.length (MatMul.as_ M K N rng FastRandom nextf))%nat)
  /\ (u32 (k * N + i) = k * N + i
      /\ (Z.to_nat (u32 (k * N + i)) < List.length (MatMul.bs_ M K N rng FastRandom nextf))%nat)
  /\ (u32 (j * N + i) = j * N + i
      /\ (Z.to_nat (u32 (j * N + i)) < List.length (MatMul.cs (MatMul.start M N)))%nat).
Proof.
  intros Hmk Hkn Hmn Hj Hi Hk.
  assert (H1 : 0 <= j * K + k < M * K) by nia.
  assert (H2 : 0 <= k * N + i < K * N) by nia.
  assert (H3 : 0 <= j * N + i < M * N) by nia.
  rewrite as_length, bs_length. unfold MatMul.start. cbn [MatMul.cs].
  rewrite repeat_length.
  rewrite (u32_small (j * K + k)), (u32_small (k * N + i)), (u32_small (j * N + i)) by lia.
  rewrite (u32_small (M * K)), (u32_small (K * N)), (u32_small (M * N)) by lia.
  repeat split; lia.
Qed.

Lemma host_indices_in_bounds_witness :
  (u32 (1023 * 1024 + 1023) = 1023 * 1024 + 1023
   /\ (Z.to_nat (u32 (1023 * 1024 + 1023))
       < List.length (MatMul.as_ 1024 1024 1024 Demo.rng Demo.FastRandom Demo.nextf))%nat)
  /\ (u32 (1023 * 1024 + 1023) = 1023 * 1024 + 1023
      /\ (Z.to_nat (u32 (1023 * 1024 + 1023))
          < List.length (MatMul.bs_ 1024 1024 1024 Demo.rng Demo.FastRandom Demo.nextf))%nat)
  /\ (u32 (1023 * 1024 + 1023) = 1023 * 1024 + 1023
      /\ (Z.to_nat (u32 (1023 * 1024 + 1023))
          < List.length (MatMul.cs (MatMul.start 1024 1024)))%nat).
Proof.
  apply (host_indices_in_bounds 1024 1024 1024 Demo.rng Demo.FastRandom Demo.nextf
           1023 1023 1023); lia.
Defined.

(** ** The output buffer between the variants *)

Lemma events_run {S A B} (m : prog S A) (k : A -> prog S B) (s s' : S) (ev : list event)
    (a : A) :
  m s = (ev, Next a, s') -> events (bind m k) s = ev ++ events (k a) s'.
Proof.
  intros H. unfold events, bind. rewrite H. destruct (k a s') as [[e2 r] s2]. reflexivity.
Qed.

Section StaleOutput.

Variables (M K N : Z) (rng : Type) (FastRandom : Z -> rng)
  (nextf : rng -> f32 * rng) (lapAvg lapStd : string -> float)
  (uninit : buffer -> Z -> list f32)
  (kernel_exec : string -> WorkSize -> Z * Z * Z -> MatMul.gpu -> MatMul.gpu).

Let d1 := first_average M K N rng FastRandom nextf uninit kernel_exec.

Lemma cpu_block_run_mat (w : MatMul.world) :
  MatMul.cpu_block M K N rng FastRandom nextf lapAvg lapStd w
  = ([EvTimer] ++ List.concat (repeat [EvNextLap] benchmarkingIters)
       ++ [EvStats "CPU" (lapAvg "CPU") (lapStd "CPU");
           EvRate "CPU" (MatMul.rate M K N (lapAvg "CPU"))],
     Next tt,
     MatMul.mkWorld
       (Nat.iter benchmarkingIters (MatMul.cpu_multiply M K N rng FastRandom nextf)
          (MatMul.cs w))
       (MatMul.dev w)).
Proof. reflexivity. Qed.

Hypothesis block_writes_nothing :
  forall ws g, kernel_exec "matrix_multiplication_block" ws (M, K, N) g = g.

Hypothesis first_passes : Validator.too_big d1 = false.

Lemma idle_launches (ws : WorkSize) (g : MatMul.gpu) :
  Nat.iter benchmarkingIters
    (MatMul.launch M K N kernel_exec "matrix_multiplication_block" ws) g = g.
Proof.
  unfold benchmarkingIters, MatMul.launch. cbn [Nat.iter nat_rect].
  rewrite !block_writes_nothing. reflexivity.
Qed.

(** The run of a variant from the state the goal has reached. *)
Local Ltac variant_run E :=
  match goal with
  | |- context [events (bind (MatMul.variant _ _ _ _ _ _ _ _ _ ?name ?label ?ws ?ref) _) ?w] =>
      pose proof (mat_variant_run M K N rng FastRandom nextf lapAvg lapStd kernel_exec
                    name label ws ref w) as E;
      cbn zeta in E
  end.

Lemma stale_averages :
  exists d3,
    filter is_average
      (MatMul.trace M K N rng FastRandom nextf lapAvg lapStd uninit kernel_exec)
    = [EvAvgDiff d1; EvAvgDiff d1; EvAvgDiff d3].
Proof.
  change (MatMul.trace M K N rng FastRandom nextf lapAvg lapStd uninit kernel_exec)
    with (events (MatMul.main M K N rng FastRandom nextf lapAvg lapStd uninit kernel_exec)
            (MatMul.start M N)).
  unfold MatMul.main.
  erewrite events_run by reflexivity.
  erewrite events_run by apply cpu_block_run_mat.
  erewrite events_run by reflexivity.
  cbv zeta.
  do 4 (erewrite events_run by reflexivity).
  variant_run E1.
  match type of E1 with context [EvAvgDiff ?d] => change d with d1 in E1 end.
  rewrite first_passes in E1. erewrite events_run by exact E1.
  variant_run E2. rewrite idle_launches in E2.
  match type of E2 with context [EvAvgDiff ?d] => change d with d1 in E2 end.
  rewrite first_passes in E2. erewrite events_run by exact E2.
  variant_run E3. rewrite events_bind. unfold result at 1, final at 1, events at 1.
  rewrite E3. cbn [fst snd].
  eexists. rewrite !filter_app.
  cbn [benchmarkingIters repeat List.concat app laps filter is_average].
  match goal with
  | |- context [if Validator.too_big ?d then _ else _] => destruct (Validator.too_big d)
  end; reflexivity.
Qed.

End StaleOutput.

(** X20: the output buffer of the device is allocated once and is not
    cleared between the variants (lines 61-64, 85-88, 135-138). When the
    first variant passes and the kernel of the second one writes nothing,
    the second validation reads what the first kernel left: it prints the
    average of the first validation again and passes, and the third variant
    runs. *)
Theorem stale_output_passes (M K N : Z) (rng : Type) (FastRandom : Z -> rng)
    (nextf : rng -> f32 * rng) (lapAvg lapStd : string -> float)
    (uninit : buffer -> Z -> list f32)
    (kernel_exec : string -> WorkSize -> Z * Z * Z -> MatMul.gpu -> MatMul.gpu) :
  (forall ws g, kernel_exec "matrix_multiplication_block" ws (M, K, N) g = g) ->
  Validator.too_big (first_average M K N rng FastRandom nextf uninit kernel_exec) = false ->
  exists d3,
    filter is_average
      (MatMul.trace M K N rng FastRandom nextf lapAvg lapStd uninit kernel_exec)
    = [EvAvgDiff (first_average M K N rng FastRandom nextf uninit kernel_exec);
       EvAvgDiff (first_average M K N rng FastRandom nextf uninit kernel_exec);
       EvAvgDiff d3].
Proof.
  intros Hidle Hpass.
  exact (stale_averages M K N rng FastRandom nextf lapAvg lapStd uninit kernel_exec
           Hidle Hpass).
Qed.

Lemma stale_output_passes_witness :
  exists d3,
    filter is_average (Demo.mat_trace 2 2 2 block_idle)
    = [EvAvgDiff (first_average 2 2 2 Demo.rng Demo.FastRandom Demo.nextf Demo.uninit_f32
                    block_idle);
       EvAvgDiff (first_average 2 2 2 Demo.rng Demo.FastRandom Demo.nextf Demo.uninit_f32
                    block_idle);
       EvAvgDiff d3].
Proof.
  apply (stale_output_passes 2 2 2 Demo.rng Demo.FastRandom Demo.nextf Demo.lapAvg
           Demo.lapStd Demo.uninit_f32 block_idle).
  - intros ws g. reflexivity.
  - vm_compute. reflexivity.
Defined.

(** * The guard of the validator *)

Lemma nan_not_zero : nan <> 0%float.
Proof. intros H. apply (f_equal is_nan) in H. vm_compute in H. discriminate. Qed.

(** The guard is false exactly when both numbers are zeros. *)
Lemma guard_false_iff (a b : float) :
  Validator.guard a b = false <-> (a =? 0)%float = true /\ (b =? 0)%float = true.
Proof.
  unfold Validator.guard, fneq.
  destruct (a =? 0)%float, (b =? 0)%float; cbn; split; intros H;
    try discriminate; try (destruct H; discriminate); auto.
Qed.

(** Against a NaN the divisor is the magnitude of the candidate. *)
Lemma divisor_nan_r (a : float) :
  (Validator.divisor a nan =? 0)%float = (a =? 0)%float.
Proof.
  unfold Validator.divisor. rewrite !eqb_spec, std_max_spec, !abs_spec, Prim2SF_zero.
  change (Prim2SF nan) with S754_nan.
  destruct (Prim2SF a) as [[] | [] | | [] m e]; reflexivity.
Qed.

(** Under the guard the divisor is a zero for a zero candidate against a NaN
    reference, and for no other pair. *)
Lemma divisor_zero_iff (a b : float) :
  Validator.guard a b = true ->
  ((Validator.divisor a b =? 0)%float = true <-> (a =? 0)%float = true /\ is_nan b = true).
Proof.
  intros Hg. destruct (is_nan b) eqn:Hb.
  - apply is_nan_eq in Hb. subst b. rewrite divisor_nan_r. tauto.
  - rewrite (divisor_nonzero a b Hg Hb). split; [discriminate | intros [_ H]; discriminate].
Qed.

(** ** A candidate identical to the reference *)

Lemma diff_step_finite (ref : list float) (i : nat) :
  is_finite (nth i ref 0%float) = true -> Validator.diff_step ref ref 0 i = 0%float.
Proof.
  intros Hf. unfold Validator.diff_step.
  destruct (Validator.guard (nth i ref 0%float) (nth i ref 0%float)) eqn:Hg; [| reflexivity].
  rewrite rel_diff_same; [reflexivity | exact Hf |].
  unfold Validator.guard, fneq in Hg.
  destruct (nth i ref 0 =? 0)%float; [discriminate | reflexivity].
Qed.

Lemma diff_steps_finite (ref : list float) (l : list nat) :
  (forall i, In i l -> is_finite (nth i ref 0%float) = true) ->
  fold_left (Validator.diff_step ref ref) l 0%float = 0%float.
Proof.
  induction l as [| i l IH]; intros H; cbn [fold_left]; [reflexivity |].
  rewrite diff_step_finite by (apply H; left; reflexivity).
  apply IH. intros j Hj. apply H. right. exact Hj.
Qed.

(** An infinity or a NaN against itself adds a NaN to the sum. *)
Lemma diff_step_not_finite (ref : list float) (acc : float) (i : nat) :
  is_finite (nth i ref 0%float) = false -> Validator.diff_step ref ref acc i = nan.
Proof.
  intros Hf. unfold Validator.diff_step. set (a := nth i ref 0%float) in *.
  assert (H : Validator.guard a a = true /\ Validator.rel_diff a a = nan).
  { revert Hf. unfold is_finite, is_infinity, Validator.guard, fneq.
    rewrite is_nan_spec, !eqb_spec, abs_spec, Prim2SF_infinity, Prim2SF_zero. intros Hf.
    split.
    - destruct (Prim2SF a) as [[] | [] | | [] m e]; cbn in Hf |- *;
        rewrite ?Z.compare_refl, ?Pos.compare_cont_refl in Hf; try discriminate; reflexivity.
    - apply Prim2SF_inj. unfold Validator.rel_diff, Validator.divisor.
      rewrite div_spec, std_max_spec, !abs_spec, sub_spec, SFltb_irrefl.
      destruct (Prim2SF a) as [[] | [] | | [] m e]; cbn in Hf;
        rewrite ?Z.compare_refl, ?Pos.compare_cont_refl in Hf; try discriminate; reflexivity. }
  destruct H as [-> ->]. apply nan_add_r.
Qed.

Lemma diff_avg_zero_iff (M N : Z) (ref : list float) :
  Validator.diff_avg M N ref ref = 0%float
  <-> 0 < Validator.elems M N
      /\ forall i, (i < Z.to_nat (Validator.elems M N))%nat ->
                   is_finite (nth i ref 0%float) = true.
Proof.
  pose proof (u32_range (M * N)) as Hr. fold (Validator.elems M N) in Hr.
  split.
  - intros H0. split.
    + destruct (Z.eq_dec (Validator.elems M N) 0) as [E | E]; [| lia].
      exfalso. apply nan_not_zero. rewrite <- H0.
      unfold Validator.diff_avg, Validator.diff_sum. rewrite E. reflexivity.
    + intros i Hi. destruct (is_finite (nth i ref 0%float)) eqn:Hf; [reflexivity |].
      exfalso. apply nan_not_zero. rewrite <- H0.
      unfold Validator.diff_avg, Validator.diff_sum.
      replace (Z.to_nat (Validator.elems M N))
        with (i + Datatypes.S (Z.to_nat (Validator.elems M N) - Datatypes.S i))%nat by lia.
      rewrite seq_app, fold_left_app. cbn [seq fold_left Nat.add].
      rewrite (diff_step_not_finite _ _ _ Hf), diff_steps_nan. symmetry. apply nan_div_l.
  - intros [Hpos Hfin]. unfold Validator.diff_avg, Validator.diff_sum.
    rewrite diff_steps_finite.
    + apply zero_div_pos, double_of_Z_pos. lia.
    + intros i Hi. apply in_seq in Hi. apply Hfin. lia.
Qed.

(** C10: in the matrix validator (lines 98-106) the quotient
    [|a-b| / max(|a|,|b|)] is evaluated only under the guard, which fails
    exactly when both elements are zeros, and such an element leaves the sum
    as it is. Under the guard the divisor is not a zero for any candidate,
    NaN and infinities included, against a reference element that is a
    number; it is a zero only for a zero candidate against a NaN reference.
    A candidate identical to the reference always passes, and its average
    error is exactly 0 when the elements are finite and there is at least
    one, and in no other case; so it is for the 1024 x 1024 finite elements
    of the program. *)
Theorem validator_guard_sound :
  (forall a b,
      Validator.guard a b = false <-> (a =? 0)%float = true /\ (b =? 0)%float = true)
  /\ (forall cs ref diff_sum i,
         Validator.guard (nth i cs 0%float) (nth i ref 0%float) = false ->
         Validator.diff_step cs ref diff_sum i = diff_sum)
  /\ (forall cs ref diff_sum i,
         Validator.guard (nth i cs 0%float) (nth i ref 0%float) = true ->
         Validator.diff_step cs ref diff_sum i
         = (diff_sum + Validator.rel_diff (nth i cs 0) (nth i ref 0))%float)
  /\ (forall a b, Validator.guard a b = true -> is_nan b = false ->
                  (Validator.divisor a b =? 0)%float = false)
  /\ (forall a b, Validator.guard a b = true ->
                  ((Validator.divisor a b =? 0)%float = true
                   <-> (a =? 0)%float = true /\ is_nan b = true))
  /\ (forall M N ref, Validator.passes M N ref ref = true)
  /\ (forall M N ref,
         Validator.diff_avg M N ref ref = 0%float
         <-> 0 < Validator.elems M N
             /\ forall i, (i < Z.to_nat (Validator.elems M N))%nat ->
                          is_finite (nth i ref 0%float) = true)
  /\ (forall ref,
         (forall i, (i < 1024 * 1024)%nat -> is_finite (nth i ref 0%float) = true) ->
         Validator.diff_avg MatMul.M_main MatMul.N_main ref ref = 0%float
         /\ Validator.passes MatMul.M_main MatMul.N_main ref ref = true).
Proof.
  split; [exact guard_false_iff |].
  split; [intros cs ref s i Hg; unfold Validator.diff_step; rewrite Hg; reflexivity |].
  split; [intros cs ref s i Hg; unfold Validator.diff_step; rewrite Hg; reflexivity |].
  split; [exact divisor_nonzero |]. split; [exact divisor_zero_iff |].
  split; [intros M N ref; unfold Validator.passes; rewrite too_big_self; reflexivity |].
  split; [exact diff_avg_zero_iff |].
  intros ref Hfin.
  assert (E : Validator.diff_avg MatMul.M_main MatMul.N_main ref ref = 0%float).
  { apply diff_avg_zero_iff. split; [reflexivity |].
    intros i Hi. apply Hfin.
    change (Z.to_nat (Validator.elems MatMul.M_main MatMul.N_main)) with (Z.to_nat 1048576) in Hi.
    lia. }
  split; [exact E |]. unfold Validator.passes. rewrite too_big_self. reflexivity.
Qed.

(** The theorem on a few numbers: a NaN or infinite candidate against the
    reference 2, a zero pair, and a matrix against itself. *)
Lemma validator_guard_sound_witness :
  (Validator.divisor nan 2 =? 0)%float = false
  /\ (Validator.divisor infinity 2 =? 0)%float = false
  /\ Validator.diff_step [0%float] [(-0)%float] 5 0 = 5%float
  /\ Validator.diff_avg 1 2 [1%float; 3%float] [1%float; 3%float] = 0%float
  /\ Validator.passes 1 2 [1%float; 3%float] [1%float; 3%float] = true.
Proof.
  destruct validator_guard_sound as (_ & Hzero & _ & Hdiv & _ & Hpass & Hsame & _).
  split; [apply Hdiv; reflexivity |].
  split; [apply Hdiv; reflexivity |].
  split; [apply Hzero; reflexivity |].
  split; [| apply Hpass].
  apply Hsame. split; [reflexivity |].
  intros [| [| i]] Hi; [reflexivity | reflexivity |].
  exfalso. revert Hi. vm_compute. lia.
Defined.

(** * The matrix program: a validation above the tolerance *)

Lemma result_run {S A B} (m : prog S A) (k : A -> prog S B) (s s' : S) (ev : list event)
    (a : A) :
  m s = (ev, Next a, s') -> result (bind m k) s = result (k a) s'.
Proof.
  intros H. unfold result, bind. rewrite H. destruct (k a s') as [[e2 r] s2]. reflexivity.
Qed.

Lemma events_halt {S A B} (m : prog S A) (k : A -> prog S B) (s s' : S) (ev : list event)
    (h : halt) :
  m s = (ev, Stop h, s') -> events (bind m k) s = ev.
Proof. intros H. unfold events, bind. rewrite H. reflexivity. Qed.

Lemma result_halt {S A B} (m : prog S A) (k : A -> prog S B) (s s' : S) (ev : list event)
    (h : halt) :
  m s = (ev, Stop h, s') -> result (bind m k) s = Stop h.
Proof. intros H. unfold result, bind. rewrite H. reflexivity. Qed.

(** A statement that goes on, in the events or in the result of a run. *)
Ltac run_on tac := first [ erewrite events_run by tac | erewrite result_run by tac ].

(** A statement that ends the run. *)
Ltac run_off tac := first [ erewrite events_halt by tac | erewrite result_halt by tac ].

Section MatMulFailFast.

Variables (M K N : Z) (rng : Type) (FastRandom : Z -> rng)
  (nextf : rng -> f32 * rng) (lapAvg lapStd : string -> float)
  (uninit : buffer -> Z -> list f32)
  (kernel_exec : string -> WorkSize -> Z * Z * Z -> MatMul.gpu -> MatMul.gpu).

Let trace := MatMul.trace M K N rng FastRandom nextf lapAvg lapStd uninit kernel_exec.
Let status := MatMul.status M K N rng FastRandom nextf lapAvg lapStd uninit kernel_exec.
Let average := average_of M K N rng FastRandom nextf.
Let d1 := average (naive_output M K N rng FastRandom nextf uninit kernel_exec).
Let d2 := average (block_output M K N rng FastRandom nextf uninit kernel_exec).
Let d3 := average (many_output M K N rng FastRandom nextf uninit kernel_exec).
Let host := host_events M K N lapAvg lapStd.
Let naive :=
  variant_events M K N lapAvg lapStd "matrix_multiplication_naive" "GPU naïve"
    (MatMul.ws_naive M N) d1.
Let block :=
  variant_events M K N lapAvg lapStd "matrix_multiplication_block" "GPU block"
    (MatMul.ws_block M N) d2.
Let many :=
  variant_events M K N lapAvg lapStd "matrix_multiplication_many" "GPU many"
    (MatMul.ws_many M N) d3.

(** The run of the next variant from the state the goal has reached, its
    average difference named [d]. *)
Local Ltac variant_at name label ws ref w E d :=
  pose proof (mat_variant_run M K N rng FastRandom nextf lapAvg lapStd kernel_exec
                name label ws ref w) as E;
  cbn zeta in E;
  match type of E with context [EvAvgDiff ?x] => change x with d in E end.

Local Ltac next_variant E d :=
  match goal with
  | |- context [events (bind (MatMul.variant _ _ _ _ _ _ _ _ _ ?name ?label ?ws ?ref) _) ?w] =>
      variant_at name label ws ref w E d
  | |- context [result (bind (MatMul.variant _ _ _ _ _ _ _ _ _ ?name ?label ?ws ?ref) _) ?w] =>
      variant_at name label ws ref w E d
  end.

(** Up to the first variant. *)
Local Ltac host_part :=
  unfold trace, status;
  change (MatMul.trace M K N rng FastRandom nextf lapAvg lapStd uninit kernel_exec)
    with (events (MatMul.main M K N rng FastRandom nextf lapAvg lapStd uninit kernel_exec)
            (MatMul.start M N));
  change (MatMul.status M K N rng FastRandom nextf lapAvg lapStd uninit kernel_exec)
    with (result (MatMul.main M K N rng FastRandom nextf lapAvg lapStd uninit kernel_exec)
            (MatMul.start M N));
  unfold MatMul.main;
  run_on reflexivity;
  run_on ltac:(apply cpu_block_run_mat);
  run_on reflexivity;
  cbv zeta;
  do 4 (run_on reflexivity).

Local Ltac passing E d H := next_variant E d; rewrite H in E; run_on ltac:(exact E).

Local Ltac failing E d H := next_variant E d; rewrite H in E; run_off ltac:(exact E).

Lemma first_variant_fails :
  Validator.too_big d1 = true ->
  status = Stop (Exit 1) /\ trace = host ++ naive ++ [EvCerr too_big_message].
Proof.
  intros H1. split; host_part; failing E1 d1 H1; reflexivity.
Qed.

Lemma second_variant_fails :
  Validator.too_big d1 = false -> Validator.too_big d2 = true ->
  status = Stop (Exit 1) /\ trace = host ++ naive ++ block ++ [EvCerr too_big_message].
Proof.
  intros H1 H2. split; host_part; passing E1 d1 H1; failing E2 d2 H2; reflexivity.
Qed.

Lemma third_variant_fails :
  Validator.too_big d1 = false -> Validator.too_big d2 = false ->
  Validator.too_big d3 = true ->
  status = Stop (Exit 1)
  /\ trace = host ++ naive ++ block ++ many ++ [EvCerr too_big_message].
Proof.
  intros H1 H2 H3.
  split; host_part; passing E1 d1 H1; passing E2 d2 H2; failing E3 d3 H3; reflexivity.
Qed.

Lemma all_variants_pass :
  Validator.too_big d1 = false -> Validator.too_big d2 = false ->
  Validator.too_big d3 = false ->
  status = Stop (Exit 0) /\ trace = host ++ naive ++ block ++ many.
Proof.
  intros H1 H2 H3.
  split; host_part; passing E1 d1 H1; passing E2 d2 H2; passing E3 d3 H3; reflexivity.
Qed.

End MatMulFailFast.

(** C1, amended: in every run of the matrix program, for all kernels,
    generators, timers and allocators (the calls of the device library being
    calls that return), the average a variant prints is [diff_avg] of the
    output downloaded after its tenth launch against the host reference. When it exceeds 0.01 the program prints the
    diagnostic after it and returns 1 at once: the trace ends there, and the
    variants after it are neither compiled nor launched. The status is 1
    exactly when one of the three averages, each computed on the device the
    variant before left, exceeds the tolerance, and 0 when none does, in which
    case all three variants have run. An average exceeds the tolerance when
    [0.01 < d]. *)
Theorem tolerance_failure_returns_1 (M K N : Z) (rng : Type) (FastRandom : Z -> rng)
    (nextf : rng -> f32 * rng) (lapAvg lapStd : string -> float)
    (uninit : buffer -> Z -> list f32)
    (kernel_exec : string -> WorkSize -> Z * Z * Z -> MatMul.gpu -> MatMul.gpu) :
  let trace := MatMul.trace M K N rng FastRandom nextf lapAvg lapStd uninit kernel_exec in
  let status := MatMul.status M K N rng FastRandom nextf lapAvg lapStd uninit kernel_exec in
  let d1 :=
    average_of M K N rng FastRandom nextf
      (naive_output M K N rng FastRandom nextf uninit kernel_exec) in
  let d2 :=
    average_of M K N rng FastRandom nextf
      (block_output M K N rng FastRandom nextf uninit kernel_exec) in
  let d3 :=
    average_of M K N rng FastRandom nextf
      (many_output M K N rng FastRandom nextf uninit kernel_exec) in
  let host := host_events M K N lapAvg lapStd in
  let naive :=
    variant_events M K N lapAvg lapStd "matrix_multiplication_naive" "GPU naïve"
      (MatMul.ws_naive M N) d1 in
  let block :=
    variant_events M K N lapAvg lapStd "matrix_multiplication_block" "GPU block"
      (MatMul.ws_block M N) d2 in
  let many :=
    variant_events M K N lapAvg lapStd "matrix_multiplication_many" "GPU many"
      (MatMul.ws_many M N) d3 in
  (Validator.too_big d1 = true ->
   status = Stop (Exit 1) /\ trace = host ++ naive ++ [EvCerr too_big_message])
  /\ (Validator.too_big d1 = false -> Validator.too_big d2 = true ->
      status = Stop (Exit 1) /\ trace = host ++ naive ++ block ++ [EvCerr too_big_message])
  /\ (Validator.too_big d1 = false -> Validator.too_big d2 = false ->
      Validator.too_big d3 = true ->
      status = Stop (Exit 1)
      /\ trace = host ++ naive ++ block ++ many ++ [EvCerr too_big_message])
  /\ (Validator.too_big d1 = false -> Validator.too_big d2 = false ->
      Validator.too_big d3 = false ->
      status = Stop (Exit 0) /\ trace = host ++ naive ++ block ++ many)
  /\ (status = Stop (Exit 1)
      <-> Validator.too_big d1 || Validator.too_big d2 || Validator.too_big d3 = true)
  /\ (status = Stop (Exit 0)
      <-> Validator.too_big d1 || Validator.too_big d2 || Validator.too_big d3 = false)
  /\ (forall d, Validator.too_big d = (0.01 <? d)%float).
Proof.
  intros.
  pose proof (first_variant_fails M K N rng FastRandom nextf lapAvg lapStd uninit kernel_exec)
    as F1.
  pose proof (second_variant_fails M K N rng FastRandom nextf lapAvg lapStd uninit kernel_exec)
    as F2.
  pose proof (third_variant_fails M K N rng FastRandom nextf lapAvg lapStd uninit kernel_exec)
    as F3.
  pose proof (all_variants_pass M K N rng FastRandom nextf lapAvg lapStd uninit kernel_exec)
    as F0.
  cbv zeta in F1, F2, F3, F0.
  fold trace status d1 d2 d3 host naive block many in F1, F2, F3, F0.
  split; [exact F1 |]. split; [exact F2 |]. split; [exact F3 |]. split; [exact F0 |].
  destruct (Validator.too_big d1) eqn:H1; [| destruct (Validator.too_big d2) eqn:H2;
    [| destruct (Validator.too_big d3) eqn:H3]]; cbn [orb].
  - destruct (F1 eq_refl) as [-> _]. split; [split; congruence |].
    split; [split; congruence | reflexivity].
  - destruct (F2 eq_refl eq_refl) as [-> _]. split; [split; congruence |].
    split; [split; congruence | reflexivity].
  - destruct (F3 eq_refl eq_refl eq_refl) as [-> _]. split; [split; congruence |].
    split; [split; congruence | reflexivity].
  - destruct (F0 eq_refl eq_refl eq_refl) as [-> _]. split; [split; congruence |].
    split; [split; congruence | reflexivity].
Qed.

(** * The reduction program: a trial whose sum differs *)

Lemma passed_le (ref : Z) (cs : list (Z * string)) : (passed ref cs <= List.length cs)%nat.
Proof.
  induction cs as [| c cs IH]; cbn [passed List.length]; [lia |].
  destruct (ref =? fst c); lia.
Qed.

Lemma passed_app_stop (ref : Z) (cs1 cs2 : list (Z * string)) :
  (passed ref cs1 < List.length cs1)%nat -> passed ref (cs1 ++ cs2) = passed ref cs1.
Proof.
  induction cs1 as [| c cs1 IH]; cbn [passed List.length app]; intros H; [lia |].
  destruct (ref =? fst c); [f_equal; apply IH; lia | reflexivity].
Qed.

Lemma passed_app_all (ref : Z) (cs1 cs2 : list (Z * string)) :
  passed ref cs1 = List.length cs1 ->
  passed ref (cs1 ++ cs2) = (List.length cs1 + passed ref cs2)%nat.
Proof.
  induction cs1 as [| c cs1 IH]; cbn [passed List.length app]; intros H; [reflexivity |].
  destruct (ref =? fst c); [| discriminate].
  cbn [Nat.add]. f_equal. apply IH. lia.
Qed.

(** The candidate at which the trials stop differs from the reference sum,
    and every candidate before it is equal to it. *)
Lemma passed_differs (ref : Z) (cs : list (Z * string)) (c : Z * string) :
  nth_error cs (passed ref cs) = Some c -> fst c <> ref.
Proof.
  induction cs as [| c0 cs IH]; cbn [passed]; [discriminate |].
  destruct (ref =? fst c0) eqn:E; cbn [nth_error]; [exact IH |].
  intros H. injection H as <-. apply Z.eqb_neq in E. congruence.
Qed.

Lemma passed_agree (ref : Z) (cs : list (Z * string)) (i : nat) (c : Z * string) :
  (i < passed ref cs)%nat -> nth_error cs i = Some c -> fst c = ref.
Proof.
  revert i. induction cs as [| c0 cs IH]; intros i; cbn [passed]; [lia |].
  destruct (ref =? fst c0) eqn:E; [| lia].
  destruct i as [| i]; cbn [nth_error].
  - intros _ H. injection H as <-. apply Z.eqb_eq in E. congruence.
  - intros Hi. apply IH. lia.
Qed.

Lemma bind_next {S A B} (m : prog S A) (k : A -> prog S B) (s : S) (a : A) :
  result m s = Next a ->
  events (bind m k) s = events m s ++ events (k a) (final m s)
  /\ result (bind m k) s = result (k a) (final m s)
  /\ final (bind m k) s = final (k a) (final m s).
Proof.
  unfold events, result, final, bind. destruct (m s) as [[e1 r] s1]. cbn [fst snd].
  intros ->. destruct (k a s1) as [[e2 r2] s2]. auto.
Qed.

Lemma bind_stop {S A B} (m : prog S A) (k : A -> prog S B) (s : S) (h : halt) :
  result m s = Stop h ->
  events (bind m k) s = events m s /\ result (bind m k) s = Stop h.
Proof.
  unfold events, result, bind. destruct (m s) as [[e1 r] s1]. cbn [fst snd].
  intros ->. auto.
Qed.

Section Checks.

Context {S : Type}.
Variable ref : Z.

Lemma checks_of_proceeds {A} (P Q : S -> Prop) (m : prog S A) (ev : list event) :
  proceeds P m ev Q ->
  filter is_expect ev = [] -> count is_lap ev = 0%nat -> Forall quiet ev ->
  checks ref P m [] (goes_on Q).
Proof.
  intros Hm Hx Hl Hq s Hs. destruct (Hm s Hs) as [Ha [He HQ]].
  cbn [passed firstn map nth_error]. rewrite He.
  split; [exact Hx |]. split; [exact Hl |]. split; [split; assumption | exact Hq].
Qed.

Lemma checks_emit (P : S -> Prop) (e : event) :
  is_expect e = false -> is_lap e = false -> quiet e ->
  checks ref P (emit e) [] (goes_on P).
Proof.
  intros Hx Hl Hq. apply (checks_of_proceeds P P (emit e) [e]).
  - apply proceeds_emit.
  - cbn [filter]. rewrite Hx. reflexivity.
  - unfold count. cbn [filter]. rewrite Hl. reflexivity.
  - constructor; [exact Hq | constructor].
Qed.

Lemma checks_stop {A} (P : S -> Prop) : checks ref P (@stop S A (Exit 0)) [] returns_0.
Proof.
  intros s Hs. cbn [passed firstn map nth_error]. unfold returns_0.
  split; [reflexivity |]. split; [reflexivity |]. split; [reflexivity | constructor].
Qed.

Lemma checks_bind {A B} (P Q : S -> Prop) (m : prog S A) (k : A -> prog S B)
    (cs1 cs2 : list (Z * string)) (normal : flow B -> S -> Prop) :
  checks ref P m cs1 (goes_on Q) -> (forall a, checks ref Q (k a) cs2 normal) ->
  checks ref P (bind m k) (cs1 ++ cs2) normal.
Proof.
  intros Hm Hk s Hs. destruct (Hm s Hs) as (Hx & Hl & Hn).
  pose proof (passed_le ref cs1) as Hle.
  destruct (Nat.lt_ge_cases (passed ref cs1) (List.length cs1)) as [Hlt | Hge].
  - rewrite passed_app_stop by exact Hlt.
    rewrite nth_error_app1 by exact Hlt.
    rewrite firstn_app.
    replace (Datatypes.S (passed ref cs1) - List.length cs1)%nat with 0%nat by lia.
    cbn [firstn]. rewrite app_nil_r.
    destruct (nth_error cs1 (passed ref cs1)) as [c |] eqn:Hc;
      [| apply nth_error_None in Hc; lia].
    destruct Hn as [Hr Hpre].
    destruct (bind_stop m k s _ Hr) as [-> ->]. auto.
  - assert (Hall : passed ref cs1 = List.length cs1) by lia.
    rewrite Hall in Hx, Hl, Hn.
    rewrite (proj2 (nth_error_None cs1 (List.length cs1)) (Nat.le_refl _)) in Hn.
    destruct Hn as [[[a Ha] HQ] Hq1].
    rewrite firstn_all2 in Hx by lia.
    destruct (bind_next m k s a Ha) as (-> & -> & ->).
    destruct (Hk a (final m s) HQ) as (Hx2 & Hl2 & Hn2).
    rewrite passed_app_all by exact Hall.
    rewrite filter_app, count_app, Hx, Hl, Hx2, Hl2.
    rewrite firstn_app. rewrite (@firstn_all2 _ _ cs1) by lia.
    replace (Datatypes.S (List.length cs1 + passed ref cs2) - List.length cs1)%nat
      with (Datatypes.S (passed ref cs2)) by lia.
    rewrite map_app.
    rewrite nth_error_app2 by lia.
    replace (List.length cs1 + passed ref cs2 - List.length cs1)%nat
      with (passed ref cs2) by lia.
    split; [reflexivity |]. split; [reflexivity |].
    destruct (nth_error cs2 (passed ref cs2)) as [c |].
    + destruct Hn2 as [Hr (pre & He & Hpre)]. split; [exact Hr |].
      exists (events m s ++ pre). rewrite He, app_assoc. split; [reflexivity |].
      apply Forall_app. split; assumption.
    + destruct Hn2 as [Hnorm Hq2]. split; [exact Hnorm |].
      apply Forall_app. split; assumption.
Qed.

Lemma checks_for_from (P : S -> Prop) (body : nat -> prog S unit)
    (cs_of : nat -> list (Z * string)) :
  (forall i, checks ref P (body i) (cs_of i) (goes_on P)) ->
  forall count first,
    checks ref P (for_from first count body) (flat_map cs_of (seq first count)) (goes_on P).
Proof.
  intros Hb count. induction count as [| c IH]; intros first; cbn [for_from seq flat_map].
  - apply (checks_of_proceeds P P (ret tt) []);
      [apply proceeds_ret | reflexivity | reflexivity | constructor].
  - apply (checks_bind P P); [apply Hb | intros _; apply IH].
Qed.

Lemma checks_for_iters (P : S -> Prop) (body : nat -> prog S unit)
    (cs_of : nat -> list (Z * string)) (count : nat) :
  (forall i, checks ref P (body i) (cs_of i) (goes_on P)) ->
  checks ref P (for_iters count body) (flat_map cs_of (seq 0 count)) (goes_on P).
Proof. intros Hb. apply checks_for_from. exact Hb. Qed.

Lemma checks_candidates {A} (P : S -> Prop) (m : prog S A) (cs cs' : list (Z * string))
    (normal : flow A -> S -> Prop) :
  checks ref P m cs normal -> cs = cs' -> checks ref P m cs' normal.
Proof. intros H <-. exact H. Qed.

End Checks.

(** A trial of a host block: the sum is compared and the lap closed. *)
Lemma checks_host_trial (ref c : Z) (msg : string) (P : Sum.world -> Prop) :
  checks ref P (bind (Sum.raiseFail ref c msg) (fun _ => emit EvNextLap)) [(c, msg)]
    (goes_on P).
Proof.
  intros s Hs. unfold comparison, goes_on, count.
  unfold Sum.raiseFail, events, result, final, bind, emit, stop, ret.
  cbn [passed fst snd]. destruct (ref =? c) eqn:E; cbn.
  - apply Z.eqb_eq in E. repeat split; eauto. repeat constructor. exact E.
  - repeat split. exists []. split; [reflexivity | constructor].
Qed.

Section SumFatal.

Variables (n seed : Z) (rng : Type) (FastRandom : Z -> rng)
  (next : rng -> Z -> Z -> Z * rng) (lapAvg lapStd : string -> float)
  (omp_chunks : nat -> list Z -> list (list Z)) (uninit : buffer -> Z -> list Z)
  (kernel_exec : string -> WorkSize -> Z -> Sum.gpu -> Sum.gpu).

Let as_ := Sum.as_ n seed rng FastRandom next.
Let ref := Sum.reference_sum n seed rng FastRandom next.
Let launch := launched n kernel_exec.
Let sums := trial_sums n kernel_exec.
Let device := after_trials n kernel_exec.

Local Ltac plain := apply checks_emit; [reflexivity | reflexivity | exact Logic.I].

Lemma checks_report (P : Sum.world -> Prop) (label : string) :
  checks ref P (Sum.report n lapAvg lapStd label) [] (goes_on P).
Proof.
  unfold Sum.report.
  apply (checks_bind ref P P _ _ [] []); [plain | intros _; plain].
Qed.

Lemma checks_cpu_block (P : Sum.world -> Prop) :
  checks ref P (Sum.cpu_block n seed rng FastRandom next lapAvg lapStd)
    (repeat (Sum.cpu_sum as_, Sum.message_cpu) benchmarkingIters) (goes_on P).
Proof.
  unfold Sum.cpu_block.
  eapply checks_candidates.
  - apply (checks_bind ref P P); [plain | intros _].
    apply (checks_bind ref P P); [| intros _; apply checks_report].
    apply (checks_for_iters ref P _ (fun _ => [(Sum.cpu_sum as_, Sum.message_cpu)])).
    intros i. apply checks_host_trial.
  - reflexivity.
Qed.

Lemma checks_omp_block (P : Sum.world -> Prop) :
  checks ref P (Sum.omp_block n seed rng FastRandom next lapAvg lapStd omp_chunks)
    (map (fun iter => (Sum.omp_reduce (omp_chunks iter as_), Sum.message_omp))
       (seq 0 benchmarkingIters))
    (goes_on P).
Proof.
  unfold Sum.omp_block.
  eapply checks_candidates.
  - apply (checks_bind ref P P); [plain | intros _].
    apply (checks_bind ref P P); [| intros _; apply checks_report].
    apply (checks_for_iters ref P _
             (fun iter => [(Sum.omp_reduce (omp_chunks iter as_), Sum.message_omp)])).
    intros i. apply checks_host_trial.
  - reflexivity.
Qed.

(** A trial of an accelerator variant that starts on [w]. *)
Lemma checks_trial (name : string) (gws : Z) (w : Sum.world) :
  checks ref (fun s => s = w)
    (Sum.trial n seed rng FastRandom next kernel_exec name gws)
    [(downloaded (launch name gws w), Sum.message_gpu)]
    (goes_on (fun s => s = launch name gws w)).
Proof.
  intros s ->.
  pose proof (sum_trial_run n seed rng FastRandom next kernel_exec name gws w) as E.
  cbn zeta in E. fold ref in E.
  change (kernel_exec name (WorkSize1 Sum.workGroupSize gws) n
            (Sum.mkGpu (Sum.as_mem w) [0])) with (launch name gws w) in E.
  change (nth 0 (Sum.result_mem (launch name gws w)) 0)
    with (downloaded (launch name gws w)) in E.
  unfold events, result, final, comparison, goes_on, count. rewrite E.
  cbn [passed fst snd]. destruct (ref =? downloaded (launch name gws w)) eqn:Eq; cbn.
  - apply Z.eqb_eq in Eq. repeat split; eauto. repeat constructor. exact Eq.
  - repeat split. eexists [_; _; _]. split; [reflexivity | repeat constructor].
Qed.

Lemma checks_trials (name : string) (gws : Z) (count first : nat) (w : Sum.world) :
  checks ref (fun s => s = w)
    (for_from first count (fun _ => Sum.trial n seed rng FastRandom next kernel_exec name gws))
    (map (fun c => (c, Sum.message_gpu)) (sums name gws count w))
    (goes_on (fun s => s = device name gws count w)).
Proof.
  revert first w. induction count as [| c IH]; intros first w.
  - apply (checks_of_proceeds ref (fun s => s = w) (fun s => s = w) (ret tt) []);
      [apply proceeds_ret | reflexivity | reflexivity | constructor].
  - cbn [for_from]. unfold sums, device. cbn [trial_sums after_trials map].
    fold sums device launch.
    apply (checks_bind ref _ (fun s => s = launch name gws w) _ _ [_]);
      [apply checks_trial | intros _; apply IH].
Qed.

Lemma checks_variant (name label : string) (gws : Z) (w : Sum.world) :
  checks ref (fun s => s = w)
    (Sum.variant n seed rng FastRandom next lapAvg lapStd kernel_exec name label gws)
    (map (fun c => (c, Sum.message_gpu)) (sums name gws benchmarkingIters w))
    (goes_on (fun s => s = device name gws benchmarkingIters w)).
Proof.
  unfold Sum.variant.
  eapply checks_candidates.
  - apply (checks_bind ref _ (fun s => s = w)); [plain | intros _].
    apply (checks_bind ref _ (fun s => s = w)); [plain | intros _].
    eapply checks_bind; [apply checks_trials | intros _; apply checks_report].
  - cbn [app]. apply app_nil_r.
Qed.

Lemma checks_setup (P : Sum.world -> Prop) :
  checks ref P (Sum.setup n seed rng FastRandom next uninit) []
    (goes_on (fun s => s = Sum.mkGpu as_ (uninit result_gpu 1))).
Proof.
  apply (checks_of_proceeds ref P _ _
           [EvResizeN as_gpu n; EvWriteN as_gpu; EvResizeN result_gpu 1]);
    [| reflexivity | reflexivity | repeat constructor].
  intros s Hs. cbn. split; [eexists; reflexivity | split; reflexivity].
Qed.

Lemma checks_main :
  checks ref (fun _ => True)
    (Sum.main n seed rng FastRandom next lapAvg lapStd omp_chunks uninit kernel_exec)
    (candidates n seed rng FastRandom next omp_chunks uninit kernel_exec)
    returns_0.
Proof.
  unfold Sum.main.
  eapply checks_candidates.
  - eapply checks_bind; [apply checks_cpu_block | intros _].
    eapply checks_bind; [apply checks_omp_block | intros _].
    eapply checks_bind; [apply checks_setup | intros _].
    eapply checks_bind; [| intros _; apply checks_stop].
    unfold Sum.variants.
    eapply checks_bind; [apply checks_variant | intros _].
    eapply checks_bind; [apply checks_variant | intros _].
    eapply checks_bind; [apply checks_variant | intros _].
    eapply checks_bind; [apply checks_variant | intros _].
    apply checks_variant.
  - unfold candidates, variant_plan. cbn [variant_sums app].
    rewrite !map_app, !app_nil_r. reflexivity.
Qed.

End SumFatal.

Lemma trial_sums_length (n : Z) (kernel_exec : string -> WorkSize -> Z -> Sum.gpu -> Sum.gpu)
    (name : string) (gws : Z) (count : nat) (w : Sum.world) :
  List.length (trial_sums n kernel_exec name gws count w) = count.
Proof.
  revert w. induction count as [| c IH]; intros w; cbn [trial_sums List.length];
    [reflexivity |].
  rewrite IH. reflexivity.
Qed.

Lemma candidates_length (n seed : Z) (rng : Type) (FastRandom : Z -> rng)
    (next : rng -> Z -> Z -> Z * rng) (omp_chunks : nat -> list Z -> list (list Z))
    (uninit : buffer -> Z -> list Z)
    (kernel_exec : string -> WorkSize -> Z -> Sum.gpu -> Sum.gpu) :
  List.length (candidates n seed rng FastRandom next omp_chunks uninit kernel_exec) = 70%nat.
Proof.
  unfold candidates, variant_plan. cbn [variant_sums].
  rewrite !length_app, repeat_length, !length_map, length_seq, !length_app,
    !trial_sums_length.
  reflexivity.
Qed.

(** C2: every trial of the reduction program compares its candidate sum
    with the reference sum: the sum of the sequential loop, the sum of the
    OpenMP loop, or the sum downloaded after the launch of the kernel on the
    zeroed result cell. For all kernels, generators, timers, allocators and
    OpenMP schedules (the calls of the device library being calls that
    return), the comparisons of a run are those of the trials up to
    the first one whose candidate differs, in the order of the program; every
    trial before it passed and closed its lap; at that trial the program
    prints the diagnostic and the exception leaves [main], so that the trace
    ends there and no further trial or variant is started. Only when all 70
    candidates are equal to the reference sum does the run return 0. *)
Theorem mismatch_is_fatal (n seed : Z) (rng : Type) (FastRandom : Z -> rng)
    (next : rng -> Z -> Z -> Z * rng) (lapAvg lapStd : string -> float)
    (omp_chunks : nat -> list Z -> list (list Z)) (uninit : buffer -> Z -> list Z)
    (kernel_exec : string -> WorkSize -> Z -> Sum.gpu -> Sum.gpu) :
  let cs := candidates n seed rng FastRandom next omp_chunks uninit kernel_exec in
  let ref := Sum.reference_sum n seed rng FastRandom next in
  let trace :=
    Sum.trace n seed rng FastRandom next lapAvg lapStd omp_chunks uninit kernel_exec in
  let status :=
    Sum.status n seed rng FastRandom next lapAvg lapStd omp_chunks uninit kernel_exec in
  let k := passed ref cs in
  List.length cs = 70%nat
  /\ (forall i c, (i < k)%nat -> nth_error cs i = Some c -> fst c = ref)
  /\ filter is_expect trace = map (comparison ref) (firstn (Datatypes.S k) cs)
  /\ count is_lap trace = k
  /\ (forall c, nth_error cs k = Some c ->
        fst c <> ref
        /\ status = Stop (Throw (snd c))
        /\ exists pre,
            trace = pre ++ [EvExpect ref (fst c); EvCerr (snd c)] /\ Forall quiet pre)
  /\ (nth_error cs k = None -> status = Stop (Exit 0) /\ Forall quiet trace).
Proof.
  intros.
  destruct (checks_main n seed rng FastRandom next lapAvg lapStd omp_chunks uninit
              kernel_exec Sum.start Logic.I) as (Hx & Hl & Hn).
  fold cs ref in Hx, Hl, Hn. fold k in Hx, Hl, Hn.
  change (events (Sum.main n seed rng FastRandom next lapAvg lapStd omp_chunks uninit
                    kernel_exec) Sum.start) with trace in Hx, Hl, Hn.
  change (result (Sum.main n seed rng FastRandom next lapAvg lapStd omp_chunks uninit
                    kernel_exec) Sum.start) with status in Hn.
  split; [apply candidates_length |].
  split; [intros i c; apply passed_agree |].
  split; [exact Hx |]. split; [exact Hl |]. split.
  - intros c Hc. rewrite Hc in Hn. destruct Hn as [Hr Hpre].
    split; [exact (passed_differs ref cs c Hc) | split; assumption].
  - intros Hc. rewrite Hc in Hn. exact Hn.
Qed.

(** The theorem on the run whose [sum_loop] kernel drops an element: the
    thirty trials before the first one of that variant pass, and its
    diagnostic is the last event of the run. *)
Lemma mismatch_is_fatal_witness :
  Demo.sum_status 5 Demo.sum_kernel_short = Stop (Throw Sum.message_gpu)
  /\ count is_lap (Demo.sum_trace 5 Demo.sum_kernel_short) = 30%nat
  /\ exists pre,
      Demo.sum_trace 5 Demo.sum_kernel_short
      = pre ++ [EvExpect 1649278285 1600176010; EvCerr Sum.message_gpu]
      /\ Forall quiet pre.
Proof.
  pose proof (mismatch_is_fatal 5 Sum.seed_main Demo.rng Demo.FastRandom Demo.next
                Demo.lapAvg Demo.lapStd Demo.omp_chunks Demo.uninit_u32
                Demo.sum_kernel_short) as H.
  cbv zeta in H. destruct H as (_ & _ & _ & Hlap & Hfail & _).
  assert (Ek : passed (Sum.reference_sum 5 Sum.seed_main Demo.rng Demo.FastRandom Demo.next)
                 (candidates 5 Sum.seed_main Demo.rng Demo.FastRandom Demo.next
                    Demo.omp_chunks Demo.uninit_u32 Demo.sum_kernel_short)
               = 30%nat) by (vm_compute; reflexivity).
  rewrite Ek in Hlap, Hfail.
  destruct (Hfail (1600176010, Sum.message_gpu)) as (_ & Hst & Hpre);
    [vm_compute; reflexivity |].
  split; [exact Hst |]. split; [exact Hlap | exact Hpre].
Defined.
